(** * Bandwidth-saver worker: image caching proxy and per-site usage tracker

    A shallow embedding of the worker's validation, origin, cache, request
    handler and usage-tracker code, followed by the properties proved about
    them.

    Conventions of the embedding:
    - a JavaScript string is a [string] of bytes (ASCII text, or the UTF-8
      encoding of the text); case mapping and white space are the ASCII ones;
    - a JavaScript number that holds a counter, a size or a time stamp is a
      [Z]; [NaN] and [null]/[undefined] are [None];
    - code that can throw returns a [Result]: [Ok v] or [Throw message];
    - what the platform decides (outcome of a storage call, of the billing
      database, of the network, the clock) is an explicit argument. *)

From Stdlib Require Import ZArith Lia Bool Ascii String List.
From stdpp Require Import base option list strings gmap pretty.

Local Open Scope Z_scope.

(** ** Results of code that can throw *)

Inductive Result (A : Type) : Type :=
| Ok (value : A)
| Throw (message : string).
Arguments Ok {A} value.
Arguments Throw {A} message.

Definition bindR {A B : Type} (r : Result A) (k : A → Result B) : Result B :=
  match r with
  | Ok a => k a
  | Throw m => Throw m
  end.

#[global] Instance Result_bind : MBind Result := λ A B k r, bindR r k.
#[global] Instance Result_ret : MRet Result := λ A a, Ok a.

(** ** The JavaScript built-ins the code calls *)

Module Js.

(** [a || b] on optional strings: [undefined], [null] and the empty string
    are falsy. *)
Definition truthy (o : option string) : bool :=
  match o with
  | Some s => negb (String.eqb s "")
  | None => false
  end.

Definition or_else (o : option string) (d : string) : string :=
  match o with
  | Some s => if String.eqb s "" then d else s
  | None => d
  end.

Definition code (c : ascii) : N := N_of_ascii c.

Definition in_range (lo hi c : ascii) : bool :=
  (code lo <=? code c)%N && (code c <=? code hi)%N.

Definition is_digit (c : ascii) : bool := in_range "0" "9" c.
Definition is_lower (c : ascii) : bool := in_range "a" "z" c.
Definition is_upper (c : ascii) : bool := in_range "A" "Z" c.

Definition lower_char (c : ascii) : ascii :=
  if is_upper c then ascii_of_N (code c + 32) else c.

Fixpoint toLowerCase (s : string) : string :=
  match s with
  | EmptyString => EmptyString
  | String c s' => String (lower_char c) (toLowerCase s')
  end.

Fixpoint startsWith (s p : string) : bool :=
  match p, s with
  | EmptyString, _ => true
  | String a p', String b s' => Ascii.eqb a b && startsWith s' p'
  | String _ _, EmptyString => false
  end.

Fixpoint endsWith (s suffix : string) : bool :=
  String.eqb s suffix ||
  match s with
  | EmptyString => false
  | String _ s' => endsWith s' suffix
  end.

Fixpoint includes (s sub : string) : bool :=
  startsWith s sub ||
  match s with
  | EmptyString => false
  | String _ s' => includes s' sub
  end.

(** [s.substring(n)] *)
Fixpoint substring_from (n : nat) (s : string) : string :=
  match n, s with
  | O, _ => s
  | S n', String _ s' => substring_from n' s'
  | S _, EmptyString => EmptyString
  end.

(** [s.split(sep)] for a one-character separator. *)
Fixpoint split (sep : ascii) (s : string) : list string :=
  match s with
  | EmptyString => [EmptyString]
  | String c s' =>
      if Ascii.eqb c sep then EmptyString :: split sep s'
      else match split sep s' with
           | x :: xs => String c x :: xs
           | [] => [String c EmptyString]
           end
  end.

(** [parts.join(sep)] *)
Fixpoint join (sep : string) (parts : list string) : string :=
  match parts with
  | [] => EmptyString
  | [x] => x
  | x :: xs => x +:+ sep +:+ join sep xs
  end.

Definition is_space (c : ascii) : bool :=
  ((9 <=? code c)%N && (code c <=? 13)%N) || (code c =? 32)%N.

Fixpoint trimStart (s : string) : string :=
  match s with
  | String c s' => if is_space c then trimStart s' else s
  | EmptyString => EmptyString
  end.

Fixpoint trimEnd (s : string) : string :=
  match s with
  | EmptyString => EmptyString
  | String c s' =>
      let r := trimEnd s' in
      if is_space c && String.eqb r "" then EmptyString else String c r
  end.

Definition trim (s : string) : string := trimEnd (trimStart s).

(** [s.replace(/^c+/, '')] *)
Fixpoint strip_leading (c : ascii) (s : string) : string :=
  match s with
  | String d s' => if Ascii.eqb d c then strip_leading c s' else s
  | EmptyString => EmptyString
  end.

(** *** parseInt *)

Definition digit_value (c : ascii) : option Z :=
  if is_digit c then Some (Z.of_N (code c) - 48)
  else if is_lower c then Some (Z.of_N (code c) - 87)
  else if is_upper c then Some (Z.of_N (code c) - 55)
  else None.

Definition digit_in (radix : Z) (c : ascii) : option Z :=
  match digit_value c with
  | Some d => if d <? radix then Some d else None
  | None => None
  end.

(** The longest prefix of digits of the radix, read most significant
    first; [None] when there is no digit at all. *)
Fixpoint read_digits (radix : Z) (acc : option Z) (s : string) : option Z :=
  match s with
  | EmptyString => acc
  | String c s' =>
      match digit_in radix c with
      | Some d => read_digits radix (Some (radix * default 0 acc + d)) s'
      | None => acc
      end
  end.

Definition strip_hex_prefix (s : string) : option string :=
  match s with
  | String "0" (String "x" r) => Some r
  | String "0" (String "X" r) => Some r
  | _ => None
  end.

(** [parseInt(s, radix)]; [radix = None] is the call with one argument.
    [None] is [NaN]. Only the radices the code uses are modelled. *)
Definition parseInt (s : string) (radix : option Z) : option Z :=
  let t := trimStart s in
  let '(sign, t) :=
    match t with
    | String "-" r => (-1, r)
    | String "+" r => (1, r)
    | _ => (1, t)
    end in
  let '(r, t) :=
    match radix with
    | Some r => (r, t)
    | None =>
        match strip_hex_prefix t with
        | Some t' => (16, t')
        | None => (10, t)
        end
    end in
  (λ n, sign * n) <$> read_digits r None t.

(** *** decodeURIComponent and encodeURIComponent *)

Definition hex_value (c : ascii) : option Z := digit_in 16 c.

(** Reads [n] escapes [%XX] from the front of [s]. *)
Fixpoint read_escapes (n : nat) (s : string) : option (list Z * string) :=
  match n with
  | O => Some ([], s)
  | S n' =>
      match s with
      | String "%" (String h (String l rest)) =>
          match hex_value h, hex_value l with
          | Some a, Some b =>
              match read_escapes n' rest with
              | Some (os, r) => Some ((16 * a + b) :: os, r)
              | None => None
              end
          | _, _ => None
          end
      | _ => None
      end
  end.

(** Number of octets of the UTF-8 sequence a leading octet announces. *)
Definition utf8_length (b : Z) : option nat :=
  if b <? 128 then Some 1%nat
  else if b <? 192 then None
  else if b <? 224 then Some 2%nat
  else if b <? 240 then Some 3%nat
  else if b <? 248 then Some 4%nat
  else None.

Definition is_continuation (b : Z) : bool := (128 <=? b) && (b <? 192).

(** The code point of a well-formed UTF-8 sequence: shortest form, no
    surrogate, at most U+10FFFF. *)
Definition utf8_code_point (octets : list Z) : option Z :=
  match octets with
  | [b0] => if b0 <? 128 then Some b0 else None
  | [b0; b1] =>
      let cp := (b0 - 192) * 64 + (b1 - 128) in
      if is_continuation b1 && (128 <=? cp) then Some cp else None
  | [b0; b1; b2] =>
      let cp := (b0 - 224) * 4096 + (b1 - 128) * 64 + (b2 - 128) in
      if is_continuation b1 && is_continuation b2 && (2048 <=? cp)
         && negb ((55296 <=? cp) && (cp <=? 57343))
      then Some cp else None
  | [b0; b1; b2; b3] =>
      let cp := (b0 - 240) * 262144 + (b1 - 128) * 4096
                + (b2 - 128) * 64 + (b3 - 128) in
      if is_continuation b1 && is_continuation b2 && is_continuation b3
         && (65536 <=? cp) && (cp <=? 1114111)
      then Some cp else None
  | _ => None
  end.

Definition octets_to_string (octets : list Z) : string :=
  fold_right (λ b s, String (ascii_of_N (Z.to_N b)) s) EmptyString octets.

Fixpoint decode_go (fuel : nat) (s : string) : option string :=
  match fuel with
  | O => None
  | S fuel' =>
      match s with
      | EmptyString => Some EmptyString
      | String c rest =>
          if Ascii.eqb c "%" then
            match read_escapes 1 s with
            | Some ([b0], r1) =>
                match utf8_length b0 with
                | Some (S k) =>
                    match read_escapes k r1 with
                    | Some (bs, r2) =>
                        match utf8_code_point (b0 :: bs) with
                        | Some _ =>
                            String.append (octets_to_string (b0 :: bs))
                              <$> decode_go fuel' r2
                        | None => None
                        end
                    | None => None
                    end
                | _ => None
                end
            | _ => None
            end
          else String c <$> decode_go fuel' rest
      end
  end.

(** [decodeURIComponent(s)]; [None] when it throws [URIError]. *)
Definition decodeURIComponent (s : string) : option string :=
  decode_go (S (String.length s)) s.

Definition is_unreserved (c : ascii) : bool :=
  is_digit c || is_lower c || is_upper c ||
  match c with
  | "-" | "_" | "." | "!" | "~" | "*" | "'" | "(" | ")" => true
  | _ => false
  end%char.

Definition hex_digit (n : N) : ascii :=
  if (n <? 10)%N then ascii_of_N (48 + n) else ascii_of_N (55 + n).

Fixpoint encodeURIComponent (s : string) : string :=
  match s with
  | EmptyString => EmptyString
  | String c s' =>
      if is_unreserved c then String c (encodeURIComponent s')
      else String "%" (String (hex_digit (code c / 16))
             (String (hex_digit (code c mod 16)) (encodeURIComponent s')))
  end.

(** Every character of [s] satisfies [P]. *)
Fixpoint string_forall (P : ascii → bool) (s : string) : bool :=
  match s with
  | EmptyString => true
  | String c s' => P c && string_forall P s'
  end.

End Js.


(** ** Regular expressions, matched by derivatives

    [test r s] is [/^r$/.test(s)]: the whole string has to match. *)

Module Regex.

Inductive regex : Type :=
| Void
| Eps
| Cls (p : ascii → bool)
| Seq (a b : regex)
| Alt (a b : regex)
| Star (a : regex)
| Rep (a : regex) (lo hi : nat).

(** [a+], [a?] and a literal character *)
Definition Plus (a : regex) : regex := Seq a (Star a).
Definition Opt (a : regex) : regex := Alt Eps a.
Definition Chr (c : ascii) : regex := Cls (Ascii.eqb c).

Fixpoint nullable (r : regex) : bool :=
  match r with
  | Void => false
  | Eps => true
  | Cls _ => false
  | Seq a b => nullable a && nullable b
  | Alt a b => nullable a || nullable b
  | Star _ => true
  | Rep a lo _ => Nat.eqb lo 0 || nullable a
  end.

Fixpoint deriv (c : ascii) (r : regex) : regex :=
  match r with
  | Void => Void
  | Eps => Void
  | Cls p => if p c then Eps else Void
  | Seq a b =>
      if nullable a then Alt (Seq (deriv c a) b) (deriv c b)
      else Seq (deriv c a) b
  | Alt a b => Alt (deriv c a) (deriv c b)
  | Star a => Seq (deriv c a) (Star a)
  | Rep a lo hi =>
      match hi with
      | O => Void
      | S hi' => Seq (deriv c a) (Rep a (Nat.pred lo) hi')
      end
  end.

Fixpoint test (r : regex) (s : string) : bool :=
  match s with
  | EmptyString => nullable r
  | String c s' => test (deriv c r) s'
  end.

(** Every character class of [r] lies inside [P]. *)
Inductive within (P : ascii → bool) : regex → Prop :=
| within_Void : within P Void
| within_Eps : within P Eps
| within_Cls p : (∀ c, p c = true → P c = true) → within P (Cls p)
| within_Seq a b : within P a → within P b → within P (Seq a b)
| within_Alt a b : within P a → within P b → within P (Alt a b)
| within_Star a : within P a → within P (Star a)
| within_Rep a lo hi : within P a → within P (Rep a lo hi).

(** A syntactic sufficient condition for an empty language. *)
Fixpoint dead (r : regex) : bool :=
  match r with
  | Void => true
  | Eps => false
  | Cls _ => false
  | Seq a b => dead a || dead b
  | Alt a b => dead a && dead b
  | Star _ => false
  | Rep a lo _ => negb (Nat.eqb lo 0) && dead a
  end.

End Regex.

(** ** validation.ts *)

Module Validation.
Import Regex.

Record URL : Type := mkURL {
  pathname : string;
  searchParams : list (string * string)
}.

(** [url.searchParams.get(name)]: the first value of that name. *)
Definition searchParams_get (url : URL) (name : string) : option string :=
  snd <$> List.find (λ kv, String.eqb (fst kv) name) (searchParams url).

Record ParsedUrl : Type := mkParsedUrl {
  domain : string;
  path : string;
  sourceUrl : string;
  cacheKey : string;
  forceReprocess : bool;
  viewImage : bool
}.

(** [\d] *)
Definition digit : regex := Cls Js.is_digit.
(** [[a-z0-9]] under the [i] flag *)
Definition alnum_char (c : ascii) : bool :=
  Js.is_lower c || Js.is_upper c || Js.is_digit c.
Definition alnum : regex := Cls alnum_char.
(** [[a-z0-9-]] under the [i] flag *)
Definition alnum_hyphen_char (c : ascii) : bool :=
  alnum_char c || Ascii.eqb c "-".
Definition alnum_hyphen : regex := Cls alnum_hyphen_char.
Definition dot : regex := Chr ".".

(** [/^\d{1,3}\.\d{1,3}\.\d{1,3}\.\d{1,3}$/] *)
Definition ipv4_re : regex :=
  Seq (Rep digit 1 3) (Seq dot
    (Seq (Rep digit 1 3) (Seq dot
      (Seq (Rep digit 1 3) (Seq dot (Rep digit 1 3)))))).

(** [/^(?:[a-z0-9](?:[a-z0-9-]{0,61}[a-z0-9])?\.)+[a-z0-9][a-z0-9-]{0,61}[a-z0-9]$/i] *)
Definition domain_re : regex :=
  Seq
    (Plus (Seq alnum (Seq (Opt (Seq (Rep alnum_hyphen 0 61) alnum)) dot)))
    (Seq alnum (Seq (Rep alnum_hyphen 0 61) alnum)).

(** The characters the three patterns are made of. *)
Definition domain_char (c : ascii) : bool :=
  alnum_hyphen_char c || Ascii.eqb c ".".

Definition isValidDomain (domain : string) : bool :=
  if String.eqb domain "localhost" || test ipv4_re domain then true
  else test domain_re domain.

Definition flag_set (v : option string) : bool :=
  match v with
  | Some s => String.eqb s "true" || String.eqb s "1"
  | None => false
  end.

Definition parseUrl (url : URL) : Result ParsedUrl :=
  match Js.decodeURIComponent (pathname url) with
  | None => Throw "URI malformed"
  | Some decodedPathname =>
      let pathParts := Js.split "/" (Js.strip_leading "/" decodedPathname) in
      if (length pathParts <? 2)%nat then
        Throw "Invalid URL format: /domain.com/path/to/image.jpg"
      else
        let domain := List.hd EmptyString pathParts in
        let path := "/" +:+ Js.join "/" (List.tl pathParts) in
        if negb (isValidDomain domain) then
          Throw ("Invalid domain: " +:+ domain)
        else
          let encodedPath :=
            Js.join "/" (List.map Js.encodeURIComponent (Js.split "/" path)) in
          let sourceUrl := "https://" +:+ domain +:+ encodedPath in
          let cacheKey := domain +:+ path in
          let forceReprocess := flag_set (searchParams_get url "force") in
          let viewImage := flag_set (searchParams_get url "view") in
          Ok (mkParsedUrl domain path sourceUrl cacheKey
                forceReprocess viewImage)
  end.

Section AllowedOrigin.
(** [new URL(s).hostname], [None] when the constructor throws. *)
Variable URL_hostname : string → option string.

Definition origin_matches (hostname origin : string) : bool :=
  if String.eqb origin "*" then true
  else if Js.startsWith origin "*." then
    Js.endsWith hostname (Js.substring_from 2 origin)
  else String.eqb hostname origin.

Definition isAllowedOrigin (sourceUrl allowedOrigins : string) : bool :=
  if String.eqb allowedOrigins "*" then true
  else
    match URL_hostname sourceUrl with
    | None => false
    | Some hostname =>
        let origins :=
          List.map (λ o, Js.toLowerCase (Js.trim o))
                   (Js.split "," allowedOrigins) in
        List.existsb (origin_matches hostname) origins
    end.
End AllowedOrigin.

Definition imageTypes : list string :=
  [ "image/jpeg"; "image/jpg"; "image/png"; "image/gif";
    "image/webp"; "image/avif"; "image/svg+xml";
    "image/bmp"; "image/tiff"; "image/x-icon";
    "image/heic"; "image/heif"; "image/jxl" ].

Definition isImageContentType (contentType : string) : bool :=
  if String.eqb contentType "" then false
  else List.existsb (λ type, Js.includes (Js.toLowerCase contentType) type)
                    imageTypes.

(** The host of an absolute [http:] or [https:] URL

    [scheme://host[:port][/path][?query][#fragment]] with an ASCII host,
    lower-cased as the URL parser does; [None] for any other string. Used
    where a concrete URL parser is needed. *)
Fixpoint take_host (s : string) : string :=
  match s with
  | EmptyString => EmptyString
  | String c s' =>
      if Ascii.eqb c "/" || Ascii.eqb c "?" || Ascii.eqb c "#" || Ascii.eqb c ":"
      then EmptyString else String c (take_host s')
  end.

Definition after_scheme (s : string) : option string :=
  if Js.startsWith (Js.toLowerCase s) "https://" then Some (Js.substring_from 8 s)
  else if Js.startsWith (Js.toLowerCase s) "http://" then Some (Js.substring_from 7 s)
  else None.

Definition simple_hostname (s : string) : option string :=
  match after_scheme s with
  | Some rest =>
      let host := Js.toLowerCase (take_host rest) in
      if String.eqb host "" || Js.includes host "@" then None else Some host
  | None => None
  end.

End Validation.

(** ** HTTP values *)

Module Http.

Definition Bytes : Type := list Byte.byte.

Definition byteLength (b : Bytes) : Z := Z.of_nat (length b).

(** A [Headers] object, in insertion order. *)
Definition Headers : Type := list (string * string).

(** [headers.get(name)]: names are compared without case, several values
    are joined by a comma and a space, an absent name gives [null]. *)
Definition headers_get (h : Headers) (name : string) : option string :=
  match List.filter
          (λ kv, String.eqb (Js.toLowerCase (fst kv)) (Js.toLowerCase name)) h
  with
  | [] => None
  | vs => Some (Js.join ", " (List.map snd vs))
  end.

Inductive Json : Type :=
| JStr (s : string)
| JNum (n : Z)
| JBool (b : bool).

Inductive Body : Type :=
| NoBody
| TextBody (s : string)
| BytesBody (b : Bytes)
| JsonBody (fields : list (string * Json))
| AtobBody (base64 : string).

(** A [Response] the code builds with [new Response(body, init)]. *)
Record Response : Type := mkResponse {
  status : Z;
  headers : Headers;
  body : Body
}.

(** A [Response] received from a server: its body is read later, and
    reading can fail. *)
Record Received : Type := mkReceived {
  r_status : Z;
  r_statusText : string;
  r_headers : Headers;
  r_url : string;
  r_body : Result Bytes
}.

Definition ok (r : Received) : bool :=
  (200 <=? r_status r) && (r_status r <=? 299).

Definition arrayBuffer (r : Received) : Result Bytes := r_body r.

Record Request : Type := mkRequest {
  method : string;
  href : string;
  url : Validation.URL;
  req_headers : Headers
}.

End Http.

(** ** utils.ts: responses *)

Module Utils.
Import Http.

Definition getCORSHeaders : Headers :=
  [ ("Access-Control-Allow-Origin", "*");
    ("Access-Control-Allow-Methods", "GET, HEAD, DELETE, OPTIONS");
    ("Access-Control-Allow-Headers", "Content-Type");
    ("Access-Control-Max-Age", "86400") ].

Definition errorResponse (message : string) (status : Z) : Response :=
  mkResponse status
    (("Content-Type", "application/json") :: getCORSHeaders)
    (JsonBody [("error", JStr message); ("status", JNum status)]).

End Utils.

(** ** origin.ts *)

Module Origin.
Import Http.

Record Env : Type := mkEnv {
  ALLOWED_ORIGINS : option string;
  CDN_DOMAIN : option string;
  DEBUG : option string;
  MAX_FILE_SIZE : option string;
  FETCH_TIMEOUT : option string;
  ORIGIN_USER_AGENT : option string;
  FORWARD_CLIENT_IP : option string
}.

Definition FALLBACK_HEADERS : gmap string string :=
  {[ "User-Agent" := "ImgPro/1.0 (+https://img.pro/cdn)"; "Accept" := "image/*" ]}.

Definition FORWARDED_HEADERS : list string :=
  [ "User-Agent"; "Accept"; "Accept-Language"; "Referer" ].

Definition getForwardedHeaders (clientRequest : option Request)
  : gmap string string :=
  match clientRequest with
  | None => ∅
  | Some req =>
      List.fold_left
        (λ forwarded header,
           match headers_get (req_headers req) header with
           | Some value =>
               if String.eqb value "" then forwarded
               else <[header := value]> forwarded
           | None => forwarded
           end)
        FORWARDED_HEADERS ∅
  end.

Record BlockCheck : Type := mkBlockCheck {
  blocked : bool;
  reason : option string
}.

Inductive ExpectedType : Type := image.

Definition below (contentLength : option string) (limit : Z) : bool :=
  Js.truthy contentLength &&
  match Js.parseInt (default EmptyString contentLength) (Some 10) with
  | Some n => n <? limit
  | None => false
  end.

Definition detectBlockedResponse (response : Received)
    (expectedType : ExpectedType) : BlockCheck :=
  let contentType :=
    Js.toLowerCase
      (Js.or_else (headers_get (r_headers response) "content-type") "") in
  let contentLength := headers_get (r_headers response) "content-length" in
  if (r_status response =? 403) || (r_status response =? 401) then
    mkBlockCheck true (Some ("http_" +:+ pretty (r_status response)))
  else if r_status response =? 429 then
    mkBlockCheck true (Some "rate_limited")
  else
    match expectedType with
    | image =>
        if Js.includes contentType "text/html" then
          if below contentLength 50000 then
            mkBlockCheck true (Some "html_challenge_page")
          else mkBlockCheck true (Some "html_instead_of_image")
        else if Js.startsWith contentType "text/" then
          mkBlockCheck true (Some "text_instead_of_image")
        else if Js.includes contentType "application/json" then
          mkBlockCheck true (Some "json_instead_of_image")
        else if negb (String.eqb contentType "")
                && negb (Js.startsWith contentType "image/") then
          mkBlockCheck true (Some "non_image_content_type")
        else mkBlockCheck false None
    end.

(** What the platform's [fetch] gives for an outbound request. *)
Inductive FetchOutcome : Type :=
| Responded (response : Received)
| Aborted
| Failed (message : string).

Record Validity : Type := mkValidity {
  valid : bool;
  why : string
}.

Section Fetching.
(** [validateUrlForFetch] of validation.ts, whose text is not part of
    the sources at hand, and the platform's [fetch]. *)
Variable validateUrlForFetch : string → Validity.
Variable net_fetch : string → gmap string string → FetchOutcome.

Definition fetchTimeout (env : Env) (timeout : option Z) : option Z :=
  match timeout with
  | Some t => if t =? 0 then
                Js.parseInt (Js.or_else (FETCH_TIMEOUT env) "30000") (Some 10)
              else Some t
  | None => Js.parseInt (Js.or_else (FETCH_TIMEOUT env) "30000") (Some 10)
  end.

Definition show_number (n : option Z) : string :=
  match n with
  | Some z => pretty z
  | None => "NaN"
  end.

Definition outbound_headers (env : Env) (clientRequest : option Request)
  : gmap string string :=
  let headers := getForwardedHeaders clientRequest ∪ FALLBACK_HEADERS in
  let headers :=
    if Js.truthy (ORIGIN_USER_AGENT env)
    then <["User-Agent" := default EmptyString (ORIGIN_USER_AGENT env)]> headers
    else headers in
  match FORWARD_CLIENT_IP env, clientRequest with
  | Some flag, Some req =>
      if String.eqb flag "true" then
        match headers_get (req_headers req) "cf-connecting-ip" with
        | Some clientIp =>
            if String.eqb clientIp "" then headers
            else <["X-Forwarded-For" := clientIp]> headers
        | None => headers
        end
      else headers
  | _, _ => headers
  end.

Definition fetchFromOrigin (url : string) (env : Env)
    (clientRequest : option Request) (timeout : option Z)
    (validateRedirect : option (string → bool)) : Result Received :=
  let urlValidation := validateUrlForFetch url in
  if negb (valid urlValidation) then
    Throw ("Invalid URL: " +:+ why urlValidation)
  else
    match net_fetch url (outbound_headers env clientRequest) with
    | Aborted =>
        Throw ("Request timeout after "
               +:+ show_number (fetchTimeout env timeout) +:+ "ms")
    | Failed m => Throw m
    | Responded response =>
        let finalUrl := r_url response in
        if negb (String.eqb finalUrl "") && negb (String.eqb finalUrl url) then
          let validation := validateUrlForFetch finalUrl in
          if negb (valid validation) then
            Throw ("Redirect to invalid URL blocked: " +:+ why validation)
          else
            match validateRedirect with
            | Some check =>
                if check finalUrl then Ok response
                else Throw ("Redirect to non-allowed origin blocked: "
                            +:+ finalUrl)
            | None => Ok response
            end
        else Ok response
    end.

Record FetchResult : Type := mkFetchResult {
  response : Received;
  fr_blocked : bool;
  blockReason : option string
}.

Definition fetchImageFromOrigin (url : string) (env : Env)
    (clientRequest : option Request) (timeout : option Z)
    (validateRedirect : option (string → bool)) : Result FetchResult :=
  response ← fetchFromOrigin url env clientRequest timeout validateRedirect;
  let blockCheck := detectBlockedResponse response image in
  Ok (mkFetchResult response (blocked blockCheck) (reason blockCheck)).
End Fetching.

Definition too_large (size maxSize : Z) : string :=
  "File too large: " +:+ pretty size +:+ " bytes (max "
    +:+ pretty maxSize +:+ " bytes)".

(** [fetchImageData]: the header is read with [parseInt(contentLength, 10)]
    and an unreadable one is skipped by the [isNaN] test. *)
Definition fetchImageData (response : Received) (maxSize : Z) : Result Bytes :=
  let contentLength := headers_get (r_headers response) "content-length" in
  _ ← (if Js.truthy contentLength then
         match Js.parseInt (default EmptyString contentLength) (Some 10) with
         | Some size =>
             if size >? maxSize then Throw (too_large size maxSize) else Ok tt
         | None => Ok tt
         end
       else Ok tt);
  imageData ← arrayBuffer response;
  if byteLength imageData >? maxSize
  then Throw (too_large (byteLength imageData) maxSize)
  else Ok imageData.

(** The earlier [fetchImageData]: [parseInt(contentLength)] without a
    radix and no [isNaN] test; [NaN > maxSize] is false. *)
Definition fetchImageData_1_0_3 (response : Received) (maxSize : Z)
  : Result Bytes :=
  let contentLength := headers_get (r_headers response) "content-length" in
  _ ← (if Js.truthy contentLength then
         match Js.parseInt (default EmptyString contentLength) None with
         | Some size =>
             if size >? maxSize then Throw (too_large size maxSize) else Ok tt
         | None => Ok tt
         end
       else Ok tt);
  imageData ← arrayBuffer response;
  if byteLength imageData >? maxSize
  then Throw (too_large (byteLength imageData) maxSize)
  else Ok imageData.

End Origin.

(** ** cache.ts: the R2 bucket *)

Module Cache.
Import Http.

Record HttpMetadata : Type := mkHttpMetadata {
  contentType : option string;
  cacheControl : option string
}.

Record R2Object : Type := mkR2Object {
  o_body : Bytes;
  etag : string;
  uploaded : string;
  httpMetadata : option HttpMetadata;
  customMetadata : option (gmap string string)
}.

Definition size (o : R2Object) : Z := byteLength (o_body o).

(** What the bucket adds to an object it stores: its entity tag, and the
    time of the upload as [toUTCString] and [toISOString] print it. *)
Record Stamp : Type := mkStamp {
  etag_of : Bytes → string;
  now_utc : string;
  now_iso : string
}.

Definition immutable : string := "public, max-age=31536000, immutable".

Definition storeInCache (stamp : Stamp) (r2 : gmap string R2Object)
    (cacheKey : string) (imageData : Bytes)
    (contentType sourceUrl domain : string) : gmap string R2Object :=
  let cachedAt := now_iso stamp in
  <[cacheKey :=
      mkR2Object imageData (etag_of stamp imageData) (now_utc stamp)
        (Some (mkHttpMetadata (Some contentType) (Some immutable)))
        (Some {[ "sourceUrl" := sourceUrl; "domain" := domain;
                 "cachedAt" := cachedAt ]})]> r2.

Definition getFromCache (r2 : gmap string R2Object) (cacheKey : string)
  : option R2Object := r2 !! cacheKey.

Definition getCacheHead (r2 : gmap string R2Object) (cacheKey : string)
  : option R2Object := r2 !! cacheKey.

Definition deleteFromCache (r2 : gmap string R2Object) (cacheKey : string)
  : gmap string R2Object := delete cacheKey r2.

(** [cached.httpMetadata?.contentType || 'image/jpeg'] *)
Definition stored_contentType (o : R2Object) : string :=
  Js.or_else (httpMetadata o ≫= contentType) "image/jpeg".

(** [cached.customMetadata?.cachedAt], [undefined] as [None] *)
Definition stored_cachedAt (o : R2Object) : option string :=
  customMetadata o ≫= (λ m, m !! "cachedAt").

Definition handleHeadRequest (r2 : gmap string R2Object) (cacheKey : string)
  : Response :=
  match getCacheHead r2 cacheKey with
  | Some cached =>
      mkResponse 200
        ([ ("Content-Type", stored_contentType cached);
           ("Content-Length", pretty (size cached));
           ("ETag", etag cached);
           ("Last-Modified", uploaded cached);
           ("Cache-Control", immutable);
           ("X-ImgPro-Status", "cached");
           ("X-ImgPro-Cached-At", Js.or_else (stored_cachedAt cached) "") ]
         ++ Utils.getCORSHeaders)
        NoBody
  | None => mkResponse 404 Utils.getCORSHeaders NoBody
  end.

Definition handleConditionalRequest (request : Request) (etag : string)
  : option Response :=
  let ifNoneMatch := headers_get (req_headers request) "If-None-Match" in
  if Js.truthy ifNoneMatch && String.eqb (default EmptyString ifNoneMatch) etag
  then Some (mkResponse 304
               ([ ("ETag", etag); ("Cache-Control", immutable) ]
                ++ Utils.getCORSHeaders)
               NoBody)
  else None.

End Cache.

(** ** index.ts: the request handler *)

Module Worker.
Import Http Validation Origin Cache.

(** The two texts of the handler at hand. *)
Inductive Version : Type := V1_1_0 | V1_0_4.

Definition version_string (v : Version) : string :=
  match v with
  | V1_1_0 => "1.1.0"
  | V1_0_4 => "1.0.4"
  end.

(** The options [createHtmlViewer] is called with (the debug log and the
    elapsed time are left out). *)
Record HtmlViewerOptions : Type := mkViewer {
  imageData : Bytes;
  v_contentType : string;
  v_status : string;
  imageSize : Z;
  v_sourceUrl : string;
  cdnUrl : string;
  v_cacheKey : string;
  cachedAt : option string
}.

(** What the handler answers: a response it builds itself, or the one
    [createStatsResponse] or [createHtmlViewer] builds (analytics.ts and
    viewer.ts are not part of the sources at hand). *)
Inductive Answer : Type :=
| Built (r : Response)
| StatsResponse (env : Env)
| HtmlViewer (opts : HtmlViewerOptions).

Definition answer_status (a : Answer) : option Z :=
  match a with
  | Built r => Some (status r)
  | _ => None
  end.

Definition transparent_gif : string :=
  "R0lGODlhAQABAIAAAAAAAP///yH5BAEAAAAALAAAAAABAAEAAAIBRAA7".

Definition encode_segments (s : string) : string :=
  Js.join "/" (List.map Js.encodeURIComponent (Js.split "/" s)).

(** [request.url.split('?')[0]] *)
Definition without_query (href : string) : string :=
  List.hd EmptyString (Js.split "?" href).

Section Handler.
Variable URL_hostname : string → option string.
Variable validateUrlForFetch : string → Validity.
Variable net_fetch : string → gmap string string → FetchOutcome.
(** [parseFileSize] of utils.ts computes in floating point; its result
    is taken as given. *)
Variable parseFileSize : string → Result Z.
Variable stamp : Stamp.

Definition serve_hit (v : Version) (request : Request) (env : Env)
    (parsed : ParsedUrl) (cached : R2Object) : Answer :=
  match handleConditionalRequest request (etag cached) with
  | Some conditionalResponse => Built conditionalResponse
  | None =>
      match v with
      | V1_1_0 =>
          let imageContentType := stored_contentType cached in
          if viewImage parsed then
            HtmlViewer
              (mkViewer (o_body cached) imageContentType "cached"
                 (byteLength (o_body cached)) (sourceUrl parsed)
                 (without_query (href request)) (cacheKey parsed)
                 (stored_cachedAt cached))
          else
            Built (mkResponse 200
              ([ ("Content-Type", imageContentType);
                 ("Content-Length", pretty (size cached));
                 ("Cache-Control", immutable);
                 ("ETag", etag cached);
                 ("Last-Modified", uploaded cached);
                 ("X-ImgPro-Status", "hit");
                 ("X-ImgPro-Cached-At",
                  Js.or_else (stored_cachedAt cached) "") ]
               ++ Utils.getCORSHeaders)
              (BytesBody (o_body cached)))
      | V1_0_4 =>
          let cdnDomain := Js.or_else (CDN_DOMAIN env) "cdn.yourdomain.com" in
          let encodedKey := encode_segments (cacheKey parsed) in
          if viewImage parsed then
            HtmlViewer
              (mkViewer (o_body cached) (stored_contentType cached) "cached"
                 (byteLength (o_body cached)) (sourceUrl parsed)
                 ("https://" +:+ cdnDomain +:+ "/" +:+ encodedKey)
                 (cacheKey parsed) (stored_cachedAt cached))
          else
            Built (mkResponse 200
              ([ ("Content-Type", "image/gif");
                 ("Cache-Control", "no-cache");
                 ("Content-Length", "43");
                 ("ETag", etag cached);
                 ("X-ImgPro-Status", "cached") ]
               ++ Utils.getCORSHeaders)
              (AtobBody transparent_gif))
      end
  end.

Definition serve_fetched (v : Version) (request : Request) (env : Env)
    (parsed : ParsedUrl) (contentType : string) (data : Bytes) : Answer :=
  let cdnUrl :=
    match v with
    | V1_1_0 => without_query (href request)
    | V1_0_4 =>
        "https://" +:+ Js.or_else (CDN_DOMAIN env) "cdn.yourdomain.com"
          +:+ "/" +:+ encode_segments (cacheKey parsed)
    end in
  if viewImage parsed then
    HtmlViewer
      (mkViewer data contentType "fetched" (byteLength data)
         (sourceUrl parsed) cdnUrl (cacheKey parsed) (Some (now_iso stamp)))
  else
    match v with
    | V1_1_0 =>
        Built (mkResponse 200
          ([ ("Content-Type", contentType);
             ("Content-Length", pretty (byteLength data));
             ("Cache-Control", immutable);
             ("X-ImgPro-Status", "miss") ]
           ++ Utils.getCORSHeaders)
          (BytesBody data))
    | V1_0_4 =>
        Built (mkResponse 200
          ([ ("Content-Type", "image/gif");
             ("Cache-Control", "no-cache");
             ("Content-Length", "43");
             ("X-ImgPro-Status", "fetched");
             ("X-ImgPro-Size", pretty (byteLength data)) ]
           ++ Utils.getCORSHeaders)
          (AtobBody transparent_gif))
    end.

(** Cache miss or forced reprocess: fetch, validate, store, answer. *)
Definition from_origin (v : Version) (request : Request) (env : Env)
    (r2 : gmap string R2Object) (parsed : ParsedUrl)
  : Result (Answer * gmap string R2Object) :=
  response ← fetchFromOrigin validateUrlForFetch net_fetch
               (sourceUrl parsed) env None None None;
  if negb (ok response) then
    if r_status response =? 404 then
      Ok (Built (Utils.errorResponse
                   ("Image not found: " +:+ sourceUrl parsed) 404), r2)
    else
      Ok (Built (Utils.errorResponse
                   ("Origin error " +:+ pretty (r_status response)
                    +:+ ": " +:+ r_statusText response) 503), r2)
  else
    let contentType :=
      Js.or_else (headers_get (r_headers response) "Content-Type") "" in
    if negb (isImageContentType contentType) then
      Ok (Built (Utils.errorResponse ("Not an image: " +:+ contentType) 415),
          r2)
    else
      maxSize ← parseFileSize (Js.or_else (MAX_FILE_SIZE env) "50MB");
      match fetchImageData response maxSize with
      | Throw message => Ok (Built (Utils.errorResponse message 413), r2)
      | Ok data =>
          let r2' :=
            storeInCache stamp r2 (cacheKey parsed) data contentType
              (sourceUrl parsed) (domain parsed) in
          Ok (serve_fetched v request env parsed contentType data, r2')
      end.

(** The body of the [try] block. *)
Definition handle (v : Version) (request : Request) (env : Env)
    (r2 : gmap string R2Object) : Result (Answer * gmap string R2Object) :=
  parsed ← parseUrl (url request);
  if String.eqb (method request) "DELETE" then
    match getFromCache r2 (cacheKey parsed) with
    | None =>
        Ok (Built (Utils.errorResponse "Image not found in cache" 404), r2)
    | Some _ =>
        Ok (Built (mkResponse 200
              (("Content-Type", "application/json") :: Utils.getCORSHeaders)
              (JsonBody [ ("success", JBool true);
                          ("message", JStr "Image deleted from cache");
                          ("cacheKey", JStr (cacheKey parsed)) ])),
            deleteFromCache r2 (cacheKey parsed))
    end
  else if String.eqb (method request) "HEAD" then
    Ok (Built (handleHeadRequest r2 (cacheKey parsed)), r2)
  else if negb (String.eqb (method request) "GET") then
    Ok (Built (Utils.errorResponse "Method not allowed" 405), r2)
  else
    let allowedOrigins := Js.or_else (ALLOWED_ORIGINS env) "*" in
    if negb (isAllowedOrigin URL_hostname (sourceUrl parsed) allowedOrigins)
    then Ok (Built (Utils.errorResponse "Origin not allowed" 403), r2)
    else
      match
        (if forceReprocess parsed then None
         else getFromCache r2 (cacheKey parsed))
      with
      | Some cached => Ok (serve_hit v request env parsed cached, r2)
      | None => from_origin v request env r2 parsed
      end.

Definition fetch (v : Version) (request : Request) (env : Env)
    (r2 : gmap string R2Object) : Answer * gmap string R2Object :=
  if String.eqb (method request) "OPTIONS" then
    (Built (mkResponse 204 Utils.getCORSHeaders NoBody), r2)
  else if String.eqb (pathname (url request)) "/health"
          || String.eqb (pathname (url request)) "/ping" then
    (Built (mkResponse 200
              (("Content-Type", "application/json") :: Utils.getCORSHeaders)
              (JsonBody [ ("status", JStr "healthy");
                          ("version", JStr (version_string v));
                          ("timestamp", JStr (now_iso stamp)) ])),
     r2)
  else if String.eqb (pathname (url request)) "/stats" then
    (StatsResponse env, r2)
  else
    match handle v request env r2 with
    | Ok answer => answer
    | Throw message => (Built (Utils.errorResponse message 500), r2)
    end.
End Handler.

End Worker.

(** ** The per-site usage tracker (a Durable Object) *)

Module SiteUsageTracker.

Record UsageMetrics : Type := mkMetrics {
  m_siteId : Z;
  m_domain : string;
  cacheHit : bool
}.

Module STORAGE_KEYS.
Definition SITE_ID : string := "siteId".
Definition DOMAIN : string := "domain".
Definition REQUESTS : string := "requests".
Definition CACHE_HITS : string := "cacheHits".
Definition CACHE_MISSES : string := "cacheMisses".
Definition D1_FAILURES : string := "d1Failures".
End STORAGE_KEYS.
Import STORAGE_KEYS.

Definition D1_FAILURE_ALERT_THRESHOLD : Z := 5.

(** A value of [state.storage]. *)
Inductive Value : Type :=
| Num (n : Z)
| Str (s : string).

(** The fields of the object in memory. *)
Record Memory : Type := mkMemory {
  siteId : Z;
  domain : string;
  requests : Z;
  cacheHits : Z;
  cacheMisses : Z;
  d1Failures : Z;
  initialized : bool
}.

(** One batch accepted by the billing database: the amounts bound to the
    two statements. *)
Record Batch : Type := mkBatch {
  b_siteId : Z;
  b_requests : Z;
  b_cacheHits : Z;
  b_cacheMisses : Z;
  b_now : Z;
  b_hourStart : Z
}.

(** What the handlers print with [console.log] and [console.error]. *)
Inductive LogLine : Type :=
| FetchError
| Misconfigured
| IdleRescheduleFailed
| Flushed (domain : string) (requests cacheHits cacheMisses : Z)
| StorageFailedAfterD1 (domain : string) (flushed : Z)
| D1WriteFailed (domain : string) (consecutiveFailures accumulated : Z)
| Alert (failures siteId : Z) (domain : string) (accumulated : Z)
| StorageFailedTrackingFailure (domain : string)
| RescheduleFailed (domain : string).

(** The object with what it owns: memory, key-value storage, the pending
    alarm; and what it has sent out: billing batches and console lines,
    oldest first. *)
Record DO : Type := mkDO {
  mem : Memory;
  storage : gmap string Value;
  pendingAlarm : option Z;
  billed : list Batch;
  console : list LogLine
}.

Definition with_mem (f : Memory → Memory) (st : DO) : DO :=
  mkDO (f (mem st)) (storage st) (pendingAlarm st) (billed st) (console st).
Definition with_storage (s : gmap string Value) (st : DO) : DO :=
  mkDO (mem st) s (pendingAlarm st) (billed st) (console st).
Definition with_alarm (a : option Z) (st : DO) : DO :=
  mkDO (mem st) (storage st) a (billed st) (console st).
Definition bill (b : Batch) (st : DO) : DO :=
  mkDO (mem st) (storage st) (pendingAlarm st) (billed st ++ [b]) (console st).
Definition log (l : LogLine) (st : DO) : DO :=
  mkDO (mem st) (storage st) (pendingAlarm st) (billed st) (console st ++ [l]).

Definition set_counters (r h m : Z) (x : Memory) : Memory :=
  mkMemory (siteId x) (domain x) r h m (d1Failures x) (initialized x).
Definition set_d1Failures (f : Z) (x : Memory) : Memory :=
  mkMemory (siteId x) (domain x) (requests x) (cacheHits x) (cacheMisses x)
    f (initialized x).
Definition set_identity (id : Z) (d : string) (x : Memory) : Memory :=
  mkMemory id d (requests x) (cacheHits x) (cacheMisses x) (d1Failures x) true.
Definition set_initialized (x : Memory) : Memory :=
  mkMemory (siteId x) (domain x) (requests x) (cacheHits x) (cacheMisses x)
    (d1Failures x) true.
Definition set_requests (r : Z) (x : Memory) : Memory :=
  mkMemory (siteId x) (domain x) r (cacheHits x) (cacheMisses x)
    (d1Failures x) (initialized x).

(** [(stored.get(key) as number) || 0] and [... as string) || ''] *)
Definition number_or_0 (v : option Value) : Z :=
  match v with
  | Some (Num n) => n
  | _ => 0
  end.
Definition string_or_empty (v : option Value) : string :=
  match v with
  | Some (Str s) => s
  | _ => EmptyString
  end.

Definition loadFromStorage (s : gmap string Value) : Memory :=
  let siteId := number_or_0 (s !! SITE_ID) in
  let domain := string_or_empty (s !! DOMAIN) in
  mkMemory siteId domain
    (number_or_0 (s !! REQUESTS))
    (number_or_0 (s !! CACHE_HITS))
    (number_or_0 (s !! CACHE_MISSES))
    (number_or_0 (s !! D1_FAILURES))
    (negb (siteId =? 0) || negb (String.eqb domain "")).

(** The truth value of what [getAlarm()] returns: [null] and the time 0
    are falsy. *)
Definition alarm_truthy (existingAlarm : option Z) : bool :=
  match existingAlarm with
  | Some t => negb (t =? 0)
  | None => false
  end.

(** The constructor, run when the object is created or brought back
    after eviction: memory is reloaded, and an alarm is set only if
    [!existingAlarm] and the billing database is bound. *)
Definition construct (billing : bool) (clock : Z) (st : DO) : DO :=
  let st := with_mem (λ _, loadFromStorage (storage st)) st in
  let existingAlarm := pendingAlarm st in
  if negb (alarm_truthy existingAlarm) && billing
  then with_alarm (Some (clock + 60000)) st
  else st.

(** What [request.json()] makes of the body of a record-event: it throws
    on a body that is no JSON text; it returns [null] for the text [null],
    and reading a property of [null] throws [TypeError]. Reading a property
    of any other value does not throw: such a body is an object with a
    number, a string and a truth value as the interface [UsageMetrics]
    declares them. *)
Inductive Body : Type :=
| Unparsable
| Null
| Object (metrics : UsageMetrics).

(** One record-event request: its body and whether [state.storage.put] is
    accepted. *)
Record Event : Type := mkEvent {
  payload : Body;
  e_put_ok : bool
}.

Definition fetch (ev : Event) (st : DO) : DO * Z :=
  match payload ev with
  | Unparsable => (log FetchError st, 500)
  | Null =>
      if negb (initialized (mem st)) then
        (* this.initialized = true; then metrics.siteId throws *)
        (log FetchError (with_mem set_initialized st), 500)
      else
        (* this.requests += 1; then metrics.cacheHit throws *)
        (log FetchError
           (with_mem (λ x, set_requests (requests x + 1) x) st), 500)
  | Object metrics =>
      let updates : gmap string Value := ∅ in
      let '(st, updates) :=
        if negb (initialized (mem st)) then
          (with_mem (set_identity (m_siteId metrics) (m_domain metrics)) st,
           <[DOMAIN := Str (m_domain metrics)]>
             (<[SITE_ID := Num (m_siteId metrics)]> updates))
        else (st, updates) in
      let st :=
        with_mem (λ x, set_counters (requests x + 1)
                         (if cacheHit metrics then cacheHits x + 1
                          else cacheHits x)
                         (if cacheHit metrics then cacheMisses x
                          else cacheMisses x + 1) x) st in
      let updates :=
        <[CACHE_MISSES := Num (cacheMisses (mem st))]>
          (<[CACHE_HITS := Num (cacheHits (mem st))]>
             (<[REQUESTS := Num (requests (mem st))]> updates)) in
      if e_put_ok ev then (with_storage (updates ∪ storage st) st, 200)
      else (log FetchError st, 500)
  end.

(** The record-events handled while a call is awaited, in order. *)
Definition handle_events (evs : list Event) (st : DO) : DO :=
  List.fold_left (λ st ev, fst (fetch ev st)) evs st.

(** What the platform decides during one run of [alarm]: the three
    readings of the clock, the record-events that arrive while the
    billing batch is awaited, and the outcome of each call. *)
Record Run : Type := mkRun {
  now_ms : Z;
  hour_ms : Z;
  reschedule_ms : Z;
  during_write : list Event;
  d1_ok : bool;
  put_ok : bool;
  setAlarm_ok : bool;
  deleteAll_ok : bool;
  deleteAlarm_ok : bool
}.

(** [await this.state.storage.setAlarm(Date.now() + 60000)] inside its
    own [try]. *)
Definition reschedule (run : Run) (on_failure : LogLine) (st : DO) : DO :=
  if setAlarm_ok run then with_alarm (Some (reschedule_ms run + 60000)) st
  else log on_failure st.

Definition alarm (billing : bool) (run : Run) (st : DO) : DO * Result unit :=
  if negb billing then
    let st := log Misconfigured st in
    let st := with_mem (set_counters 0 0 0) st in
    if deleteAll_ok run then
      let st := with_storage ∅ st in
      if deleteAlarm_ok run then (with_alarm None st, Ok tt)
      else (st, Throw "deleteAlarm failed")
    else (st, Throw "deleteAll failed")
  else
    let now := now_ms run / 1000 in
    if requests (mem st) =? 0 then
      (reschedule run IdleRescheduleFailed st, Ok tt)
    else
      let hourStart := hour_ms run / 3600000 * 3600 in
      let flushRequests := requests (mem st) in
      let flushCacheHits := cacheHits (mem st) in
      let flushCacheMisses := cacheMisses (mem st) in
      let flushSiteId := siteId (mem st) in
      let flushDomain := domain (mem st) in
      (* await this.env.BILLING_DB.batch(batch) *)
      let st := handle_events (during_write run) st in
      let st :=
        if d1_ok run then
          let st :=
            bill (mkBatch flushSiteId flushRequests flushCacheHits
                    flushCacheMisses now hourStart) st in
          let st :=
            log (Flushed flushDomain flushRequests flushCacheHits
                   flushCacheMisses) st in
          let st :=
            with_mem (λ x, set_counters (requests x - flushRequests)
                             (cacheHits x - flushCacheHits)
                             (cacheMisses x - flushCacheMisses) x) st in
          let st := with_mem (set_d1Failures 0) st in
          if put_ok run then
            with_storage
              (<[D1_FAILURES := Num 0]>
                 (<[CACHE_MISSES := Num (cacheMisses (mem st))]>
                    (<[CACHE_HITS := Num (cacheHits (mem st))]>
                       (<[REQUESTS := Num (requests (mem st))]>
                          (storage st))))) st
          else log (StorageFailedAfterD1 flushDomain flushRequests) st
        else
          let st := with_mem (λ x, set_d1Failures (d1Failures x + 1) x) st in
          if put_ok run then
            let st :=
              with_storage
                (<[D1_FAILURES := Num (d1Failures (mem st))]> (storage st))
                st in
            let st :=
              log (D1WriteFailed flushDomain (d1Failures (mem st))
                     (requests (mem st))) st in
            if d1Failures (mem st) >=? D1_FAILURE_ALERT_THRESHOLD then
              log (Alert (d1Failures (mem st)) flushSiteId flushDomain
                     (requests (mem st))) st
            else st
          else log (StorageFailedTrackingFailure flushDomain) st in
      (reschedule run (RescheduleFailed flushDomain) st, Ok tt).

(** The counters, in memory and as stored. *)
Definition counters_ok (x : Memory) : Prop :=
  0 ≤ requests x ∧ 0 ≤ cacheHits x ∧ 0 ≤ cacheMisses x ∧ 0 ≤ d1Failures x
  ∧ requests x = cacheHits x + cacheMisses x.

Definition invariant (st : DO) : Prop :=
  counters_ok (mem st) ∧ counters_ok (loadFromStorage (storage st)).

(** A freshly created object: nothing stored, nothing in memory. *)
Definition fresh : DO :=
  mkDO (mkMemory 0 EmptyString 0 0 0 0 false) ∅ None [] [].

(** One step of the life of an object. *)
Inductive Op : Type :=
| OpConstruct (clock : Z)
| OpFetch (ev : Event)
| OpAlarm (run : Run).

Definition step (billing : bool) (op : Op) (st : DO) : DO :=
  match op with
  | OpConstruct clock => construct billing clock st
  | OpFetch ev => fst (fetch ev st)
  | OpAlarm run => fst (alarm billing run st)
  end.

(** What a record-event adds to the hits and to the misses, and what a
    list of them adds. *)
Definition hit_of (ev : Event) : Z :=
  match payload ev with
  | Object m => if cacheHit m then 1 else 0
  | _ => 0
  end.
Definition miss_of (ev : Event) : Z :=
  match payload ev with
  | Object m => if cacheHit m then 0 else 1
  | _ => 0
  end.

(** What a record-event adds to [requests] in an object that is
    initialized or not: one for an object body, and one for a [null] body
    that finds the object initialized, since the counter is incremented
    before [metrics.cacheHit] is read. *)
Definition request_of (init : bool) (ev : Event) : Z :=
  match payload ev with
  | Unparsable => 0
  | Null => if init then 1 else 0
  | Object _ => 1
  end.

(** Whether the object is initialized once the event is handled. *)
Definition initialized_after (init : bool) (ev : Event) : bool :=
  match payload ev with
  | Unparsable => init
  | _ => true
  end.
Definition hits_counted (evs : list Event) : Z :=
  List.fold_right (λ ev n, hit_of ev + n) 0 evs.
Definition misses_counted (evs : list Event) : Z :=
  List.fold_right (λ ev n, miss_of ev + n) 0 evs.

(** What a list of record-events adds to [requests]. *)
Fixpoint events_counted (init : bool) (evs : list Event) : Z :=
  match evs with
  | [] => 0
  | ev :: evs =>
      request_of init ev + events_counted (initialized_after init ev) evs
  end.

(** The lines a run of [alarm] prints after a failed billing write. *)
Definition failure_lines (run : Run) (before live : DO) : list LogLine :=
  let failures := d1Failures (mem before) + 1 in
  if put_ok run then
    D1WriteFailed (domain (mem before)) failures (requests (mem live))
    :: (if failures >=? D1_FAILURE_ALERT_THRESHOLD
        then [Alert failures (siteId (mem before)) (domain (mem before))
                (requests (mem live))]
        else [])
  else [StorageFailedTrackingFailure (domain (mem before))].

End SiteUsageTracker.

(** ** The properties, as the specification words them *)

Module Spec.
Import Http Origin.

(** A well-formed pair: a domain the validator accepts, and a path that
    starts with a slash and holds no percent escape. *)
Definition well_formed (domain path : string) : Prop :=
  Validation.isValidDomain domain = true
  ∧ Js.startsWith path "/" = true
  ∧ Js.includes path "%" = false.

(** The [Content-Length] header, when present and readable as a number
    in the radix, is at most [maxSize]. *)
Definition header_admits (radix : option Z) (response : Received)
    (maxSize : Z) : Prop :=
  ∀ text size,
    headers_get (r_headers response) "content-length" = Some text →
    Js.parseInt text radix = Some size →
    size ≤ maxSize.

Definition content_type (response : Received) : string :=
  Js.toLowerCase
    (Js.or_else (headers_get (r_headers response) "content-type") "").

(** The [Content-Length] header is present and reads as a number below
    the limit. *)
Definition length_below (response : Received) (limit : Z) : Prop :=
  ∃ text n,
    headers_get (r_headers response) "content-length" = Some text
    ∧ Js.parseInt text (Some 10) = Some n ∧ n < limit.

Definition is_html (response : Received) : Prop :=
  Js.includes (content_type response) "text/html" = true.
Definition is_text (response : Received) : Prop :=
  Js.startsWith (content_type response) "text/" = true.
Definition is_json (response : Received) : Prop :=
  Js.includes (content_type response) "application/json" = true.
Definition is_image (response : Received) : Prop :=
  Js.startsWith (content_type response) "image/" = true.
Definition has_content_type (response : Received) : Prop :=
  content_type response ≠ "".
Definition plain_status (response : Received) : Prop :=
  r_status response ≠ 401 ∧ r_status response ≠ 403
  ∧ r_status response ≠ 429.

Definition block (why : string) : BlockCheck := mkBlockCheck true (Some why).

(** A request that reaches the parser: not a preflight, and not one of
    the paths answered before parsing. *)
Definition reaches_parser (request : Request) : Prop :=
  method request ≠ "OPTIONS"
  ∧ Validation.pathname (url request) ≠ "/health"
  ∧ Validation.pathname (url request) ≠ "/ping"
  ∧ Validation.pathname (url request) ≠ "/stats".

Definition client_error (status : Z) : Prop := 400 ≤ status ≤ 499.

(** The decision tree of the block and challenge classifier. *)
Inductive Classified (r : Received) : BlockCheck → Prop :=
| by_401 : r_status r = 401 → Classified r (block "http_401")
| by_403 : r_status r = 403 → Classified r (block "http_403")
| by_429 : r_status r = 429 → Classified r (block "rate_limited")
| by_challenge :
    plain_status r → is_html r → length_below r 50000 →
    Classified r (block "html_challenge_page")
| by_html :
    plain_status r → is_html r → ¬ length_below r 50000 →
    Classified r (block "html_instead_of_image")
| by_text :
    plain_status r → ¬ is_html r → is_text r →
    Classified r (block "text_instead_of_image")
| by_json :
    plain_status r → ¬ is_html r → ¬ is_text r → is_json r →
    Classified r (block "json_instead_of_image")
| by_other_type :
    plain_status r → ¬ is_html r → ¬ is_text r → ¬ is_json r →
    has_content_type r → ¬ is_image r →
    Classified r (block "non_image_content_type")
| by_nothing :
    plain_status r → ¬ is_html r → ¬ is_text r → ¬ is_json r →
    (¬ has_content_type r ∨ is_image r) →
    Classified r (mkBlockCheck false None).

End Spec.

(** ** Concrete surroundings, for the examples *)

Module Demo.
Import Http Validation Origin Cache.

Definition validate_any (u : string) : Validity := mkValidity true "".
Definition offline (u : string) (h : gmap string string) : FetchOutcome :=
  Failed "network unreachable".
Definition fifty_megabytes (s : string) : Result Z := Ok 52428800.
Definition stamp : Stamp :=
  mkStamp (λ _, "etag-1") "Mon, 02 Nov 2026 10:00:00 GMT"
          "2026-11-02T10:00:00.000Z".

Definition env (allowed : option string) : Env :=
  mkEnv allowed None None None None None None.

Definition get (path : string) (headers : Headers) : Request :=
  mkRequest "GET" ("https://cdn.example.net" +:+ path) (mkURL path []) headers.

Definition photo : R2Object :=
  mkR2Object [Byte.x47; Byte.x49; Byte.x46] "etag-1"
    "Mon, 02 Nov 2026 09:00:00 GMT"
    (Some (mkHttpMetadata (Some "image/gif") (Some immutable)))
    (Some {[ "cachedAt" := "2026-11-02T09:00:00.000Z" ]}).

Definition bucket : gmap string R2Object := {[ "example.com/a.jpg" := photo ]}.

Definition worker (v : Worker.Version) (request : Request) (env : Env)
    (r2 : gmap string R2Object) : Worker.Answer * gmap string R2Object :=
  Worker.fetch simple_hostname validate_any offline fifty_megabytes stamp
    v request env r2.

Definition received (status : Z) (headers : Headers) (body : Bytes) : Received :=
  mkReceived status "" headers "" (Ok body).

(** A tracker with three requests counted and stored, four failed flushes
    behind it, and one more miss arriving while the batch is awaited. *)
Definition counting : SiteUsageTracker.DO :=
  SiteUsageTracker.mkDO
    (SiteUsageTracker.mkMemory 7 "example.com" 3 2 1 4 true)
    {[ "siteId" := SiteUsageTracker.Num 7;
       "domain" := SiteUsageTracker.Str "example.com";
       "requests" := SiteUsageTracker.Num 3;
       "cacheHits" := SiteUsageTracker.Num 2;
       "cacheMisses" := SiteUsageTracker.Num 1;
       "d1Failures" := SiteUsageTracker.Num 4 ]}
    (Some 60000) [] [].

Definition late_miss : SiteUsageTracker.Event :=
  SiteUsageTracker.mkEvent
    (SiteUsageTracker.Object (SiteUsageTracker.mkMetrics 7 "example.com" false))
    true.

Definition run (d1_ok : bool) : SiteUsageTracker.Run :=
  SiteUsageTracker.mkRun 60000 60000 60250 [late_miss] d1_ok true true true true.

(** A run in which the billing write fails and the put is refused. *)
Definition double_failure : SiteUsageTracker.Run :=
  SiteUsageTracker.mkRun 60000 60000 60250 [] false false true true true.

End Demo.

(** ** Further vocabulary for the properties *)

Module Policy.
Import Http Origin.

(** [BLOCKED_HEADERS] of origin.ts. *)
Definition BLOCKED_HEADERS : gset string :=
  {[ "authorization"; "cookie"; "proxy-authorization"; "x-api-key";
     "x-auth-token"; "host"; "connection"; "upgrade"; "te";
     "transfer-encoding" ]}.

(** The names an outbound request can carry. *)
Definition OUTBOUND_NAMES : gset string :=
  {[ "User-Agent"; "Accept"; "Accept-Language"; "Referer"; "X-Forwarded-For" ]}.

(** The characters of a source URL: unreserved ones, and the percent sign,
    the slash and the colon. *)
Definition url_char (c : ascii) : bool :=
  Js.is_unreserved c || Ascii.eqb c "%" || Ascii.eqb c "/" || Ascii.eqb c ":".

(** The entries of an allow-list, as [isAllowedOrigin] reads them. *)
Definition entries (allowedOrigins : string) : list string :=
  List.map (λ o, Js.toLowerCase (Js.trim o)) (Js.split "," allowedOrigins).

Definition is_ascii (c : ascii) : bool := (Js.code c <? 128)%N.

(** The statuses the handler itself answers with. *)
Definition handler_statuses : list Z :=
  [200; 204; 304; 403; 404; 405; 413; 415; 500; 503].

(** A result of the handler whose status, when it builds the response
    itself, is one of those, and which leaves the bucket as it was unless
    the status is 200. *)
Definition settled (r2 : gmap string Cache.R2Object)
    (res : Worker.Answer * gmap string Cache.R2Object) : Prop :=
  ∀ status, Worker.answer_status (fst res) = Some status →
            In status handler_statuses ∧ (status ≠ 200 → snd res = r2).

End Policy.

Module Accounting.
Import SiteUsageTracker.

Definition billed_requests (st : DO) : Z :=
  List.fold_right (λ b n, b_requests b + n) 0 (billed st).
Definition billed_hits (st : DO) : Z :=
  List.fold_right (λ b n, b_cacheHits b + n) 0 (billed st).
Definition billed_misses (st : DO) : Z :=
  List.fold_right (λ b n, b_cacheMisses b + n) 0 (billed st).

(** The record-events an operation handles, by kind: those of a flush are
    the ones that arrive while its batch is awaited. *)
Definition op_hits (st : DO) (op : Op) : Z :=
  match op with
  | OpConstruct _ => 0
  | OpFetch ev => hit_of ev
  | OpAlarm run =>
      if requests (mem st) =? 0 then 0 else hits_counted (during_write run)
  end.
Definition op_misses (st : DO) (op : Op) : Z :=
  match op with
  | OpConstruct _ => 0
  | OpFetch ev => miss_of ev
  | OpAlarm run =>
      if requests (mem st) =? 0 then 0 else misses_counted (during_write run)
  end.

(** Memory holds what storage holds. *)
Definition synced (st : DO) : Prop := loadFromStorage (storage st) = mem st.

Definition batch_ok (b : Batch) : Prop :=
  0 < b_requests b ∧ 0 ≤ b_cacheHits b ∧ 0 ≤ b_cacheMisses b
  ∧ b_requests b = b_cacheHits b + b_cacheMisses b.

Definition is_fetch_or_alarm (op : Op) : Prop :=
  match op with
  | OpConstruct _ => False
  | _ => True
  end.

(** A record-event whose body is not [null], and an operation that
    handles such events only. *)
Definition typed (ev : Event) : Prop := payload ev ≠ Null.
Definition typed_op (op : Op) : Prop :=
  match op with
  | OpConstruct _ => True
  | OpFetch ev => typed ev
  | OpAlarm run => Forall typed (during_write run)
  end.

Definition op_requests (st : DO) (op : Op) : Z :=
  match op with
  | OpConstruct _ => 0
  | OpFetch ev => request_of (initialized (mem st)) ev
  | OpAlarm run =>
      if requests (mem st) =? 0 then 0
      else events_counted (initialized (mem st)) (during_write run)
  end.

(** A sequence of operations, oldest first. *)
Definition run_ops (billing : bool) (ops : list Op) (st : DO) : DO :=
  List.fold_left (λ st op, step billing op st) ops st.


End Accounting.

Module Scenario.
Import Http Validation Origin Cache.

Definition jpeg : Bytes := [Byte.xff; Byte.xd8; Byte.xff; Byte.xe0].

(** An origin that answers every request with a small JPEG. *)
Definition online (u : string) (h : gmap string string) : FetchOutcome :=
  Responded
    (mkReceived 200 "OK"
       [("Content-Type", "image/jpeg"); ("Content-Length", "4")] u (Ok jpeg)).

(** An origin that redirects every request to one fixed address. *)
Definition redirecting (u : string) (h : gmap string string) : FetchOutcome :=
  Responded
    (mkReceived 200 "OK" [("Content-Type", "image/jpeg")]
       "http://169.254.169.254/latest" (Ok jpeg)).

(** A validator that refuses link-local targets. *)
Definition no_link_local (u : string) : Validity :=
  if Js.includes u "//169.254." then mkValidity false "link-local address"
  else mkValidity true "".

Definition worker (net : string → gmap string string → FetchOutcome)
    (v : Worker.Version) (request : Request) (env : Env)
    (r2 : gmap string R2Object) : Worker.Answer * gmap string R2Object :=
  Worker.fetch simple_hostname no_link_local net Demo.fifty_megabytes
    Demo.stamp v request env r2.

Definition browser : Request :=
  mkRequest "GET" "https://cdn.example.net/example.com/a.jpg"
    (mkURL "/example.com/a.jpg" [])
    [ ("User-Agent", "Mozilla/5.0"); ("Cookie", "session=1");
      ("Authorization", "Bearer x"); ("Referer", "https://example.com/") ].

End Scenario.

(** ** The strings the domain patterns match *)

Module Language.
Import Regex.

(** [matches r s]: the pattern [r] matches the whole of [s]; the iterated
    part of a repetition is taken non-empty. *)
Inductive matches : regex → string → Prop :=
| matches_Eps : matches Eps EmptyString
| matches_Cls p c : p c = true → matches (Cls p) (String c EmptyString)
| matches_Seq a b s t : matches a s → matches b t → matches (Seq a b) (s +:+ t)
| matches_Alt_l a b s : matches a s → matches (Alt a b) s
| matches_Alt_r a b s : matches b s → matches (Alt a b) s
| matches_Star_nil a : matches (Star a) EmptyString
| matches_Star_cons a c s t :
    matches a (String c s) → matches (Star a) t →
    matches (Star a) (String c s +:+ t)
| matches_Rep_nil a hi : matches (Rep a 0 hi) EmptyString
| matches_Rep_cons a lo hi c s t :
    matches a (String c s) → matches (Rep a (Nat.pred lo) hi) t →
    matches (Rep a lo (S hi)) (String c s +:+ t).

(** The class [p] holds the character [x] at most. *)
Definition only (x : ascii) (p : ascii → bool) : bool :=
  List.forallb
    (λ n, let c := ascii_of_nat n in implb (p c) (Ascii.eqb c x))
    (List.seq 0 256).

(** A syntactic sufficient condition for every match to hold [x]. *)
Fixpoint needs (x : ascii) (r : regex) : bool :=
  match r with
  | Void => true
  | Eps => false
  | Cls p => only x p
  | Seq a b => needs x a || needs x b
  | Alt a b => needs x a && needs x b
  | Star _ => false
  | Rep a lo _ => negb (Nat.eqb lo 0) && needs x a
  end.

Fixpoint last_char (c : ascii) (s : string) : ascii :=
  match s with
  | EmptyString => c
  | String d s' => last_char d s'
  end.

(** One to three digits. *)
Definition digit_group (s : string) : bool :=
  Js.string_forall Js.is_digit s
  && (1 <=? String.length s)%nat && (String.length s <=? 3)%nat.

(** A host-name label: one to sixty-three letters, digits and hyphens,
    the first and the last no hyphen. *)
Definition label (s : string) : bool :=
  match s with
  | EmptyString => false
  | String c rest =>
      Validation.alnum_char c
      && Js.string_forall Validation.alnum_hyphen_char rest
      && Validation.alnum_char (last_char c rest)
      && (String.length rest <=? 62)%nat
  end.

End Language.

(** * Properties *)

(** ** Strings *)

#[local] Arguments String.append : simpl nomatch.

Lemma string_forall_app P s t :
  Js.string_forall P (s +:+ t) = Js.string_forall P s && Js.string_forall P t.
Proof.
  induction s as [|c s IH]; simpl; [done|].
  by rewrite IH, andb_assoc.
Qed.

Lemma string_forall_impl (P Q : ascii → bool) s :
  (∀ c, P c = true → Q c = true) →
  Js.string_forall P s = true → Js.string_forall Q s = true.
Proof.
  intros HPQ. induction s as [|c s IH]; simpl; [done|].
  intros [Hc Hs]%andb_true_iff. rewrite (HPQ _ Hc). simpl. auto.
Qed.

Lemma append_assoc (s t u : string) : (s +:+ t) +:+ u = s +:+ (t +:+ u).
Proof. induction s as [|c s IH]; simpl; [done|]. by rewrite IH. Qed.

Lemma split_not_nil sep s : Js.split sep s ≠ [].
Proof.
  destruct s as [|c s]; simpl; [done|].
  destruct (Ascii.eqb c sep); [done|].
  destruct (Js.split sep s); done.
Qed.

Lemma join_split sep s : Js.join (String sep EmptyString) (Js.split sep s) = s.
Proof.
  induction s as [|c s IH]; simpl; [done|].
  destruct (Ascii.eqb_spec c sep) as [->|Hne].
  - pose proof (split_not_nil sep s) as Hnil.
    destruct (Js.split sep s) as [|x xs] eqn:E; [done|].
    simpl in *. by rewrite IH.
  - pose proof (split_not_nil sep s) as Hnil.
    destruct (Js.split sep s) as [|x xs] eqn:E; [done|].
    destruct xs as [|y ys]; simpl in *; by rewrite <- IH.
Qed.

(** Splitting [d ++ sep ++ rest] when [d] holds no separator. *)
Lemma split_app sep d rest :
  Js.string_forall (λ c, negb (Ascii.eqb c sep)) d = true →
  Js.split sep (d +:+ String sep rest) = d :: Js.split sep rest.
Proof.
  induction d as [|c d IH]; simpl.
  - intros _. by rewrite Ascii.eqb_refl.
  - intros [Hc Hd]%andb_true_iff. apply negb_true_iff in Hc. rewrite Hc.
    by rewrite (IH Hd).
Qed.

Lemma strip_leading_other c d s :
  Ascii.eqb d c = false →
  Js.strip_leading c (String d s) = String d s.
Proof. intros H. simpl. by rewrite H. Qed.

Lemma includes_char_false c s :
  Js.includes s (String c EmptyString) = false →
  Js.string_forall (λ x, negb (Ascii.eqb x c)) s = true.
Proof.
  induction s as [|d s IH]; simpl; [done|].
  intros [Hd Hs]%orb_false_iff.
  rewrite (IH Hs), andb_true_r.
  destruct (Ascii.eqb_spec d c) as [->|Hne]; [|done].
  rewrite Ascii.eqb_refl in Hd. by destruct s.
Qed.

Lemma read_escapes_one_other c s :
  Ascii.eqb c "%" = false →
  ∀ fuel, Js.decode_go (S fuel) (String c s) = String c <$> Js.decode_go fuel s.
Proof. intros H fuel. simpl. by rewrite H. Qed.

Lemma decode_go_plain s :
  Js.string_forall (λ c, negb (Ascii.eqb c "%")) s = true →
  ∀ fuel, (String.length s < fuel)%nat → Js.decode_go fuel s = Some s.
Proof.
  induction s as [|c s IH]; intros Hs fuel Hfuel.
  - destruct fuel; [lia|done].
  - simpl in Hs. apply andb_true_iff in Hs as [Hc Hs].
    apply negb_true_iff in Hc.
    destruct fuel as [|fuel]; [lia|].
    rewrite (read_escapes_one_other _ _ Hc).
    rewrite (IH Hs); [done|]. simpl in Hfuel. lia.
Qed.

Lemma decodeURIComponent_plain s :
  Js.string_forall (λ c, negb (Ascii.eqb c "%")) s = true →
  Js.decodeURIComponent s = Some s.
Proof. intros Hs. apply decode_go_plain; [done|lia]. Qed.

(** ** Regular expressions: a match only holds characters of the classes *)

Lemma dead_not_nullable r : Regex.dead r = true → Regex.nullable r = false.
Proof.
  induction r as [| |p|a IHa b IHb|a IHa b IHb|a IHa|a IHa lo hi]; simpl;
    try done.
  - intros [H|H]%orb_true_iff; [rewrite (IHa H)|rewrite (IHb H)];
      [done|apply andb_false_r].
  - intros [Ha Hb]%andb_true_iff. by rewrite (IHa Ha), (IHb Hb).
  - intros [Hlo Ha]%andb_true_iff. apply negb_true_iff in Hlo.
    by rewrite Hlo, (IHa Ha).
Qed.

Lemma dead_deriv c r : Regex.dead r = true → Regex.dead (Regex.deriv c r) = true.
Proof.
  induction r as [| |p|a IHa b IHb|a IHa b IHb|a IHa|a IHa lo hi]; simpl;
    try done.
  - intros [H|H]%orb_true_iff.
    + rewrite (dead_not_nullable _ H). simpl. by rewrite (IHa H).
    + destruct (Regex.nullable a); simpl; rewrite H, ?(IHb H);
        by rewrite ?orb_true_r.
  - intros [Ha Hb]%andb_true_iff. by rewrite (IHa Ha), (IHb Hb).
  - intros [Hlo Ha]%andb_true_iff. destruct hi; simpl; [done|].
    by rewrite (IHa Ha).
Qed.

Lemma dead_test r s : Regex.dead r = true → Regex.test r s = false.
Proof.
  revert r. induction s as [|c s IH]; intros r Hr; simpl.
  - by apply dead_not_nullable.
  - apply IH. by apply dead_deriv.
Qed.

Lemma within_deriv P c r : Regex.within P r → Regex.within P (Regex.deriv c r).
Proof.
  induction 1 as [| |p Hp|a b Ha IHa Hb IHb|a b Ha IHa Hb IHb|a Ha IHa
                  |a lo hi Ha IHa]; simpl.
  - constructor.
  - constructor.
  - destruct (p c); constructor.
  - destruct (Regex.nullable a); repeat constructor; done.
  - by constructor.
  - repeat constructor; done.
  - destruct hi; repeat constructor; done.
Qed.

Lemma outside_dead P c r :
  Regex.within P r → P c = false → Regex.dead (Regex.deriv c r) = true.
Proof.
  intros Hr Hc.
  induction Hr as [| |p Hp|a b Ha IHa Hb IHb|a b Ha IHa Hb IHb|a Ha IHa
                   |a lo hi Ha IHa]; simpl; try done.
  - destruct (p c) eqn:E; [|done]. apply Hp in E. congruence.
  - destruct (Regex.nullable a); simpl; by rewrite IHa, ?IHb.
  - by rewrite IHa, IHb.
  - by rewrite IHa.
  - destruct hi; simpl; [done|]. by rewrite IHa.
Qed.

Lemma test_within P r s :
  Regex.within P r → Regex.test r s = true → Js.string_forall P s = true.
Proof.
  revert r. induction s as [|c s IH]; intros r Hr Hs; simpl; [done|].
  simpl in Hs.
  destruct (P c) eqn:Hc; simpl.
  - eapply IH; [|done]. by apply within_deriv.
  - rewrite dead_test in Hs; [done|]. by eapply outside_dead.
Qed.

(** ** validation.ts *)

Lemma domain_char_digit c : Js.is_digit c = true → Validation.domain_char c = true.
Proof.
  unfold Validation.domain_char, Validation.alnum_hyphen_char, Validation.alnum_char.
  intros ->. by rewrite !orb_true_r.
Qed.

Lemma domain_char_alnum c : Validation.alnum_char c = true → Validation.domain_char c = true.
Proof. unfold Validation.domain_char, Validation.alnum_hyphen_char. by intros ->. Qed.

Lemma domain_char_hyphen c :
  Validation.alnum_hyphen_char c = true → Validation.domain_char c = true.
Proof. unfold Validation.domain_char. by intros ->. Qed.

Lemma domain_char_dot c : Ascii.eqb "." c = true → Validation.domain_char c = true.
Proof.
  unfold Validation.domain_char. rewrite Ascii.eqb_sym. intros ->. apply orb_true_r.
Qed.

Lemma ipv4_re_within : Regex.within Validation.domain_char Validation.ipv4_re.
Proof.
  unfold Validation.ipv4_re, Validation.digit, Validation.dot, Regex.Chr.
  repeat constructor; auto using domain_char_digit, domain_char_dot.
Qed.

Lemma domain_re_within : Regex.within Validation.domain_char Validation.domain_re.
Proof.
  unfold Validation.domain_re, Validation.alnum, Validation.alnum_hyphen,
    Validation.dot, Regex.Chr, Regex.Plus, Regex.Opt.
  repeat constructor;
    auto using domain_char_alnum, domain_char_hyphen, domain_char_dot.
Qed.

Lemma isValidDomain_chars d :
  Validation.isValidDomain d = true → Js.string_forall Validation.domain_char d = true.
Proof.
  unfold Validation.isValidDomain.
  destruct (String.eqb_spec d "localhost") as [->|_]; [done|]. simpl.
  destruct (Regex.test Validation.ipv4_re d) eqn:E.
  - intros _. by eapply test_within; [apply ipv4_re_within|].
  - intros H. by eapply test_within; [apply domain_re_within|].
Qed.

Lemma domain_char_not c x :
  Validation.domain_char x = false → Validation.domain_char c = true → negb (Ascii.eqb c x) = true.
Proof.
  intros Hx Hc. destruct (Ascii.eqb_spec c x) as [->|]; [congruence|done].
Qed.

Lemma isValidDomain_without x d :
  Validation.domain_char x = false →
  Validation.isValidDomain d = true →
  Js.string_forall (λ c, negb (Ascii.eqb c x)) d = true.
Proof.
  intros Hx Hd. apply isValidDomain_chars in Hd.
  eapply string_forall_impl; [|exact Hd].
  intros c. by apply domain_char_not.
Qed.

Lemma startsWith_slash p :
  Js.startsWith p "/" = true → ∃ rest, p = String "/" rest.
Proof.
  destruct p as [|c p]; cbn [Js.startsWith]; [done|].
  intros [Hc _]%andb_true_iff. apply Ascii.eqb_eq in Hc as <-. eauto.
Qed.

(** The path as the parser sees it, for a well-formed pair. *)
Lemma parts_of_well_formed domain rest :
  Validation.isValidDomain domain = true →
  Js.split "/" (Js.strip_leading "/" ("/" +:+ domain +:+ String "/" rest))
  = domain :: Js.split "/" rest.
Proof.
  intros Hd.
  pose proof (isValidDomain_without "/" domain eq_refl Hd) as Hslash.
  destruct domain as [|d0 d]; [vm_compute in Hd; discriminate|].
  change ("/" +:+ String d0 d +:+ String "/" rest)
    with (String "/" (String d0 d +:+ String "/" rest)).
  cbn [Js.string_forall] in Hslash.
  apply andb_true_iff in Hslash as [Hd0 Hrest].
  apply negb_true_iff in Hd0.
  change (Js.strip_leading "/" (String "/" (String d0 d +:+ String "/" rest)))
    with (Js.strip_leading "/" (String d0 (d +:+ String "/" rest))).
  rewrite (strip_leading_other _ _ _ Hd0).
  change (String d0 (d +:+ String "/" rest))
    with (String d0 d +:+ String "/" rest).
  apply split_app. cbn [Js.string_forall]. by rewrite Hd0, Hrest.
Qed.

(** C8. For every well-formed pair of a domain and a path, parsing the
    request path [/domain path] gives back that domain and that path, the
    cache key [domain path] and the source URL [https://domain] followed by
    the path with each segment percent-encoded. *)
Theorem parseUrl_round_trip (domain path : string) (params : list (string * string)) :
  Spec.well_formed domain path →
  Validation.parseUrl (Validation.mkURL ("/" +:+ domain +:+ path) params)
  = Ok (Validation.mkParsedUrl domain path
          ("https://" +:+ domain
             +:+ Js.join "/" (List.map Js.encodeURIComponent (Js.split "/" path)))
          (domain +:+ path)
          (Validation.flag_set
             (Validation.searchParams_get
                (Validation.mkURL ("/" +:+ domain +:+ path) params) "force"))
          (Validation.flag_set
             (Validation.searchParams_get
                (Validation.mkURL ("/" +:+ domain +:+ path) params) "view"))).
Proof.
  intros (Hd & Hslash & Hpct).
  destruct (startsWith_slash _ Hslash) as [rest ->].
  unfold Validation.parseUrl.
  cbn [Validation.pathname].
  rewrite decodeURIComponent_plain.
  2:{ change ("/" +:+ domain +:+ String "/" rest)
        with (String "/" (domain +:+ String "/" rest)).
      cbn [Js.string_forall]. rewrite string_forall_app.
      rewrite (isValidDomain_without "%" domain eq_refl Hd).
      by rewrite (includes_char_false _ _ Hpct). }
  rewrite (parts_of_well_formed _ _ Hd).
  pose proof (split_not_nil "/" rest) as Hnil.
  destruct (Js.split "/" rest) as [|x xs] eqn:Hsplit; [done|].
  cbn [length Nat.ltb Nat.leb List.hd List.tl].
  rewrite Hd. cbn [negb].
  rewrite <- Hsplit, (join_split "/" rest).
  reflexivity.
Qed.

(** A well-formed pair and its parse. *)
Lemma parseUrl_round_trip_witness :
  Spec.well_formed "example.com" "/wp-content/uploads/a b.jpg"
  ∧ Validation.parseUrl
      (Validation.mkURL "/example.com/wp-content/uploads/a b.jpg" [])
    = Ok (Validation.mkParsedUrl "example.com" "/wp-content/uploads/a b.jpg"
            "https://example.com/wp-content/uploads/a%20b.jpg"
            "example.com/wp-content/uploads/a b.jpg" false false).
Proof.
  assert (Spec.well_formed "example.com" "/wp-content/uploads/a b.jpg") as H
    by (repeat split; vm_compute; reflexivity).
  split; [exact H|].
  exact (parseUrl_round_trip "example.com" "/wp-content/uploads/a b.jpg" [] H).
Defined.

(** C3. With the allow-list [*.example.com] the predicate admits a source
    URL whose host is [notexample.com]: the entry is cut to [example.com]
    and compared as a bare suffix of the host name, without the dot. *)
Theorem wildcard_entry_admits_foreign_suffix :
  Validation.simple_hostname "https://notexample.com/a.jpg"
  = Some "notexample.com"
  ∧ Validation.isAllowedOrigin Validation.simple_hostname
      "https://notexample.com/a.jpg" "*.example.com" = true.
Proof. split; vm_compute; reflexivity. Qed.

(** The other cases of the allow-list. *)
Lemma star_allows_all (URL_hostname : string → option string) sourceUrl :
  Validation.isAllowedOrigin URL_hostname sourceUrl "*" = true.
Proof. reflexivity. Qed.

Lemma wildcard_entry_cases (URL_hostname : string → option string) sourceUrl :
  (URL_hostname sourceUrl = Some "img.example.com" →
   Validation.isAllowedOrigin URL_hostname sourceUrl "*.example.com" = true)
  ∧ (URL_hostname sourceUrl = Some "example.com.evil.com" →
     Validation.isAllowedOrigin URL_hostname sourceUrl "*.example.com" = false)
  ∧ (URL_hostname sourceUrl = Some "example.com" →
     Validation.isAllowedOrigin URL_hostname sourceUrl "*.example.com" = true).
Proof.
  unfold Validation.isAllowedOrigin.
  repeat split; intros ->; vm_compute; reflexivity.
Qed.

Lemma exact_entry_matches hostname origin :
  String.eqb origin "*" = false →
  Js.startsWith origin "*." = false →
  Validation.origin_matches hostname origin = true ↔ hostname = origin.
Proof.
  intros Hstar Hwild. unfold Validation.origin_matches.
  rewrite Hstar, Hwild. apply String.eqb_eq.
Qed.

(** ** origin.ts *)

Lemma parseInt_empty radix : Js.parseInt "" radix = None.
Proof. destruct radix; reflexivity. Qed.

Lemma truthy_false_parse radix (o : option string) :
  Js.truthy o = false →
  ∀ text size, o = Some text → Js.parseInt text radix = Some size → False.
Proof.
  intros Ht text size -> Hp. simpl in Ht. apply negb_false_iff in Ht.
  apply String.eqb_eq in Ht as ->. by rewrite parseInt_empty in Hp.
Qed.

(** The test of the header, for either way of reading it: it passes when
    the header admits the limit, and throws otherwise. *)
Lemma header_test radix (o : option string) maxSize :
  let admitted := ∀ text size,
    o = Some text → Js.parseInt text radix = Some size → size ≤ maxSize in
  let step : Result unit :=
    if Js.truthy o then
      match Js.parseInt (default EmptyString o) radix with
      | Some size =>
          if size >? maxSize then Throw (Origin.too_large size maxSize)
          else Ok tt
      | None => Ok tt
      end
    else Ok tt in
  (step = Ok tt ∧ admitted)
  ∨ (∃ size, step = Throw (Origin.too_large size maxSize) ∧ ¬ admitted).
Proof.
  intros admitted step. subst admitted step.
  destruct (Js.truthy o) eqn:Htruthy.
  - destruct o as [text|]; [|discriminate].
    change (default EmptyString (Some text)) with text.
    destruct (Js.parseInt text radix) as [size|] eqn:Hparse.
    + destruct (Z.gtb_spec size maxSize) as [Hgt|Hle].
      * right. exists size. split; [reflexivity|].
        intros H. specialize (H _ _ eq_refl Hparse). lia.
      * left. split; [reflexivity|].
        intros t s [= <-] Hs. rewrite Hparse in Hs. injection Hs as <-. done.
    + left. split; [reflexivity|]. intros t s [= <-] Hs. congruence.
  - left. split; [reflexivity|]. intros t s Ho Hs.
    destruct (truthy_false_parse radix o Htruthy _ _ Ho Hs).
Qed.

Ltac size_guard radix maxSize :=
  unfold Spec.header_admits, mbind, Result_bind, bindR;
  match goal with
  | |- context [Js.truthy ?o] =>
      let Hstep := fresh "Hstep" in
      let Hadm := fresh "Hadm" in
      destruct (header_test radix o maxSize)
        as [[Hstep Hadm]|(size & Hstep & Hadm)];
      cbv zeta in Hstep; rewrite Hstep; clear Hstep
  end.

Lemma body_test (body : Result Http.Bytes) maxSize data :
  match body with
  | Ok imageData =>
      if Http.byteLength imageData >? maxSize
      then Throw (Origin.too_large (Http.byteLength imageData) maxSize)
      else Ok imageData
  | Throw m => Throw m
  end = Ok data
  ↔ body = Ok data ∧ Http.byteLength data ≤ maxSize.
Proof.
  destruct body as [bytes|m]; [|split; [discriminate|by intros [? _]]].
  destruct (Z.gtb_spec (Http.byteLength bytes) maxSize) as [Hbig|Hfit].
  - split; [discriminate|]. intros [[= ->] ?]. lia.
  - split; [by intros [= ->]|by intros [[= ->] _]].
Qed.

Lemma fetchImageData_accepts response maxSize data :
  Origin.fetchImageData response maxSize = Ok data
  ↔ Http.arrayBuffer response = Ok data
    ∧ Http.byteLength data ≤ maxSize
    ∧ Spec.header_admits (Some 10) response maxSize.
Proof.
  unfold Origin.fetchImageData. size_guard (Some 10) maxSize.
  - rewrite body_test. tauto.
  - split; [discriminate|tauto].
Qed.

Lemma fetchImageData_1_0_3_accepts response maxSize data :
  Origin.fetchImageData_1_0_3 response maxSize = Ok data
  ↔ Http.arrayBuffer response = Ok data
    ∧ Http.byteLength data ≤ maxSize
    ∧ Spec.header_admits None response maxSize.
Proof.
  unfold Origin.fetchImageData_1_0_3. size_guard (@None Z) maxSize.
  - rewrite body_test. tauto.
  - split; [discriminate|tauto].
Qed.

Lemma fetchImageData_rejects response maxSize data :
  Http.arrayBuffer response = Ok data →
  maxSize < Http.byteLength data →
  (∃ size, Origin.fetchImageData response maxSize
           = Throw (Origin.too_large size maxSize))
  ∧ (∃ size, Origin.fetchImageData_1_0_3 response maxSize
             = Throw (Origin.too_large size maxSize)).
Proof.
  intros Hbody Hbig.
  assert ((Http.byteLength data >? maxSize) = true) as Hgt
    by (apply Z.gtb_lt; lia).
  split.
  - unfold Origin.fetchImageData. size_guard (Some 10) maxSize; [|eauto].
    rewrite Hbody, Hgt. eauto.
  - unfold Origin.fetchImageData_1_0_3. size_guard (@None Z) maxSize; [|eauto].
    rewrite Hbody, Hgt. eauto.
Qed.

(** C5. [fetchImageData] returns the bytes of the body exactly when the
    body was read, its length is at most [maxSize], and the
    [Content-Length] header, if present and readable as a number, is at
    most [maxSize]; a body longer than [maxSize] is always refused with
    the message [File too large], whatever the header says. Both texts of
    the function behave so. *)
Theorem fetchImageData_size_guard (response : Http.Received) (maxSize : Z) :
  (∀ data,
     Origin.fetchImageData response maxSize = Ok data
     ↔ Http.arrayBuffer response = Ok data
       ∧ Http.byteLength data ≤ maxSize
       ∧ Spec.header_admits (Some 10) response maxSize)
  ∧ (∀ data,
       Origin.fetchImageData_1_0_3 response maxSize = Ok data
       ↔ Http.arrayBuffer response = Ok data
         ∧ Http.byteLength data ≤ maxSize
         ∧ Spec.header_admits None response maxSize)
  ∧ (∀ data,
       Http.arrayBuffer response = Ok data →
       maxSize < Http.byteLength data →
       (∃ size, Origin.fetchImageData response maxSize
                = Throw (Origin.too_large size maxSize))
       ∧ (∃ size, Origin.fetchImageData_1_0_3 response maxSize
                  = Throw (Origin.too_large size maxSize))).
Proof.
  split; [|split].
  - intros data. apply fetchImageData_accepts.
  - intros data. apply fetchImageData_1_0_3_accepts.
  - intros data. apply fetchImageData_rejects.
Qed.

(** A body of three bytes against a limit of two, under a header that
    announces one byte: refused after the download. *)
Example fetchImageData_refuses_understated :
  Origin.fetchImageData
    (Demo.received 200 [("Content-Length", "1")] [Byte.x47; Byte.x49; Byte.x46]) 2
  = Throw "File too large: 3 bytes (max 2 bytes)".
Proof. vm_compute. reflexivity. Qed.

(** The classifier's reading of [Content-Length]. *)
Lemma below_spec response limit :
  Origin.below (Http.headers_get (Http.r_headers response) "content-length") limit
  = true ↔ Spec.length_below response limit.
Proof.
  unfold Origin.below, Spec.length_below.
  destruct (Http.headers_get (Http.r_headers response) "content-length")
    as [text|].
  - change (default EmptyString (Some text)) with text.
    rewrite andb_true_iff. split.
    + intros [_ H].
      destruct (Js.parseInt text (Some 10)) as [n|] eqn:Hp; [|done].
      exists text, n. split; [done|]. split; [done|]. by apply Z.ltb_lt.
    + intros (t & n & [= <-] & Hp & Hn). rewrite Hp.
      split; [|by apply Z.ltb_lt].
      unfold Js.truthy. destruct (String.eqb_spec text ""); [|done].
      subst. by rewrite parseInt_empty in Hp.
  - split; [done|]. by intros (t & n & ? & _).
Qed.

Lemma http_reason (status : Z) :
  (status = 401 → "http_" +:+ pretty status = "http_401")
  ∧ (status = 403 → "http_" +:+ pretty status = "http_403").
Proof. split; intros ->; vm_compute; reflexivity. Qed.

Lemma detectBlockedResponse_classified r :
  Spec.Classified r (Origin.detectBlockedResponse r Origin.image).
Proof.
  unfold Origin.detectBlockedResponse.
  fold (Spec.content_type r).
  destruct (Z.eqb_spec (Http.r_status r) 403) as [H403|H403].
  { cbn [orb]. rewrite (proj2 (http_reason _) H403). by apply Spec.by_403. }
  destruct (Z.eqb_spec (Http.r_status r) 401) as [H401|H401].
  { cbn [orb]. rewrite (proj1 (http_reason _) H401). by apply Spec.by_401. }
  cbn [orb].
  destruct (Z.eqb_spec (Http.r_status r) 429) as [H429|H429].
  { by apply Spec.by_429. }
  assert (Spec.plain_status r) as Hplain by done.
  destruct (Js.includes (Spec.content_type r) "text/html") eqn:Hhtml.
  { destruct (Origin.below _ 50000) eqn:Hlen.
    - apply Spec.by_challenge; [done..|]. by apply below_spec.
    - apply Spec.by_html; [done..|]. rewrite <- below_spec. congruence. }
  assert (¬ Spec.is_html r) as Hnot_html by (unfold Spec.is_html; congruence).
  destruct (Js.startsWith (Spec.content_type r) "text/") eqn:Htext.
  { by apply Spec.by_text. }
  assert (¬ Spec.is_text r) as Hnot_text by (unfold Spec.is_text; congruence).
  destruct (Js.includes (Spec.content_type r) "application/json") eqn:Hjson.
  { by apply Spec.by_json. }
  assert (¬ Spec.is_json r) as Hnot_json by (unfold Spec.is_json; congruence).
  destruct (String.eqb_spec (Spec.content_type r) "") as [Hnone|Hsome];
    cbn [negb andb].
  { apply Spec.by_nothing; [done..|]. left. unfold Spec.has_content_type. tauto. }
  destruct (Js.startsWith (Spec.content_type r) "image/") eqn:Himage;
    cbn [negb].
  - apply Spec.by_nothing; [done..|]. by right.
  - apply Spec.by_other_type; [done..|]. unfold Spec.is_image. congruence.
Qed.

Lemma Classified_functional r c1 c2 :
  Spec.Classified r c1 → Spec.Classified r c2 → c1 = c2.
Proof.
  destruct 1; destruct 1; try reflexivity;
    exfalso; unfold Spec.plain_status in *; first [lia | tauto].
Qed.

(** C7. For every origin response the classifier returns exactly what the
    decision tree prescribes: status 401 or 403 gives [http_401] or
    [http_403], status 429 gives [rate_limited]; otherwise HTML with a
    [Content-Length] below 50000 gives [html_challenge_page], other HTML
    [html_instead_of_image], any other [text/*] [text_instead_of_image],
    JSON [json_instead_of_image], any other content type that is present
    and not [image/*] [non_image_content_type], and every remaining
    response is not blocked and has no reason. The content type is compared
    in lower case. *)
Theorem detectBlockedResponse_decision_tree (r : Http.Received)
    (c : Origin.BlockCheck) :
  Origin.detectBlockedResponse r Origin.image = c ↔ Spec.Classified r c.
Proof.
  split.
  - intros <-. apply detectBlockedResponse_classified.
  - intros Hc. eapply Classified_functional; [|exact Hc].
    apply detectBlockedResponse_classified.
Qed.

(** Scenario D of the specification: [200 text/html] with 2000 bytes. *)
Example challenge_page :
  Origin.detectBlockedResponse
    (Demo.received 200
       [("Content-Type", "text/html; charset=utf-8"); ("Content-Length", "2000")]
       [])
    Origin.image
  = Spec.block "html_challenge_page".
Proof. vm_compute. reflexivity. Qed.

(** ** index.ts *)

Section WorkerFacts.
Variable URL_hostname : string → option string.
Variable validateUrlForFetch : string → Origin.Validity.
Variable net_fetch : string → gmap string string → Origin.FetchOutcome.
Variable parseFileSize : string → Result Z.
Variable stamp : Cache.Stamp.

Local Abbreviation fetch :=
  (Worker.fetch URL_hostname validateUrlForFetch net_fetch parseFileSize stamp).
Local Abbreviation handle :=
  (Worker.handle URL_hostname validateUrlForFetch net_fetch parseFileSize stamp).

Lemma fetch_reaches_handle v request env r2 :
  Spec.reaches_parser request →
  fetch v request env r2
  = match handle v request env r2 with
    | Ok answer => answer
    | Throw message => (Worker.Built (Utils.errorResponse message 500), r2)
    end.
Proof.
  intros (Hm & Hh & Hp & Hs). unfold Worker.fetch.
  apply String.eqb_neq in Hm, Hh, Hp, Hs.
  by rewrite Hm, Hh, Hp, Hs.
Qed.

(** Whatever the parser throws comes back as a 500 with its message. *)
Lemma parse_error_answer v request env r2 message :
  Spec.reaches_parser request →
  Validation.parseUrl (Http.url request) = Throw message →
  fetch v request env r2
  = (Worker.Built (Utils.errorResponse message 500), r2).
Proof.
  intros Hr Hp. rewrite (fetch_reaches_handle _ _ _ _ Hr).
  unfold Worker.handle. by rewrite Hp.
Qed.

Lemma conditional_none request etag :
  Http.headers_get (Http.req_headers request) "If-None-Match" ≠ Some etag →
  Cache.handleConditionalRequest request etag = None.
Proof.
  intros Hne. unfold Cache.handleConditionalRequest.
  destruct (Http.headers_get (Http.req_headers request) "If-None-Match")
    as [x|]; [|done].
  change (default EmptyString (Some x)) with x.
  destruct (String.eqb_spec x etag) as [->|]; [done|].
  by rewrite andb_false_r.
Qed.

Lemma handle_hit v request env r2 parsed cached :
  Http.method request = "GET" →
  Validation.parseUrl (Http.url request) = Ok parsed →
  Validation.isAllowedOrigin URL_hostname (Validation.sourceUrl parsed)
    (Js.or_else (Origin.ALLOWED_ORIGINS env) "*") = true →
  Validation.forceReprocess parsed = false →
  r2 !! Validation.cacheKey parsed = Some cached →
  handle v request env r2
  = Ok (Worker.serve_hit v request env parsed cached, r2).
Proof.
  intros Hm Hp Ha Hf Hc. unfold Worker.handle.
  rewrite Hp. cbn [mbind Result_bind bindR].
  rewrite Hm. cbn [String.eqb]. 
  change (String.eqb "GET" "DELETE") with false.
  change (String.eqb "GET" "HEAD") with false.
  change (String.eqb "GET" "GET") with true.
  cbn [negb]. rewrite Ha, Hf. cbn [negb].
  unfold Cache.getFromCache. by rewrite Hc.
Qed.
End WorkerFacts.

(** What the handler answers to a parse error. A request that reaches the
    parser and whose decoded path has fewer than two segments, or whose
    first segment is not a valid domain, is answered through the handler's
    one catch-all: status 500, with the thrown message in the JSON body. *)
Theorem parse_errors_answer_500
    (URL_hostname : string → option string)
    (validateUrlForFetch : string → Origin.Validity)
    (net_fetch : string → gmap string string → Origin.FetchOutcome)
    (parseFileSize : string → Result Z) (stamp : Cache.Stamp)
    (v : Worker.Version) (request : Http.Request) (env : Origin.Env)
    (r2 : gmap string Cache.R2Object) (decoded : string) :
  Spec.reaches_parser request →
  Js.decodeURIComponent (Validation.pathname (Http.url request)) = Some decoded →
  let pathParts := Js.split "/" (Js.strip_leading "/" decoded) in
  let answer :=
    Worker.fetch URL_hostname validateUrlForFetch net_fetch parseFileSize stamp
      v request env r2 in
  ((length pathParts < 2)%nat →
   answer = (Worker.Built
               (Utils.errorResponse
                  "Invalid URL format: /domain.com/path/to/image.jpg" 500), r2))
  ∧ ((2 ≤ length pathParts)%nat →
     Validation.isValidDomain (List.hd EmptyString pathParts) = false →
     answer = (Worker.Built
                 (Utils.errorResponse
                    ("Invalid domain: " +:+ List.hd EmptyString pathParts) 500),
               r2))
  ∧ (∀ message, Worker.answer_status (Worker.Built (Utils.errorResponse message 500))
                = Some 500).
Proof.
  intros Hr Hd pathParts answer. subst answer.
  split; [|split; [|done]].
  - intros Hshort. apply parse_error_answer; [done|].
    unfold Validation.parseUrl. rewrite Hd. fold pathParts.
    by rewrite (proj2 (Nat.ltb_lt _ _) Hshort).
  - intros Hlong Hbad. apply parse_error_answer; [done|].
    unfold Validation.parseUrl. rewrite Hd. fold pathParts.
    assert ((length pathParts <? 2)%nat = false) as ->
      by (apply Nat.ltb_ge; lia).
    by rewrite Hbad.
Qed.

(** [GET /example.com]: one segment only. *)
Lemma parse_errors_answer_500_witness :
  Demo.worker Worker.V1_1_0 (Demo.get "/example.com" []) (Demo.env None) ∅
  = (Worker.Built
       (Utils.errorResponse
          "Invalid URL format: /domain.com/path/to/image.jpg" 500), ∅).
Proof.
  refine (proj1 (parse_errors_answer_500 Validation.simple_hostname
                   Demo.validate_any Demo.offline Demo.fifty_megabytes
                   Demo.stamp Worker.V1_1_0 (Demo.get "/example.com" [])
                   (Demo.env None) ∅ "/example.com" _ _) _).
  - repeat split; discriminate.
  - reflexivity.
  - vm_compute. lia.
Defined.

(** C4. The handler breaks the claim: [GET /example.com], a path of one
    segment, and [GET /exa_mple.com/a.jpg], whose first segment is no
    domain, make [parseUrl] throw its message for the client, and both are
    answered with status 500, which is no 4xx. *)
Lemma parse_errors_are_not_4xx :
  (∃ status,
     Validation.parseUrl (Http.url (Demo.get "/example.com" []))
     = Throw "Invalid URL format: /domain.com/path/to/image.jpg"
     ∧ Worker.answer_status
         (fst (Demo.worker Worker.V1_1_0 (Demo.get "/example.com" [])
                 (Demo.env None) ∅)) = Some status
     ∧ ¬ Spec.client_error status)
  ∧ (∃ status,
       Validation.parseUrl (Http.url (Demo.get "/exa_mple.com/a.jpg" []))
       = Throw "Invalid domain: exa_mple.com"
       ∧ Worker.answer_status
           (fst (Demo.worker Worker.V1_1_0 (Demo.get "/exa_mple.com/a.jpg" [])
                   (Demo.env None) ∅)) = Some status
       ∧ ¬ Spec.client_error status).
Proof.
  split; exists 500; (split; [vm_compute; reflexivity|]);
    (split; [vm_compute; reflexivity|]); unfold Spec.client_error; lia.
Qed.

(** C6, as the code has it. A GET request that reaches the parser, parses,
    passes the origin allow-list and finds a stored entry under its cache
    key, with neither [force] nor [view] set and no [If-None-Match] equal to
    the stored ETag, is answered by the 1.1.0 handler with status 200, the
    stored bytes, the stored ETag, the stored content type ([image/jpeg]
    when none is stored), the immutable [Cache-Control] and the status
    indicator [hit]; the 1.0.4 handler answers 200 with the stored ETag but
    a placeholder GIF, [no-cache] and the indicator [cached]. The bucket is
    left as it was. *)
Theorem cache_hit_response
    (URL_hostname : string → option string)
    (validateUrlForFetch : string → Origin.Validity)
    (net_fetch : string → gmap string string → Origin.FetchOutcome)
    (parseFileSize : string → Result Z) (stamp : Cache.Stamp)
    (request : Http.Request) (env : Origin.Env)
    (r2 : gmap string Cache.R2Object)
    (parsed : Validation.ParsedUrl) (cached : Cache.R2Object) :
  Spec.reaches_parser request →
  Http.method request = "GET" →
  Validation.parseUrl (Http.url request) = Ok parsed →
  Validation.isAllowedOrigin URL_hostname (Validation.sourceUrl parsed)
    (Js.or_else (Origin.ALLOWED_ORIGINS env) "*") = true →
  Validation.forceReprocess parsed = false →
  Validation.viewImage parsed = false →
  r2 !! Validation.cacheKey parsed = Some cached →
  Http.headers_get (Http.req_headers request) "If-None-Match"
    ≠ Some (Cache.etag cached) →
  (∃ r,
     Worker.fetch URL_hostname validateUrlForFetch net_fetch parseFileSize
       stamp Worker.V1_1_0 request env r2 = (Worker.Built r, r2)
     ∧ Http.status r = 200
     ∧ Http.body r = Http.BytesBody (Cache.o_body cached)
     ∧ Http.headers_get (Http.headers r) "ETag" = Some (Cache.etag cached)
     ∧ Http.headers_get (Http.headers r) "Content-Type"
       = Some (Cache.stored_contentType cached)
     ∧ Http.headers_get (Http.headers r) "Cache-Control"
       = Some "public, max-age=31536000, immutable"
     ∧ Http.headers_get (Http.headers r) "X-ImgPro-Status" = Some "hit")
  ∧ (∃ r,
       Worker.fetch URL_hostname validateUrlForFetch net_fetch parseFileSize
         stamp Worker.V1_0_4 request env r2 = (Worker.Built r, r2)
       ∧ Http.status r = 200
       ∧ Http.body r = Http.AtobBody Worker.transparent_gif
       ∧ Http.headers_get (Http.headers r) "ETag" = Some (Cache.etag cached)
       ∧ Http.headers_get (Http.headers r) "Content-Type" = Some "image/gif"
       ∧ Http.headers_get (Http.headers r) "Cache-Control" = Some "no-cache"
       ∧ Http.headers_get (Http.headers r) "X-ImgPro-Status" = Some "cached").
Proof.
  intros Hr Hm Hp Ha Hf Hv Hc Hinm.
  split.
  - eexists. split.
    + rewrite (fetch_reaches_handle _ _ _ _ _ _ _ _ _ Hr).
      rewrite (handle_hit _ _ _ _ _ _ _ _ _ _ _ Hm Hp Ha Hf Hc).
      unfold Worker.serve_hit.
      rewrite (conditional_none _ _ Hinm), Hv. reflexivity.
    + repeat split; reflexivity.
  - eexists. split.
    + rewrite (fetch_reaches_handle _ _ _ _ _ _ _ _ _ Hr).
      rewrite (handle_hit _ _ _ _ _ _ _ _ _ _ _ Hm Hp Ha Hf Hc).
      unfold Worker.serve_hit.
      rewrite (conditional_none _ _ Hinm), Hv. reflexivity.
    + repeat split; reflexivity.
Qed.

(** [GET /example.com/a.jpg] with the image stored and every origin
    allowed. *)
Lemma cache_hit_response_witness :
  ∃ r,
    Demo.worker Worker.V1_1_0 (Demo.get "/example.com/a.jpg" [])
      (Demo.env None) Demo.bucket = (Worker.Built r, Demo.bucket)
    ∧ Http.status r = 200
    ∧ Http.body r = Http.BytesBody (Cache.o_body Demo.photo)
    ∧ Http.headers_get (Http.headers r) "ETag" = Some "etag-1"
    ∧ Http.headers_get (Http.headers r) "Content-Type" = Some "image/gif"
    ∧ Http.headers_get (Http.headers r) "Cache-Control"
      = Some "public, max-age=31536000, immutable"
    ∧ Http.headers_get (Http.headers r) "X-ImgPro-Status" = Some "hit".
Proof.
  refine (proj1 (cache_hit_response Validation.simple_hostname
                   Demo.validate_any Demo.offline Demo.fifty_megabytes
                   Demo.stamp (Demo.get "/example.com/a.jpg" [])
                   (Demo.env None) Demo.bucket
                   (Validation.mkParsedUrl "example.com" "/a.jpg"
                      "https://example.com/a.jpg" "example.com/a.jpg"
                      false false)
                   Demo.photo _ _ _ _ _ _ _ _)).
  - repeat split; discriminate.
  - reflexivity.
  - vm_compute. reflexivity.
  - reflexivity.
  - reflexivity.
  - reflexivity.
  - vm_compute. reflexivity.
  - discriminate.
Defined.

(** C6, as stated, fails: with the allow-list [img.example.org], a GET for
    a stored image of [example.com], without [force], [view] or
    [If-None-Match], is refused with 403 before the cache is looked up; and
    the 1.0.4 handler, with every origin allowed, answers the same request
    with the placeholder GIF and [no-cache], not with the stored bytes. *)
Lemma stored_entry_not_served :
  Demo.bucket !! "example.com/a.jpg" = Some Demo.photo
  ∧ Validation.parseUrl (Http.url (Demo.get "/example.com/a.jpg" []))
    = Ok (Validation.mkParsedUrl "example.com" "/a.jpg"
            "https://example.com/a.jpg" "example.com/a.jpg" false false)
  ∧ Http.headers_get (Http.req_headers (Demo.get "/example.com/a.jpg" []))
      "If-None-Match" = None
  ∧ Worker.answer_status
      (fst (Demo.worker Worker.V1_1_0 (Demo.get "/example.com/a.jpg" [])
              (Demo.env (Some "img.example.org")) Demo.bucket)) = Some 403
  ∧ (∃ r,
       fst (Demo.worker Worker.V1_0_4 (Demo.get "/example.com/a.jpg" [])
              (Demo.env None) Demo.bucket) = Worker.Built r
       ∧ Http.body r ≠ Http.BytesBody (Cache.o_body Demo.photo)
       ∧ Http.headers_get (Http.headers r) "Cache-Control" = Some "no-cache"
       ∧ Http.headers_get (Http.headers r) "X-ImgPro-Status" = Some "cached").
Proof.
  split_and!; try (vm_compute; reflexivity).
  eexists. split; [vm_compute; reflexivity|].
  split_and!; [discriminate|reflexivity..].
Qed.

(** ** The usage tracker *)

Section TrackerFacts.
Import SiteUsageTracker SiteUsageTracker.STORAGE_KEYS.

Lemma fetch_counters ev st :
  requests (mem (fst (fetch ev st)))
  = requests (mem st) + request_of (initialized (mem st)) ev
  ∧ cacheHits (mem (fst (fetch ev st))) = cacheHits (mem st) + hit_of ev
  ∧ cacheMisses (mem (fst (fetch ev st))) = cacheMisses (mem st) + miss_of ev
  ∧ d1Failures (mem (fst (fetch ev st))) = d1Failures (mem st)
  ∧ pendingAlarm (fst (fetch ev st)) = pendingAlarm st
  ∧ billed (fst (fetch ev st)) = billed st.
Proof.
  unfold fetch, hit_of, miss_of, request_of.
  destruct (payload ev) as [| |m].
  - cbn; repeat split; lia.
  - destruct (initialized (mem st)); cbn; repeat split; lia.
  - destruct (initialized (mem st)), (e_put_ok ev), (cacheHit m); cbn;
      repeat split; lia.
Qed.

Lemma fetch_initialized ev st :
  initialized (mem (fst (fetch ev st)))
  = initialized_after (initialized (mem st)) ev.
Proof.
  unfold fetch, initialized_after.
  destruct (payload ev) as [| |m]; [done| |].
  - destruct (initialized (mem st)) eqn:E; cbn; by rewrite ?E.
  - destruct (initialized (mem st)) eqn:E, (e_put_ok ev); cbn; by rewrite ?E.
Qed.

Lemma hit_miss_bounds ev :
  0 ≤ hit_of ev ∧ 0 ≤ miss_of ev.
Proof.
  unfold hit_of, miss_of. destruct (payload ev) as [| |m]; [lia..|].
  destruct (cacheHit m); lia.
Qed.

Lemma counted_bounds evs : 0 ≤ hits_counted evs ∧ 0 ≤ misses_counted evs.
Proof.
  induction evs as [|ev evs IH]; simpl; [lia|].
  pose proof (hit_miss_bounds ev). lia.
Qed.

(** A body that is not [null] adds to [requests] what it adds to the hits
    and the misses together. *)
Lemma request_of_typed init ev :
  Accounting.typed ev → request_of init ev = hit_of ev + miss_of ev.
Proof.
  unfold Accounting.typed, request_of, hit_of, miss_of.
  destruct (payload ev) as [| |m]; [done|done|]. by destruct (cacheHit m).
Qed.

Lemma events_counted_sum init evs :
  Forall Accounting.typed evs →
  events_counted init evs = hits_counted evs + misses_counted evs.
Proof.
  intros Hevs. revert init.
  induction Hevs as [|ev evs Hev _ IH]; intros init; [done|].
  cbn [events_counted hits_counted misses_counted List.fold_right].
  fold (hits_counted evs) (misses_counted evs).
  rewrite IH, (request_of_typed _ _ Hev). lia.
Qed.

(** What the record-events handled during a write change. *)
Lemma handle_events_counters evs st :
  requests (mem (handle_events evs st))
  = requests (mem st) + events_counted (initialized (mem st)) evs
  ∧ cacheHits (mem (handle_events evs st)) = cacheHits (mem st) + hits_counted evs
  ∧ cacheMisses (mem (handle_events evs st))
    = cacheMisses (mem st) + misses_counted evs
  ∧ d1Failures (mem (handle_events evs st)) = d1Failures (mem st)
  ∧ pendingAlarm (handle_events evs st) = pendingAlarm st
  ∧ billed (handle_events evs st) = billed st.
Proof.
  unfold handle_events. revert st.
  induction evs as [|ev evs IH]; intros st; simpl; [repeat split; lia|].
  destruct (IH (fst (fetch ev st))) as (Hr & Hh & Hm & Hf & Ha & Hb).
  destruct (fetch_counters ev st) as (Hr' & Hh' & Hm' & Hf' & Ha' & Hb').
  rewrite Hr, Hh, Hm, Hf, Ha, Hb, Hr', Hh', Hm', Hf', Ha', Hb'.
  rewrite (fetch_initialized ev st).
  repeat split; lia.
Qed.

(** Memory and storage after a run of the flush whose billing write
    succeeded. *)
Lemma alarm_success_state (run : Run) (st : DO) :
  requests (mem st) ≠ 0 →
  d1_ok run = true →
  let live := handle_events (during_write run) st in
  let st' := fst (alarm true run st) in
  requests (mem st') = requests (mem live) - requests (mem st)
  ∧ cacheHits (mem st') = cacheHits (mem live) - cacheHits (mem st)
  ∧ cacheMisses (mem st') = cacheMisses (mem live) - cacheMisses (mem st)
  ∧ d1Failures (mem st') = 0
  ∧ storage st'
    = if put_ok run then
        <[D1_FAILURES := Num 0]>
          (<[CACHE_MISSES := Num (cacheMisses (mem st'))]>
             (<[CACHE_HITS := Num (cacheHits (mem st'))]>
                (<[REQUESTS := Num (requests (mem st'))]> (storage live))))
      else storage live.
Proof.
  intros Hactive Hd1 live st'. subst st'.
  unfold alarm. cbn [negb].
  rewrite (proj2 (Z.eqb_neq _ _) Hactive), Hd1. fold live.
  unfold reschedule.
  destruct (put_ok run), (setAlarm_ok run); cbn; repeat split; lia.
Qed.

(** C1. In a run of the flush whose billing write succeeds, each of the
    three counters ends as its value when the write returned minus the
    amount captured before the write, so it ends as what the record-events
    handled during the write added, not as zero; the failure counter is 0;
    the batch sent carries the captured amounts; and the put that follows
    stores the decremented counters and a failure counter of 0 (storage
    keeps its content when that put is refused). *)
Theorem flush_success_subtracts_snapshot (run : Run) (st : DO) :
  requests (mem st) ≠ 0 →
  d1_ok run = true →
  let live := handle_events (during_write run) st in
  let st' := fst (alarm true run st) in
  requests (mem st') = requests (mem live) - requests (mem st)
  ∧ cacheHits (mem st') = cacheHits (mem live) - cacheHits (mem st)
  ∧ cacheMisses (mem st') = cacheMisses (mem live) - cacheMisses (mem st)
  ∧ requests (mem st') = events_counted (initialized (mem st)) (during_write run)
  ∧ cacheHits (mem st') = hits_counted (during_write run)
  ∧ cacheMisses (mem st') = misses_counted (during_write run)
  ∧ d1Failures (mem st') = 0
  ∧ billed st'
    = billed st ++ [mkBatch (siteId (mem st)) (requests (mem st))
                      (cacheHits (mem st)) (cacheMisses (mem st))
                      (now_ms run / 1000) (hour_ms run / 3600000 * 3600)]
  ∧ storage st'
    = if put_ok run then
        <[D1_FAILURES := Num 0]>
          (<[CACHE_MISSES := Num (cacheMisses (mem st'))]>
             (<[CACHE_HITS := Num (cacheHits (mem st'))]>
                (<[REQUESTS := Num (requests (mem st'))]> (storage live))))
      else storage live.
Proof.
  intros Hactive Hd1 live st'.
  destruct (handle_events_counters (during_write run) st)
    as (Hr & Hh & Hm & _ & _ & Hb).
  fold live in Hr, Hh, Hm, Hb.
  destruct (alarm_success_state run st Hactive Hd1)
    as (Hr' & Hh' & Hm' & Hf' & Hsto').
  fold live st' in Hr', Hh', Hm', Hf', Hsto'.
  split_and!; try lia; try done.
  subst st'. fold live in Hb. rewrite <- Hb.
  unfold alarm. cbn [negb].
  rewrite (proj2 (Z.eqb_neq _ _) Hactive), Hd1. fold live.
  unfold reschedule.
  destruct (put_ok run), (setAlarm_ok run); reflexivity.
Qed.

(** The batch of a later successful run carries what memory then holds. *)
Lemma alarm_bills_memory run st :
  requests (mem st) ≠ 0 →
  d1_ok run = true →
  billed (fst (alarm true run st))
  = billed st ++ [mkBatch (siteId (mem st)) (requests (mem st))
                    (cacheHits (mem st)) (cacheMisses (mem st))
                    (now_ms run / 1000) (hour_ms run / 3600000 * 3600)].
Proof.
  intros Hactive Hd1.
  destruct (handle_events_counters (during_write run) st)
    as (_ & _ & _ & _ & _ & Hb).
  unfold alarm. cbn [negb].
  rewrite (proj2 (Z.eqb_neq _ _) Hactive), Hd1. unfold reschedule.
  destruct (put_ok run), (setAlarm_ok run); cbn; by rewrite Hb.
Qed.

(** The state a run of the flush leaves after a billing write that failed. *)
Lemma alarm_failure_state (run : Run) (st : DO) :
  requests (mem st) ≠ 0 →
  d1_ok run = false →
  let live := handle_events (during_write run) st in
  let st' := fst (alarm true run st) in
  billed st' = billed st
  ∧ d1Failures (mem st') = d1Failures (mem st) + 1
  ∧ requests (mem st') = requests (mem live)
  ∧ cacheHits (mem st') = cacheHits (mem live)
  ∧ cacheMisses (mem st') = cacheMisses (mem live)
  ∧ storage st'
    = (if put_ok run
       then <[D1_FAILURES := Num (d1Failures (mem st) + 1)]> (storage live)
       else storage live)
  ∧ console st'
    = console live ++ failure_lines run st live
        ++ (if setAlarm_ok run then []
            else [RescheduleFailed (domain (mem st))]).
Proof.
  intros Hactive Hd1 live st'.
  destruct (handle_events_counters (during_write run) st)
    as (Hr & Hh & Hm & Hf & Ha & Hb).
  fold live in Hr, Hh, Hm, Hf, Ha, Hb.
  subst st'. unfold alarm, failure_lines. cbn [negb].
  rewrite (proj2 (Z.eqb_neq _ _) Hactive), Hd1. fold live.
  unfold reschedule.
  destruct (put_ok run), (setAlarm_ok run); cbn; rewrite ?Hf;
    try destruct (d1Failures (mem st) + 1 >=? D1_FAILURE_ALERT_THRESHOLD);
    cbn; rewrite ?Hb, ?Hf, <- ?app_assoc, ?app_nil_r;
    repeat split; reflexivity.
Qed.

(** C2, as the code has it. In a run of the flush whose billing write
    fails, the handler leaves the three counters as they are when the write
    returns (their values before the run plus what the record-events
    handled meanwhile added), sends no batch and adds one to the failure
    counter in memory. When the put of that counter is accepted, storage
    holds it and the alert is printed if it has reached 5; when the put is
    refused, storage keeps its content and the storage error is printed in
    place of the failure line and the alert. The next successful run sends
    the amounts so kept. *)
Theorem flush_failure_keeps_counters (run : Run) (st : DO) :
  requests (mem st) ≠ 0 →
  d1_ok run = false →
  let live := handle_events (during_write run) st in
  let st' := fst (alarm true run st) in
  requests (mem st') = requests (mem live)
  ∧ cacheHits (mem st') = cacheHits (mem live)
  ∧ cacheMisses (mem st') = cacheMisses (mem live)
  ∧ requests (mem st')
    = requests (mem st) + events_counted (initialized (mem st)) (during_write run)
  ∧ cacheHits (mem st') = cacheHits (mem st) + hits_counted (during_write run)
  ∧ cacheMisses (mem st')
    = cacheMisses (mem st) + misses_counted (during_write run)
  ∧ d1Failures (mem st') = d1Failures (mem st) + 1
  ∧ billed st' = billed st
  ∧ storage st'
    = (if put_ok run
       then <[D1_FAILURES := Num (d1Failures (mem st) + 1)]> (storage live)
       else storage live)
  ∧ console st'
    = console live ++ failure_lines run st live
        ++ (if setAlarm_ok run then []
            else [RescheduleFailed (domain (mem st))])
  ∧ (Alert (d1Failures (mem st) + 1) (siteId (mem st)) (domain (mem st))
       (requests (mem live)) ∈ failure_lines run st live
     ↔ put_ok run = true ∧ 5 ≤ d1Failures (mem st) + 1)
  ∧ (∀ next, requests (mem st') ≠ 0 → d1_ok next = true →
       billed (fst (alarm true next st'))
       = billed st ++ [mkBatch (siteId (mem st')) (requests (mem st'))
                         (cacheHits (mem st')) (cacheMisses (mem st'))
                         (now_ms next / 1000) (hour_ms next / 3600000 * 3600)]).
Proof.
  intros Hactive Hd1 live st'.
  destruct (handle_events_counters (during_write run) st)
    as (Hr & Hh & Hm & Hf & Ha & Hb).
  fold live in Hr, Hh, Hm, Hf, Ha, Hb.
  destruct (alarm_failure_state run st Hactive Hd1)
    as (Hbilled & Hfail & Hreq & Hhit & Hmiss & Hsto & Hcon).
  fold live st' in Hbilled, Hfail, Hreq, Hhit, Hmiss, Hsto, Hcon.
  assert (∀ lines,
            lines = failure_lines run st live →
            Alert (d1Failures (mem st) + 1) (siteId (mem st)) (domain (mem st))
              (requests (mem live)) ∈ lines
            ↔ put_ok run = true ∧ 5 ≤ d1Failures (mem st) + 1) as Halert.
  { intros lines ->. unfold failure_lines, D1_FAILURE_ALERT_THRESHOLD.
    destruct (put_ok run).
    - destruct (Z.geb_spec (d1Failures (mem st) + 1) 5) as [Hge|Hlt].
      + split; [by intros _; split; [|lia]|]. intros _.
        apply elem_of_cons. right. apply elem_of_cons. by left.
      + split; [|lia].
        intros [Habs|Hin]%elem_of_cons; [discriminate|].
        by apply elem_of_nil in Hin.
    - split; [|by intros [? _]].
      intros [Habs|Hin]%elem_of_cons; [discriminate|].
      by apply elem_of_nil in Hin. }
  split_and!; try lia; try done.
  - by apply Halert.
  - intros next Hnext Hok. rewrite <- Hbilled. by apply alarm_bills_memory.
Qed.
(** C10. Every run of the flush with the billing database bound returns
    normally and ends by setting the alarm 60 seconds ahead, whether the
    billing write and the puts succeed or fail and also when there is
    nothing to flush; the alarm is as set whenever that last call is
    accepted. With the database unbound the run clears storage and cancels
    the alarm instead, and the constructor then sets none. *)
Theorem alarm_always_reschedules (run : Run) (st : DO) :
  (snd (alarm true run st) = Ok tt
   ∧ pendingAlarm (fst (alarm true run st))
     = if setAlarm_ok run then Some (reschedule_ms run + 60000)
       else pendingAlarm st)
  ∧ (pendingAlarm (fst (alarm false run st))
     = if deleteAll_ok run && deleteAlarm_ok run then None else pendingAlarm st)
  ∧ storage (fst (alarm false run st))
    = (if deleteAll_ok run then ∅ else storage st)
  ∧ requests (mem (fst (alarm false run st))) = 0
  ∧ cacheHits (mem (fst (alarm false run st))) = 0
  ∧ cacheMisses (mem (fst (alarm false run st))) = 0
  ∧ (∀ clock after,
       pendingAlarm (construct false clock after) = pendingAlarm after).
Proof.
  destruct (handle_events_counters (during_write run) st)
    as (_ & _ & _ & _ & Ha & _).
  split_and!; [| | | | | | |
    intros clock after; unfold construct; by rewrite andb_false_r].
  - unfold alarm. cbn [negb]. by destruct (requests (mem st) =? 0).
  - unfold alarm, reschedule. cbn [negb].
    destruct (requests (mem st) =? 0); [by destruct (setAlarm_ok run)|].
    destruct (d1_ok run), (put_ok run), (setAlarm_ok run); cbn;
      try match goal with
          | |- context [if ?b then _ else _] => destruct b; cbn
          end;
      first [reflexivity | exact Ha].
  - unfold alarm. cbn [negb].
    by destruct (deleteAll_ok run), (deleteAlarm_ok run).
  - unfold alarm. cbn [negb].
    by destruct (deleteAll_ok run), (deleteAlarm_ok run).
  - unfold alarm. cbn [negb].
    by destruct (deleteAll_ok run), (deleteAlarm_ok run).
  - unfold alarm. cbn [negb].
    by destruct (deleteAll_ok run), (deleteAlarm_ok run).
  - unfold alarm. cbn [negb].
    by destruct (deleteAll_ok run), (deleteAlarm_ok run).
Qed.

(** A run that finds the billing write and the put failing still sets
    the alarm. *)
Example reschedule_after_double_failure :
  pendingAlarm
    (fst (alarm true (mkRun 1000 1000 2000 [] false false true true true)
            (mkDO (mkMemory 7 "example.com" 3 2 1 4 true) ∅ None [] [])))
  = Some 62000.
Proof. vm_compute. reflexivity. Qed.

Ltac key_lookup :=
  repeat first
    [ rewrite lookup_insert_eq
    | rewrite lookup_insert_ne
        by (unfold D1_FAILURES, CACHE_MISSES, CACHE_HITS, REQUESTS;
            discriminate) ].

(** Storage, read back as the constructor reads it. *)
Lemma stored_after_put (updates s : gmap string Value) (r h m : Z) :
  updates !! REQUESTS = Some (Num r) →
  updates !! CACHE_HITS = Some (Num h) →
  updates !! CACHE_MISSES = Some (Num m) →
  updates !! D1_FAILURES = None →
  0 ≤ r → 0 ≤ h → 0 ≤ m → r = h + m →
  counters_ok (loadFromStorage s) →
  counters_ok (loadFromStorage (updates ∪ s)).
Proof.
  intros Hr Hh Hm Hf ? ? ? ? (_ & _ & _ & Hd & _).
  unfold counters_ok, loadFromStorage in *.
  cbn [requests cacheHits cacheMisses d1Failures] in *.
  rewrite (lookup_union_Some_l _ _ _ _ Hr), (lookup_union_Some_l _ _ _ _ Hh),
    (lookup_union_Some_l _ _ _ _ Hm), (lookup_union_r _ _ _ Hf).
  cbn [number_or_0]. lia.
Qed.

Lemma stored_after_flush (s : gmap string Value) (r h m f : Z) :
  0 ≤ r → 0 ≤ h → 0 ≤ m → 0 ≤ f → r = h + m →
  counters_ok
    (loadFromStorage
       (<[D1_FAILURES := Num f]>
          (<[CACHE_MISSES := Num m]>
             (<[CACHE_HITS := Num h]> (<[REQUESTS := Num r]> s))))).
Proof.
  intros. unfold counters_ok, loadFromStorage.
  cbn [requests cacheHits cacheMisses d1Failures].
  key_lookup. cbn [number_or_0]. lia.
Qed.

Lemma stored_after_failure (s : gmap string Value) (f : Z) :
  0 ≤ f →
  counters_ok (loadFromStorage s) →
  counters_ok (loadFromStorage (<[D1_FAILURES := Num f]> s)).
Proof.
  intros ? (? & ? & ? & _ & ?). unfold counters_ok, loadFromStorage in *.
  cbn [requests cacheHits cacheMisses d1Failures] in *.
  key_lookup. cbn [number_or_0]. lia.
Qed.

Lemma stored_empty : counters_ok (loadFromStorage ∅).
Proof.
  unfold counters_ok, loadFromStorage.
  cbn [requests cacheHits cacheMisses d1Failures].
  rewrite !lookup_empty. cbn [number_or_0]. lia.
Qed.

Lemma fetch_invariant ev st :
  Accounting.typed ev → invariant st → invariant (fst (fetch ev st)).
Proof.
  intros Hev [Hmem Hsto].
  destruct (fetch_counters ev st) as (Hr & Hh & Hm & Hf & _ & _).
  rewrite (request_of_typed _ _ Hev) in Hr.
  pose proof (hit_miss_bounds ev) as [? ?].
  assert (counters_ok (mem (fst (fetch ev st)))) as Hmem'.
  { unfold counters_ok in *. rewrite Hr, Hh, Hm, Hf. lia. }
  split; [exact Hmem'|].
  destruct Hmem' as (? & ? & ? & ? & ?).
  revert H1 H2 H3 H4 H5. clear Hr Hh Hm Hf.
  unfold Accounting.typed in Hev.
  unfold fetch. destruct (payload ev) as [| |m]; [by intros|done|].
  destruct (initialized (mem st)), (e_put_ok ev); cbn [fst];
    try (intros; exact Hsto);
    intros; cbn [storage with_storage with_mem mem log];
    eapply stored_after_put; try reflexivity; try done.
Qed.

Lemma handle_events_invariant evs st :
  Forall Accounting.typed evs →
  invariant st → invariant (handle_events evs st).
Proof.
  unfold handle_events. intros Hevs. revert st.
  induction Hevs as [|ev evs Hev _ IH]; intros st Hst; simpl; [done|].
  apply IH. by apply fetch_invariant.
Qed.

Lemma construct_invariant billing clock st :
  invariant st → invariant (construct billing clock st).
Proof.
  intros [_ Hsto]. unfold construct, invariant.
  cbn [pendingAlarm with_mem].
  destruct (negb _ && billing); cbn [mem storage with_mem with_alarm];
    by split.
Qed.

Lemma alarm_invariant billing run st :
  Forall Accounting.typed (during_write run) →
  invariant st → invariant (fst (alarm billing run st)).
Proof.
  intros Hevs Hst. destruct billing.
  - destruct (Z.eq_dec (requests (mem st)) 0) as [Hidle|Hactive].
    { unfold alarm, reschedule. cbn [negb]. rewrite Hidle. cbn [Z.eqb fst].
      by destruct (setAlarm_ok run). }
    pose proof (handle_events_invariant (during_write run) st Hevs Hst)
      as [Hlive Hstored].
    destruct (handle_events_counters (during_write run) st)
      as (Hr & Hh & Hm & Hf & _ & _).
    rewrite (events_counted_sum _ _ Hevs) in Hr.
    pose proof (counted_bounds (during_write run)) as [? ?].
    destruct Hst as [(? & ? & ? & ? & ?) _].
    destruct (d1_ok run) eqn:Hd1.
    + destruct (alarm_success_state run st Hactive Hd1)
        as (Hr' & Hh' & Hm' & Hf' & Hsto').
      assert (counters_ok (mem (fst (alarm true run st)))) as Hmem'.
      { unfold counters_ok. rewrite Hr', Hh', Hm', Hf', Hr, Hh, Hm. lia. }
      split; [exact Hmem'|]. rewrite Hsto'.
      destruct (put_ok run); [|exact Hstored].
      destruct Hmem' as (? & ? & ? & _ & ?).
      by apply stored_after_flush.
    + destruct (alarm_failure_state run st Hactive Hd1)
        as (_ & Hf' & Hr' & Hh' & Hm' & Hsto' & _).
      split.
      * destruct Hlive as (? & ? & ? & ? & ?).
        unfold counters_ok. rewrite Hr', Hh', Hm', Hf'. lia.
      * rewrite Hsto'. destruct (put_ok run); [|exact Hstored].
        apply stored_after_failure; [lia|exact Hstored].
  - destruct Hst as [(? & ? & ? & ? & ?) Hstored].
    unfold alarm. cbn [negb].
    destruct (deleteAll_ok run), (deleteAlarm_ok run); cbn [fst];
      (split; [unfold counters_ok; cbn; lia|]);
      first [exact Hstored | exact stored_empty].
Qed.

(** Every operation that handles no [null] body keeps the counters
    non-negative and [requests = cacheHits + cacheMisses], in memory and as
    stored. *)
Lemma step_invariant (billing : bool) (op : Op) (st : DO) :
  Accounting.typed_op op → invariant st → invariant (step billing op st).
Proof.
  intros Hop Hst. destruct op as [clock|ev|run]; cbn [step].
  - by apply construct_invariant.
  - by apply fetch_invariant.
  - by apply alarm_invariant.
Qed.

Lemma fresh_invariant : invariant fresh.
Proof.
  split; [unfold counters_ok; cbn; lia|]. exact stored_empty.
Qed.


(** Three requests flushed while a fourth arrives: one is left. *)
Lemma flush_success_subtracts_snapshot_witness :
  requests (mem (fst (alarm true (Demo.run true) Demo.counting)))
  = requests (mem (handle_events (during_write (Demo.run true)) Demo.counting))
    - requests (mem Demo.counting)
  ∧ requests (mem (fst (alarm true (Demo.run true) Demo.counting))) = 1.
Proof.
  split.
  - refine (proj1 (flush_success_subtracts_snapshot (Demo.run true)
                     Demo.counting _ _)); [discriminate|reflexivity].
  - reflexivity.
Defined.

(** C2, as stated, fails: in the fifth failing run in a row, with the put
    refused, the failure counter reaches 5 in memory while storage still
    holds 4, and the console shows the storage error and no alert. *)
Lemma refused_put_hides_alert :
  d1Failures (mem (fst (alarm true Demo.double_failure Demo.counting))) = 5
  ∧ D1_FAILURE_ALERT_THRESHOLD
    ≤ d1Failures (mem (fst (alarm true Demo.double_failure Demo.counting)))
  ∧ storage (fst (alarm true Demo.double_failure Demo.counting)) !! D1_FAILURES
    = Some (Num 4)
  ∧ console (fst (alarm true Demo.double_failure Demo.counting))
    = [StorageFailedTrackingFailure "example.com"]
  ∧ ¬ (∃ failures site name accumulated,
         Alert failures site name accumulated
         ∈ console (fst (alarm true Demo.double_failure Demo.counting))).
Proof.
  split_and!; [reflexivity|by vm_compute|reflexivity|reflexivity|].
  intros (failures & site & name & accumulated & Hin).
  change (console (fst (alarm true Demo.double_failure Demo.counting)))
    with [StorageFailedTrackingFailure "example.com"] in Hin.
  apply elem_of_cons in Hin as [Habs|Hin]; [discriminate|].
  by apply elem_of_nil in Hin.
Qed.

(** The fifth failure in a row: counters kept, alert printed. *)
Lemma flush_failure_keeps_counters_witness :
  requests (mem (fst (alarm true (Demo.run false) Demo.counting)))
  = requests (mem (handle_events (during_write (Demo.run false)) Demo.counting))
  ∧ console (fst (alarm true (Demo.run false) Demo.counting))
    = [D1WriteFailed "example.com" 5 4; Alert 5 7 "example.com" 4].
Proof.
  split.
  - refine (proj1 (flush_failure_keeps_counters (Demo.run false)
                     Demo.counting _ _)); [discriminate|reflexivity].
  - reflexivity.
Defined.

End TrackerFacts.

(** * Further properties of the code *)

(** ** validation.ts *)

Lemma not_alnum_not_digit c :
  Validation.alnum_char c = false → Js.is_digit c = false.
Proof.
  unfold Validation.alnum_char. intros H.
  apply orb_false_iff in H as [_ H]. exact H.
Qed.

Lemma first_char_alnum c rest :
  Validation.isValidDomain (String c rest) = true →
  Validation.alnum_char c = true.
Proof.
  intros Hd. destruct (Validation.alnum_char c) eqn:Hc; [done|].
  pose proof (not_alnum_not_digit c Hc) as Hdigit.
  unfold Validation.isValidDomain in Hd.
  destruct (String.eqb_spec (String c rest) "localhost") as [[= -> _]|_];
    [discriminate|].
  cbn [orb] in Hd.
  assert (Regex.test Validation.ipv4_re (String c rest) = false) as Hip.
  { cbn [Regex.test]. apply dead_test.
    cbn. by rewrite Hdigit. }
  rewrite Hip in Hd.
  assert (Regex.test Validation.domain_re (String c rest) = false) as Hdom.
  { cbn [Regex.test]. apply dead_test.
    cbn. by rewrite Hc. }
  congruence.
Qed.

Lemma string_forall_not_includes P c s :
  P c = false →
  Js.string_forall P s = true →
  Js.includes s (String c EmptyString) = false.
Proof.
  intros Hc. induction s as [|d s IH]; [done|].
  cbn [Js.string_forall Js.includes Js.startsWith].
  intros [Hd Hs]%andb_true_iff. rewrite (IH Hs), orb_false_r.
  destruct (Ascii.eqb_spec c d) as [->|]; [congruence|done].
Qed.

(** X1. A domain the validator accepts is not empty, starts with a letter
    or a digit, and is made of letters, digits, hyphens and dots only; so
    it holds no slash, colon, at-sign, percent sign, question mark, hash
    or space. *)
Theorem isValidDomain_alphabet (d : string) :
  Validation.isValidDomain d = true →
  (∃ c rest, d = String c rest ∧ Validation.alnum_char c = true)
  ∧ Js.string_forall Validation.domain_char d = true
  ∧ Js.includes d "/" = false ∧ Js.includes d ":" = false
  ∧ Js.includes d "@" = false ∧ Js.includes d "%" = false
  ∧ Js.includes d "?" = false ∧ Js.includes d "#" = false
  ∧ Js.includes d " " = false.
Proof.
  intros Hd. pose proof (isValidDomain_chars d Hd) as Hchars.
  split_and!; try (by apply (string_forall_not_includes Validation.domain_char)).
  - destruct d as [|c rest]; [vm_compute in Hd; discriminate|].
    exists c, rest. split; [done|]. by eapply first_char_alnum.
  - done.
Qed.

Lemma isValidDomain_alphabet_witness :
  Js.string_forall Validation.domain_char "cdn-1.example.com" = true.
Proof.
  refine (proj1 (proj2 (isValidDomain_alphabet "cdn-1.example.com" _))).
  vm_compute. reflexivity.
Defined.

Lemma hex_digit_url_char (c : ascii) :
  Policy.url_char (Js.hex_digit (Js.code c / 16)) = true
  ∧ Policy.url_char (Js.hex_digit (Js.code c mod 16)) = true.
Proof. destruct c as [[] [] [] [] [] [] [] []]; split; reflexivity. Qed.

Lemma encodeURIComponent_url_char s :
  Js.string_forall Policy.url_char (Js.encodeURIComponent s) = true.
Proof.
  induction s as [|c s IH]; [done|].
  cbn [Js.encodeURIComponent].
  destruct (Js.is_unreserved c) eqn:Hc; cbn [Js.string_forall].
  - rewrite IH, andb_true_r. unfold Policy.url_char. by rewrite Hc.
  - destruct (hex_digit_url_char c) as [-> ->]. by rewrite IH.
Qed.

Lemma string_forall_join P (sep : ascii) parts :
  P sep = true →
  Forall (λ x, Js.string_forall P x = true) parts →
  Js.string_forall P (Js.join (String sep EmptyString) parts) = true.
Proof.
  intros Hsep. induction 1 as [|x xs Hx Hxs IH]; [done|].
  destruct xs as [|y ys]; [done|].
  change (Js.join (String sep EmptyString) (x :: y :: ys))
    with (x +:+ String sep EmptyString
            +:+ Js.join (String sep EmptyString) (y :: ys)).
  rewrite !string_forall_app, Hx, IH. cbn [Js.string_forall]. by rewrite Hsep.
Qed.

Lemma domain_char_url_char c :
  Validation.domain_char c = true → Policy.url_char c = true.
Proof. destruct c as [[] [] [] [] [] [] [] []]; vm_compute; done. Qed.

Lemma encoded_path_url_char p :
  Js.string_forall Policy.url_char
    (Js.join "/" (List.map Js.encodeURIComponent (Js.split "/" p))) = true.
Proof.
  apply string_forall_join; [done|].
  apply Forall_forall. intros x Hx. apply list_elem_of_In in Hx.
  apply in_map_iff in Hx as [y [<- _]].
  apply encodeURIComponent_url_char.
Qed.

(** What a successful parse returns, whatever the path was. *)
Lemma parseUrl_Ok url p :
  Validation.parseUrl url = Ok p →
  ∃ rest,
    Validation.isValidDomain (Validation.domain p) = true
    ∧ Validation.path p = String "/" rest
    ∧ Validation.cacheKey p = Validation.domain p +:+ Validation.path p
    ∧ Validation.sourceUrl p
      = "https://" +:+ Validation.domain p
          +:+ Js.join "/" (List.map Js.encodeURIComponent
                             (Js.split "/" (Validation.path p))).
Proof.
  unfold Validation.parseUrl.
  destruct (Js.decodeURIComponent (Validation.pathname url)) as [decoded|];
    [|discriminate].
  destruct (length _ <? 2)%nat; [discriminate|].
  destruct (Validation.isValidDomain _) eqn:Hd; [|discriminate].
  cbn [negb]. intros [= <-]. cbn. eauto.
Qed.

(** X2. Every successful parse returns a domain the validator accepts, a
    path that starts with a slash, the cache key [domain + path], and a
    source URL [https://domain] followed by the path encoded segment by
    segment; that URL is made of unreserved characters, percent escapes,
    slashes and the colon of the scheme only, so no query, fragment or
    user-info part can come from the request path. *)
Theorem parseUrl_output (url : Validation.URL) (p : Validation.ParsedUrl) :
  Validation.parseUrl url = Ok p →
  Validation.isValidDomain (Validation.domain p) = true
  ∧ Js.startsWith (Validation.path p) "/" = true
  ∧ Validation.cacheKey p = Validation.domain p +:+ Validation.path p
  ∧ Validation.sourceUrl p
    = "https://" +:+ Validation.domain p
        +:+ Js.join "/" (List.map Js.encodeURIComponent
                           (Js.split "/" (Validation.path p)))
  ∧ Js.startsWith (Validation.sourceUrl p)
      ("https://" +:+ Validation.domain p +:+ "/") = true
  ∧ Js.string_forall Policy.url_char (Validation.sourceUrl p) = true
  ∧ Js.includes (Validation.sourceUrl p) "?" = false
  ∧ Js.includes (Validation.sourceUrl p) "#" = false
  ∧ Js.includes (Validation.sourceUrl p) "@" = false
  ∧ Js.includes (Validation.sourceUrl p) " " = false.
Proof.
  intros (rest & Hd & Hpath & Hkey & Hsrc)%parseUrl_Ok.
  assert (Js.string_forall Policy.url_char (Validation.sourceUrl p) = true)
    as Hsafe.
  { rewrite Hsrc.
    change ("https://" +:+ Validation.domain p +:+ ?x)
      with ("https://" +:+ (Validation.domain p +:+ x)).
    rewrite !string_forall_app, encoded_path_url_char.
    rewrite (string_forall_impl _ _ _ domain_char_url_char
               (isValidDomain_chars _ Hd)).
    reflexivity. }
  split_and!; try done;
    try (by apply (string_forall_not_includes Policy.url_char)).
  - rewrite Hpath. by destruct rest.
  - rewrite Hsrc, Hpath.
    pose proof (split_not_nil "/" rest) as Hnil.
    change (Js.split "/" (String "/" rest)) with (EmptyString :: Js.split "/" rest).
    destruct (Js.split "/" rest) as [|x xs]; [done|].
    clear. generalize (Validation.domain p). intros d.
    change (Js.join "/" (List.map Js.encodeURIComponent (EmptyString :: x :: xs)))
      with ("/" +:+ Js.join "/" (List.map Js.encodeURIComponent (x :: xs))).
    generalize (Js.join "/" (List.map Js.encodeURIComponent (x :: xs))).
    intros t.
    change (Js.startsWith ("https://" +:+ d +:+ "/" +:+ t)
              ("https://" +:+ d +:+ "/"))
      with (Js.startsWith (d +:+ String "/" t) (d +:+ "/")).
    induction d as [|c d IH]; [by destruct t|].
    cbn [String.append Js.startsWith]. by rewrite Ascii.eqb_refl.
Qed.

Lemma parseUrl_output_witness :
  Js.includes "https://example.com/a%3Fb%23c/d%20e.jpg" "?" = false.
Proof.
  refine (proj1 (proj2 (proj2 (proj2 (proj2 (proj2 (proj2
            (parseUrl_output
               (Validation.mkURL "/example.com/a%3Fb%23c/d%20e.jpg" [])
               (Validation.mkParsedUrl "example.com" "/a?b#c/d e.jpg"
                  "https://example.com/a%3Fb%23c/d%20e.jpg"
                  "example.com/a?b#c/d e.jpg" false false) _)))))))).
  vm_compute. reflexivity.
Defined.

Lemma split_concat sep a b :
  Js.split sep (a +:+ String sep b) = Js.split sep a ++ Js.split sep b.
Proof.
  induction a as [|c a IH]; cbn [String.append Js.split].
  - by rewrite Ascii.eqb_refl.
  - destruct (Ascii.eqb c sep); [by rewrite IH|].
    rewrite IH. pose proof (split_not_nil sep a) as Hnil.
    by destruct (Js.split sep a).
Qed.

(** For a source URL that parses, the allow-list is read entry by entry. *)
Lemma isAllowedOrigin_parsed (URL_hostname : string → option string)
    sourceUrl hostname allowedOrigins :
  URL_hostname sourceUrl = Some hostname →
  Validation.isAllowedOrigin URL_hostname sourceUrl allowedOrigins
  = List.existsb (Validation.origin_matches hostname)
      (Policy.entries allowedOrigins).
Proof.
  intros Hh. unfold Validation.isAllowedOrigin, Policy.entries. rewrite Hh.
  by destruct (String.eqb_spec allowedOrigins "*") as [->|].
Qed.

(** X3. For a source URL that parses, joining two allow-lists with a comma
    allows exactly what either list allows: an entry is never lost or
    narrowed by the entries around it. *)
Theorem isAllowedOrigin_union (URL_hostname : string → option string)
    (sourceUrl hostname a b : string) :
  URL_hostname sourceUrl = Some hostname →
  Validation.isAllowedOrigin URL_hostname sourceUrl (a +:+ "," +:+ b)
  = Validation.isAllowedOrigin URL_hostname sourceUrl a
    || Validation.isAllowedOrigin URL_hostname sourceUrl b.
Proof.
  intros Hh. rewrite !(isAllowedOrigin_parsed _ _ _ _ Hh).
  unfold Policy.entries.
  change (a +:+ "," +:+ b) with (a +:+ String "," b).
  by rewrite split_concat, map_app, existsb_app.
Qed.

Lemma isAllowedOrigin_union_witness :
  Validation.isAllowedOrigin Validation.simple_hostname
    "https://img.example.com/a.jpg" ("example.org" +:+ "," +:+ "*.example.com")
  = Validation.isAllowedOrigin Validation.simple_hostname
      "https://img.example.com/a.jpg" "example.org"
    || Validation.isAllowedOrigin Validation.simple_hostname
         "https://img.example.com/a.jpg" "*.example.com".
Proof.
  apply (isAllowedOrigin_union Validation.simple_hostname
           "https://img.example.com/a.jpg" "img.example.com").
  vm_compute. reflexivity.
Defined.

(** X4. A source URL the URL parser refuses is allowed by the allow-list
    [*] alone and by no other list, not even one that holds the entry [*]
    among others. *)
Theorem isAllowedOrigin_unparsed (URL_hostname : string → option string)
    (sourceUrl allowedOrigins : string) :
  URL_hostname sourceUrl = None →
  Validation.isAllowedOrigin URL_hostname sourceUrl allowedOrigins = true
  ↔ allowedOrigins = "*".
Proof.
  intros Hh. unfold Validation.isAllowedOrigin. rewrite Hh.
  destruct (String.eqb_spec allowedOrigins "*"); split; done.
Qed.

Lemma isAllowedOrigin_unparsed_witness :
  Validation.isAllowedOrigin Validation.simple_hostname "not a url" "*, example.com"
  = true ↔ "*, example.com" = "*".
Proof.
  apply (isAllowedOrigin_unparsed Validation.simple_hostname).
  vm_compute. reflexivity.
Defined.

Lemma lower_char_facts (c : ascii) :
  Js.lower_char (Js.lower_char c) = Js.lower_char c
  ∧ Js.is_space (Js.lower_char c) = Js.is_space c
  ∧ Ascii.eqb (Js.lower_char c) "," = Ascii.eqb c ","
  ∧ Ascii.eqb (Js.lower_char c) "*" = Ascii.eqb c "*".
Proof. destruct c as [[] [] [] [] [] [] [] []]; vm_compute; done. Qed.

Lemma toLowerCase_idempotent s :
  Js.toLowerCase (Js.toLowerCase s) = Js.toLowerCase s.
Proof.
  induction s as [|c s IH]; [done|]. cbn [Js.toLowerCase].
  by rewrite IH, (proj1 (lower_char_facts c)).
Qed.

Lemma toLowerCase_empty s :
  String.eqb (Js.toLowerCase s) "" = String.eqb s "".
Proof. by destruct s. Qed.

Lemma trimStart_lower s :
  Js.trimStart (Js.toLowerCase s) = Js.toLowerCase (Js.trimStart s).
Proof.
  induction s as [|c s IH]; [done|]. cbn [Js.toLowerCase Js.trimStart].
  destruct (lower_char_facts c) as (_ & -> & _).
  by destruct (Js.is_space c).
Qed.

Lemma trimEnd_lower s :
  Js.trimEnd (Js.toLowerCase s) = Js.toLowerCase (Js.trimEnd s).
Proof.
  induction s as [|c s IH]; [done|]. cbn [Js.toLowerCase Js.trimEnd].
  destruct (lower_char_facts c) as (_ & -> & _).
  rewrite IH, toLowerCase_empty.
  by destruct (Js.is_space c && String.eqb (Js.trimEnd s) "").
Qed.

Lemma split_lower s :
  Js.split "," (Js.toLowerCase s) = List.map Js.toLowerCase (Js.split "," s).
Proof.
  induction s as [|c s IH]; [done|]. cbn [Js.toLowerCase Js.split].
  destruct (lower_char_facts c) as (_ & _ & -> & _). rewrite IH.
  destruct (Ascii.eqb c ","); [done|].
  pose proof (split_not_nil "," s) as Hnil.
  by destruct (Js.split "," s).
Qed.

Lemma toLowerCase_star s :
  String.eqb (Js.toLowerCase s) "*" = String.eqb s "*".
Proof.
  destruct s as [|c s]; [done|]. cbn [Js.toLowerCase].
  destruct (lower_char_facts c) as (_ & _ & _ & Hstar).
  destruct (Ascii.eqb_spec c "*") as [->|Hne].
  - by destruct s.
  - apply Ascii.eqb_neq in Hstar.
    destruct (String.eqb_spec (String (Js.lower_char c) (Js.toLowerCase s)) "*")
      as [[= E _]|_], (String.eqb_spec (String c s) "*") as [[= E' _]|_];
      congruence.
Qed.

Lemma entries_lower allowedOrigins :
  Policy.entries (Js.toLowerCase allowedOrigins) = Policy.entries allowedOrigins.
Proof.
  unfold Policy.entries. rewrite split_lower, map_map.
  apply map_ext. intros o. unfold Js.trim.
  by rewrite trimStart_lower, trimEnd_lower, toLowerCase_idempotent.
Qed.

(** X5. The allow-list is read without regard to case: lower-casing the
    whole list changes the answer for no source URL. *)
Theorem isAllowedOrigin_case_insensitive
    (URL_hostname : string → option string) (sourceUrl allowedOrigins : string) :
  Validation.isAllowedOrigin URL_hostname sourceUrl (Js.toLowerCase allowedOrigins)
  = Validation.isAllowedOrigin URL_hostname sourceUrl allowedOrigins.
Proof.
  unfold Validation.isAllowedOrigin. rewrite toLowerCase_star.
  destruct (String.eqb allowedOrigins "*"); [done|].
  destruct (URL_hostname sourceUrl) as [hostname|]; [|done].
  fold (Policy.entries (Js.toLowerCase allowedOrigins)).
  fold (Policy.entries allowedOrigins).
  by rewrite entries_lower.
Qed.

(** ** origin.ts *)

Lemma forwarded_step_dom (req : Http.Request) (names : list string)
    (acc : gmap string string) (name : string) :
  is_Some (List.fold_left
             (λ forwarded header,
                match Http.headers_get (Http.req_headers req) header with
                | Some value =>
                    if String.eqb value "" then forwarded
                    else <[header := value]> forwarded
                | None => forwarded
                end) names acc !! name) →
  is_Some (acc !! name) ∨ In name names.
Proof.
  revert acc. induction names as [|n names IH]; intros acc; simpl; [auto|].
  intros [H|H]%IH; [|auto].
  destruct (Http.headers_get (Http.req_headers req) n) as [value|]; [|auto].
  destruct (String.eqb value ""); [auto|].
  destruct (decide (n = name)) as [->|Hne]; [auto|].
  rewrite lookup_insert_ne in H by done. auto.
Qed.

Lemma getForwardedHeaders_names clientRequest name :
  is_Some (Origin.getForwardedHeaders clientRequest !! name) →
  In name Origin.FORWARDED_HEADERS.
Proof.
  destruct clientRequest as [req|]; unfold Origin.getForwardedHeaders.
  - intros [H|H]%forwarded_step_dom; [|done].
    rewrite lookup_empty in H. by destruct H.
  - rewrite lookup_empty. by intros [? ?].
Qed.

Lemma in_outbound_names name :
  In name ["User-Agent"; "Accept"; "Accept-Language"; "Referer";
           "X-Forwarded-For"] ↔ name ∈ Policy.OUTBOUND_NAMES.
Proof.
  unfold Policy.OUTBOUND_NAMES. rewrite !elem_of_union, !elem_of_singleton.
  simpl. intuition.
Qed.

Lemma base_headers_names clientRequest name :
  is_Some ((Origin.getForwardedHeaders clientRequest ∪ Origin.FALLBACK_HEADERS)
             !! name) →
  name ∈ Policy.OUTBOUND_NAMES.
Proof.
  intros [v Hv]. apply lookup_union_Some_raw in Hv as [Hv|[_ Hv]].
  - apply in_outbound_names.
    pose proof (getForwardedHeaders_names clientRequest name (mk_is_Some _ _ Hv))
      as Hin.
    simpl in Hin. simpl. intuition.
  - apply in_outbound_names. unfold Origin.FALLBACK_HEADERS in Hv.
    destruct (decide (name = "User-Agent")) as [->|?]; [simpl; auto|].
    rewrite lookup_insert_ne in Hv by done.
    destruct (decide (name = "Accept")) as [->|?]; [simpl; auto|].
    by rewrite lookup_singleton_ne in Hv.
Qed.

Lemma insert_names (m : gmap string string) (k v name : string) :
  k ∈ Policy.OUTBOUND_NAMES →
  (∀ n, is_Some (m !! n) → n ∈ Policy.OUTBOUND_NAMES) →
  is_Some (<[k := v]> m !! name) → name ∈ Policy.OUTBOUND_NAMES.
Proof.
  intros Hk Hm. destruct (decide (k = name)) as [->|Hne]; [done|].
  rewrite lookup_insert_ne by done. apply Hm.
Qed.

Lemma outbound_headers_names env clientRequest name :
  is_Some (Origin.outbound_headers env clientRequest !! name) →
  name ∈ Policy.OUTBOUND_NAMES.
Proof.
  unfold Origin.outbound_headers.
  set (base := Origin.getForwardedHeaders clientRequest ∪ Origin.FALLBACK_HEADERS).
  assert (∀ n, is_Some (base !! n) → n ∈ Policy.OUTBOUND_NAMES) as Hbase
    by apply base_headers_names.
  set (ua := if Js.truthy (Origin.ORIGIN_USER_AGENT env) then _ else base).
  assert (∀ n, is_Some (ua !! n) → n ∈ Policy.OUTBOUND_NAMES) as Hua.
  { subst ua. destruct (Js.truthy _); [|done].
    intros n. apply insert_names; [|done]. by apply in_outbound_names; simpl; auto. }
  destruct (Origin.FORWARD_CLIENT_IP env) as [flag|]; [|by apply Hua].
  destruct clientRequest as [req|]; [|by apply Hua].
  destruct (String.eqb flag "true"); [|by apply Hua].
  destruct (Http.headers_get _ "cf-connecting-ip") as [ip|]; [|by apply Hua].
  destruct (String.eqb ip ""); [by apply Hua|].
  apply insert_names; [|done].
  apply in_outbound_names; simpl; auto 10.
Qed.

Lemma outbound_names_not_blocked name :
  name ∈ Policy.OUTBOUND_NAMES → Js.toLowerCase name ∉ Policy.BLOCKED_HEADERS.
Proof.
  intros Hin%in_outbound_names. simpl in Hin.
  destruct Hin as [<-|[<-|[<-|[<-|[<-|[]]]]]]; vm_compute; done.
Qed.

Lemma outbound_headers_lookup env clientRequest name :
  name ≠ "X-Forwarded-For" →
  Origin.outbound_headers env clientRequest !! name
  = (if Js.truthy (Origin.ORIGIN_USER_AGENT env)
     then <["User-Agent" := default EmptyString (Origin.ORIGIN_USER_AGENT env)]>
            (Origin.getForwardedHeaders clientRequest ∪ Origin.FALLBACK_HEADERS)
     else Origin.getForwardedHeaders clientRequest ∪ Origin.FALLBACK_HEADERS)
    !! name.
Proof.
  intros Hne. unfold Origin.outbound_headers.
  destruct (Origin.FORWARD_CLIENT_IP env) as [flag|]; [|done].
  destruct clientRequest as [req|]; [|done].
  destruct (String.eqb flag "true"); [|done].
  destruct (Http.headers_get _ "cf-connecting-ip") as [ip|]; [|done].
  destruct (String.eqb ip ""); [done|].
  by rewrite lookup_insert_ne.
Qed.

Lemma fallback_present clientRequest name :
  is_Some (Origin.FALLBACK_HEADERS !! name) →
  is_Some ((Origin.getForwardedHeaders clientRequest ∪ Origin.FALLBACK_HEADERS)
             !! name).
Proof. intros H. apply lookup_union_is_Some. by right. Qed.

(** X6. The headers of an outbound request are [User-Agent] and [Accept],
    always present, and at most [Accept-Language], [Referer] and
    [X-Forwarded-For] beside them; none of the blocked names
    ([Authorization], [Cookie], [Host], ...) is ever sent, whatever the
    client request carries. A configured [ORIGIN_USER_AGENT] is the
    [User-Agent] sent, and [X-Forwarded-For] is sent only when
    [FORWARD_CLIENT_IP] is [true]. *)
Theorem outbound_headers_policy (env : Origin.Env)
    (clientRequest : option Http.Request) :
  (∀ name,
     is_Some (Origin.outbound_headers env clientRequest !! name) →
     name ∈ Policy.OUTBOUND_NAMES
     ∧ Js.toLowerCase name ∉ Policy.BLOCKED_HEADERS)
  ∧ is_Some (Origin.outbound_headers env clientRequest !! "User-Agent")
  ∧ is_Some (Origin.outbound_headers env clientRequest !! "Accept")
  ∧ (∀ agent,
       Origin.ORIGIN_USER_AGENT env = Some agent → agent ≠ "" →
       Origin.outbound_headers env clientRequest !! "User-Agent" = Some agent)
  ∧ (Origin.FORWARD_CLIENT_IP env ≠ Some "true" →
     Origin.outbound_headers env clientRequest !! "X-Forwarded-For" = None).
Proof.
  split_and!.
  - intros name Hname. apply outbound_headers_names in Hname.
    split; [done|]. by apply outbound_names_not_blocked.
  - rewrite outbound_headers_lookup by done.
    destruct (Js.truthy _); [by rewrite lookup_insert_eq|].
    apply fallback_present. by eexists.
  - rewrite outbound_headers_lookup by done.
    destruct (Js.truthy _);
      [rewrite lookup_insert_ne by done|]; apply fallback_present; by eexists.
  - intros agent Hagent Hne. rewrite outbound_headers_lookup by done.
    rewrite Hagent. cbn [Js.truthy default].
    apply String.eqb_neq in Hne. rewrite Hne. cbn [negb].
    by rewrite lookup_insert_eq.
  - intros Hflag. unfold Origin.outbound_headers.
    set (base := Origin.getForwardedHeaders clientRequest ∪ Origin.FALLBACK_HEADERS).
    assert (base !! "X-Forwarded-For" = None) as Hbase.
    { apply lookup_union_None. split; [|done].
      apply eq_None_not_Some. intros H%getForwardedHeaders_names.
      simpl in H. intuition discriminate. }
    set (ua := if Js.truthy (Origin.ORIGIN_USER_AGENT env) then _ else base).
    assert (ua !! "X-Forwarded-For" = None) as Hua.
    { subst ua. destruct (Js.truthy _); [|done].
      by rewrite lookup_insert_ne. }
    destruct (Origin.FORWARD_CLIENT_IP env) as [flag|]; [|done].
    destruct clientRequest as [req|]; [|done].
    destruct (String.eqb_spec flag "true") as [->|_]; [done|done].
Qed.

(** A browser request that carries a cookie and a bearer token. *)
Example outbound_headers_of_browser :
  Origin.outbound_headers (Demo.env None) (Some Scenario.browser)
  = {[ "User-Agent" := "Mozilla/5.0"; "Accept" := "image/*";
       "Referer" := "https://example.com/" ]}.
Proof. vm_compute. reflexivity. Qed.

(** X7. [fetchFromOrigin] hands back a response only if the requested URL
    passed [validateUrlForFetch] and, when the response came from another
    URL after redirects, that final URL passed it too and passed the
    caller's own check if one was given. A URL that fails validation is
    refused with [Invalid URL: ...] whatever the network would answer. *)
Theorem fetchFromOrigin_validates
    (validateUrlForFetch : string → Origin.Validity)
    (net_fetch : string → gmap string string → Origin.FetchOutcome)
    (url : string) (env : Origin.Env) (clientRequest : option Http.Request)
    (timeout : option Z) (validateRedirect : option (string → bool)) :
  (∀ response,
     Origin.fetchFromOrigin validateUrlForFetch net_fetch url env clientRequest
       timeout validateRedirect = Ok response →
     Origin.valid (validateUrlForFetch url) = true
     ∧ net_fetch url (Origin.outbound_headers env clientRequest)
       = Origin.Responded response
     ∧ (Http.r_url response ≠ "" → Http.r_url response ≠ url →
        Origin.valid (validateUrlForFetch (Http.r_url response)) = true
        ∧ ∀ check, validateRedirect = Some check →
                   check (Http.r_url response) = true))
  ∧ (Origin.valid (validateUrlForFetch url) = false →
     Origin.fetchFromOrigin validateUrlForFetch net_fetch url env clientRequest
       timeout validateRedirect
     = Throw ("Invalid URL: " +:+ Origin.why (validateUrlForFetch url))).
Proof.
  split.
  - intros response. unfold Origin.fetchFromOrigin.
    destruct (Origin.valid (validateUrlForFetch url)); [|discriminate].
    cbn [negb].
    destruct (net_fetch url _) as [r| |m]; [|discriminate..].
    destruct (String.eqb_spec (Http.r_url r) "") as [Hempty|Hfinal];
      cbn [negb andb].
    { intros [= <-]. by split_and!. }
    destruct (String.eqb_spec (Http.r_url r) url) as [Hsame|Hmoved];
      cbn [negb].
    { intros [= <-]. by split_and!. }
    destruct (Origin.valid (validateUrlForFetch (Http.r_url r))) eqn:Hv;
      [|discriminate].
    cbn [negb].
    destruct validateRedirect as [check|].
    + destruct (check (Http.r_url r)) eqn:Hc; [|discriminate].
      intros [= <-]. split_and!; try done.
      all: try (intros _ _; split; [done|]; by intros ? [= <-]).
    + intros [= <-]. split_and!; try done.
      all: try (intros _ _; by split).
  - intros Hinvalid. unfold Origin.fetchFromOrigin. by rewrite Hinvalid.
Qed.

(** A redirect to a link-local address is refused, though the requested
    URL was valid. *)
Example redirect_to_link_local_refused :
  Origin.fetchFromOrigin Scenario.no_link_local Scenario.redirecting
    "https://example.com/a.jpg" (Demo.env None) None None None
  = Throw "Redirect to invalid URL blocked: link-local address".
Proof. vm_compute. reflexivity. Qed.

(** ** cache.ts *)

(** X8. After [storeInCache] under a key, [getFromCache] of that key gives
    the stored bytes with the bucket's ETag, the given content type, the
    immutable cache-control and the time of the write; [handleHeadRequest]
    answers 200 without a body, with that content type, the length of the
    bytes and that ETag; and every other key reads as before. *)
Theorem storeInCache_round_trip (stamp : Cache.Stamp)
    (r2 : gmap string Cache.R2Object) (cacheKey : string)
    (imageData : Http.Bytes) (contentType sourceUrl domain : string) :
  let r2' :=
    Cache.storeInCache stamp r2 cacheKey imageData contentType sourceUrl domain in
  (∃ o,
     Cache.getFromCache r2' cacheKey = Some o
     ∧ Cache.o_body o = imageData
     ∧ Cache.etag o = Cache.etag_of stamp imageData
     ∧ (Cache.httpMetadata o ≫= Cache.contentType) = Some contentType
     ∧ (Cache.httpMetadata o ≫= Cache.cacheControl)
       = Some "public, max-age=31536000, immutable"
     ∧ Cache.stored_cachedAt o = Some (Cache.now_iso stamp))
  ∧ Http.status (Cache.handleHeadRequest r2' cacheKey) = 200
  ∧ Http.body (Cache.handleHeadRequest r2' cacheKey) = Http.NoBody
  ∧ Http.headers_get (Http.headers (Cache.handleHeadRequest r2' cacheKey))
      "Content-Type" = Some (Js.or_else (Some contentType) "image/jpeg")
  ∧ Http.headers_get (Http.headers (Cache.handleHeadRequest r2' cacheKey))
      "Content-Length" = Some (pretty (Http.byteLength imageData))
  ∧ Http.headers_get (Http.headers (Cache.handleHeadRequest r2' cacheKey))
      "ETag" = Some (Cache.etag_of stamp imageData)
  ∧ (∀ other, other ≠ cacheKey →
       Cache.getFromCache r2' other = Cache.getFromCache r2 other
       ∧ Cache.handleHeadRequest r2' other = Cache.handleHeadRequest r2 other).
Proof.
  intros r2'.
  assert (r2' !! cacheKey
          = Some (Cache.mkR2Object imageData (Cache.etag_of stamp imageData)
                    (Cache.now_utc stamp)
                    (Some (Cache.mkHttpMetadata (Some contentType)
                             (Some Cache.immutable)))
                    (Some {[ "sourceUrl" := sourceUrl; "domain" := domain;
                             "cachedAt" := Cache.now_iso stamp ]}))) as Hget.
  { subst r2'. unfold Cache.storeInCache. apply lookup_insert_eq. }
  assert (∀ other, other ≠ cacheKey → r2' !! other = r2 !! other) as Hother.
  { intros other Hne. subst r2'. unfold Cache.storeInCache.
    by apply lookup_insert_ne. }
  unfold Cache.handleHeadRequest, Cache.getCacheHead, Cache.getFromCache.
  rewrite Hget. split_and!.
  - eexists. split; [reflexivity|]. split_and!; reflexivity.
  - reflexivity.
  - reflexivity.
  - reflexivity.
  - reflexivity.
  - reflexivity.
  - intros other Hne. by rewrite (Hother other Hne).
Qed.

(** X9. After [deleteFromCache] of a key, [getFromCache] of it finds
    nothing and [handleHeadRequest] answers 404, also when the key was just
    stored; every other key reads as before. *)
Theorem deleteFromCache_removes (stamp : Cache.Stamp)
    (r2 : gmap string Cache.R2Object) (cacheKey : string)
    (imageData : Http.Bytes) (contentType sourceUrl domain : string) :
  Cache.getFromCache (Cache.deleteFromCache r2 cacheKey) cacheKey = None
  ∧ Cache.handleHeadRequest (Cache.deleteFromCache r2 cacheKey) cacheKey
    = Http.mkResponse 404 Utils.getCORSHeaders Http.NoBody
  ∧ Cache.deleteFromCache
      (Cache.storeInCache stamp r2 cacheKey imageData contentType sourceUrl
         domain) cacheKey
    = Cache.deleteFromCache r2 cacheKey
  ∧ (∀ other, other ≠ cacheKey →
       Cache.getFromCache (Cache.deleteFromCache r2 cacheKey) other
       = Cache.getFromCache r2 other).
Proof.
  unfold Cache.handleHeadRequest, Cache.getCacheHead, Cache.getFromCache,
    Cache.deleteFromCache, Cache.storeInCache.
  split_and!.
  - apply lookup_delete_eq.
  - by rewrite lookup_delete_eq.
  - apply delete_insert_eq.
  - intros other Hne. by apply lookup_delete_ne.
Qed.

(** X10. [handleConditionalRequest] answers exactly when the request
    carries a non-empty [If-None-Match] equal, character by character, to
    the ETag; the answer is then 304 without a body, with that ETag and the
    immutable cache-control. *)
Theorem handleConditionalRequest_matches (request : Http.Request)
    (etag : string) :
  (is_Some (Cache.handleConditionalRequest request etag)
   ↔ Http.headers_get (Http.req_headers request) "If-None-Match" = Some etag
     ∧ etag ≠ "")
  ∧ (∀ r,
       Cache.handleConditionalRequest request etag = Some r →
       Http.status r = 304 ∧ Http.body r = Http.NoBody
       ∧ Http.headers_get (Http.headers r) "ETag" = Some etag
       ∧ Http.headers_get (Http.headers r) "Cache-Control"
         = Some "public, max-age=31536000, immutable").
Proof.
  unfold Cache.handleConditionalRequest.
  destruct (Http.headers_get (Http.req_headers request) "If-None-Match")
    as [v|].
  - change (default EmptyString (Some v)) with v. cbn [Js.truthy].
    destruct (String.eqb_spec v etag) as [<-|Hne].
    + destruct (String.eqb_spec v "") as [Hv|Hv]; cbn [negb andb].
      * split; [|done]. split; [by intros [? ?]|by intros [_ ?]].
      * split.
        -- split; [done|by eexists].
        -- intros r [= <-]. by split_and!.
    + rewrite andb_false_r. split; [|done].
      split; [by intros [? ?]|]. intros [[= ?] _]. done.
  - cbn [Js.truthy andb]. split; [|done].
    split; [by intros [? ?]|by intros [? _]].
Qed.

(** ** index.ts: the paths of the handler *)

Section HandlerPaths.
Variable URL_hostname : string → option string.
Variable validateUrlForFetch : string → Origin.Validity.
Variable net_fetch : string → gmap string string → Origin.FetchOutcome.
Variable parseFileSize : string → Result Z.
Variable stamp : Cache.Stamp.

Local Abbreviation fetch :=
  (Worker.fetch URL_hostname validateUrlForFetch net_fetch parseFileSize stamp).
Local Abbreviation handle :=
  (Worker.handle URL_hostname validateUrlForFetch net_fetch parseFileSize stamp).
Local Abbreviation from_origin :=
  (Worker.from_origin validateUrlForFetch net_fetch parseFileSize stamp).


Ltac in_statuses :=
  unfold Policy.handler_statuses; simpl;
  repeat first [left; reflexivity | right].

Lemma settled_error r2 message status :
  In status Policy.handler_statuses →
  Policy.settled r2 (Worker.Built (Utils.errorResponse message status), r2).
Proof. intros Hin s [= <-]. by split. Qed.

Lemma settled_serve_hit v request env parsed cached r2 :
  Policy.settled r2 (Worker.serve_hit v request env parsed cached, r2).
Proof.
  unfold Worker.serve_hit, Cache.handleConditionalRequest.
  destruct (_ && _).
  - intros s [= <-]. split; [in_statuses|done].
  - destruct v, (Validation.viewImage parsed); intros s [= <-];
      (split; [in_statuses|done]).
Qed.

Lemma settled_serve_fetched v request env parsed contentType data r2 r2' :
  Policy.settled r2
    (Worker.serve_fetched stamp v request env parsed contentType data, r2').
Proof.
  unfold Worker.serve_fetched.
  destruct v, (Validation.viewImage parsed); intros s [= <-];
    (split; [in_statuses|done]).
Qed.

Lemma settled_from_origin v request env r2 parsed res :
  from_origin v request env r2 parsed = Ok res → Policy.settled r2 res.
Proof.
  unfold Worker.from_origin.
  destruct (Origin.fetchFromOrigin _ _ _ _ _ _ _) as [response|m];
    [|discriminate].
  cbn [mbind Result_bind bindR].
  destruct (Http.ok response); cbn [negb].
  - destruct (Validation.isImageContentType _); cbn [negb].
    + destruct (parseFileSize _) as [maxSize|m]; [|discriminate].
      cbn [mbind Result_bind bindR].
      destruct (Origin.fetchImageData response maxSize) as [data|m].
      * intros [= <-]. apply settled_serve_fetched.
      * intros [= <-]. apply settled_error. in_statuses.
    + intros [= <-]. apply settled_error. in_statuses.
  - destruct (Http.r_status response =? 404); intros [= <-];
      apply settled_error; in_statuses.
Qed.

Lemma settled_handle v request env r2 res :
  handle v request env r2 = Ok res → Policy.settled r2 res.
Proof.
  unfold Worker.handle.
  destruct (Validation.parseUrl (Http.url request)) as [parsed|m];
    [|discriminate].
  cbn [mbind Result_bind bindR].
  destruct (String.eqb (Http.method request) "DELETE").
  { destruct (Cache.getFromCache r2 _); intros [= <-].
    - intros s [= <-]. split; [in_statuses|done].
    - apply settled_error. in_statuses. }
  destruct (String.eqb (Http.method request) "HEAD").
  { intros [= <-]. unfold Cache.handleHeadRequest.
    destruct (Cache.getCacheHead r2 _); intros s [= <-];
      (split; [in_statuses|done]). }
  destruct (String.eqb (Http.method request) "GET"); cbn [negb].
  2:{ intros [= <-]. apply settled_error. in_statuses. }
  destruct (Validation.isAllowedOrigin _ _ _); cbn [negb].
  2:{ intros [= <-]. apply settled_error. in_statuses. }
  destruct (if Validation.forceReprocess parsed then None else _) as [cached|].
  - intros [= <-]. apply settled_serve_hit.
  - apply settled_from_origin.
Qed.

(** X11. Whatever the request, a response the handler builds carries one
    of the statuses 200, 204, 304, 403, 404, 405, 413, 415, 500 and 503,
    and unless that status is 200 the bucket is left exactly as it was: no
    error path stores or deletes anything. *)
Theorem errors_leave_bucket (v : Worker.Version) (request : Http.Request)
    (env : Origin.Env) (r2 : gmap string Cache.R2Object) :
  Policy.settled r2 (fetch v request env r2).
Proof.
  unfold Worker.fetch.
  destruct (String.eqb (Http.method request) "OPTIONS").
  { intros s [= <-]. split; [in_statuses|done]. }
  destruct (_ || _).
  { intros s [= <-]. split; [in_statuses|done]. }
  destruct (String.eqb _ "/stats"); [by intros s|].
  destruct (handle v request env r2) as [res|m] eqn:Hh.
  - by eapply settled_handle.
  - apply settled_error. in_statuses.
Qed.
(** X12. For a request that reaches the parser and parses, the method
    alone decides before any allow-list is read: DELETE of a stored key
    answers 200 and removes that key and no other, DELETE of an absent key
    answers 404, HEAD answers what [handleHeadRequest] answers and writes
    nothing, and any method other than DELETE, HEAD and GET answers 405. *)
Theorem method_dispatch (v : Worker.Version) (request : Http.Request)
    (env : Origin.Env) (r2 : gmap string Cache.R2Object)
    (parsed : Validation.ParsedUrl) :
  Spec.reaches_parser request →
  Validation.parseUrl (Http.url request) = Ok parsed →
  (Http.method request = "DELETE" →
   (is_Some (r2 !! Validation.cacheKey parsed) →
    Worker.answer_status (fst (fetch v request env r2)) = Some 200
    ∧ snd (fetch v request env r2) = delete (Validation.cacheKey parsed) r2
    ∧ Cache.handleHeadRequest (snd (fetch v request env r2))
        (Validation.cacheKey parsed)
      = Http.mkResponse 404 Utils.getCORSHeaders Http.NoBody)
   ∧ (r2 !! Validation.cacheKey parsed = None →
      fetch v request env r2
      = (Worker.Built (Utils.errorResponse "Image not found in cache" 404), r2)))
  ∧ (Http.method request = "HEAD" →
     fetch v request env r2
     = (Worker.Built (Cache.handleHeadRequest r2 (Validation.cacheKey parsed)),
        r2))
  ∧ (Http.method request ≠ "DELETE" → Http.method request ≠ "HEAD" →
     Http.method request ≠ "GET" →
     fetch v request env r2
     = (Worker.Built (Utils.errorResponse "Method not allowed" 405), r2)).
Proof.
  intros Hr Hp.
  rewrite (fetch_reaches_handle _ _ _ _ _ _ _ _ _ Hr).
  unfold Worker.handle. rewrite Hp. cbn [mbind Result_bind bindR].
  split_and!.
  - intros ->. rewrite String.eqb_refl. unfold Cache.getFromCache. split.
    + intros [o Ho]. rewrite Ho.
      split_and!; [reflexivity|reflexivity|].
      cbn [snd]. unfold Cache.deleteFromCache, Cache.handleHeadRequest,
        Cache.getCacheHead.
      by rewrite lookup_delete_eq.
    + by intros ->.
  - intros ->. reflexivity.
  - intros Hd Hh Hg. apply String.eqb_neq in Hd, Hh, Hg.
    by rewrite Hd, Hh, Hg.
Qed.

End HandlerPaths.

(** A DELETE for an origin the allow-list does not name still deletes. *)
Lemma method_dispatch_witness :
  snd (Demo.worker Worker.V1_1_0
         (Http.mkRequest "DELETE" "https://cdn.example.net/example.com/a.jpg"
            (Validation.mkURL "/example.com/a.jpg" []) [])
         (Demo.env (Some "img.example.org")) Demo.bucket)
  = delete "example.com/a.jpg" Demo.bucket.
Proof.
  refine (proj1 (proj2 (proj1 (proj1
            (method_dispatch Validation.simple_hostname Demo.validate_any
               Demo.offline Demo.fifty_megabytes Demo.stamp Worker.V1_1_0
               (Http.mkRequest "DELETE"
                  "https://cdn.example.net/example.com/a.jpg"
                  (Validation.mkURL "/example.com/a.jpg" []) [])
               (Demo.env (Some "img.example.org")) Demo.bucket
               (Validation.mkParsedUrl "example.com" "/a.jpg"
                  "https://example.com/a.jpg" "example.com/a.jpg" false false)
               _ _) eq_refl) _))).
  - repeat split; discriminate.
  - vm_compute. reflexivity.
  - by eexists.
Defined.

Section OriginPaths.
Variable URL_hostname : string → option string.
Variable validateUrlForFetch : string → Origin.Validity.
Variable net_fetch : string → gmap string string → Origin.FetchOutcome.
Variable parseFileSize : string → Result Z.
Variable stamp : Cache.Stamp.

Local Abbreviation fetch :=
  (Worker.fetch URL_hostname validateUrlForFetch net_fetch parseFileSize stamp).
Local Abbreviation handle :=
  (Worker.handle URL_hostname validateUrlForFetch net_fetch parseFileSize stamp).
Local Abbreviation from_origin :=
  (Worker.from_origin validateUrlForFetch net_fetch parseFileSize stamp).
Local Abbreviation fetchFromOrigin :=
  (Origin.fetchFromOrigin validateUrlForFetch net_fetch).

(** A GET that passes the allow-list and finds no entry, or is forced,
    goes to the origin. *)
Lemma fetch_goes_to_origin v request env r2 parsed :
  Spec.reaches_parser request →
  Http.method request = "GET" →
  Validation.parseUrl (Http.url request) = Ok parsed →
  Validation.isAllowedOrigin URL_hostname (Validation.sourceUrl parsed)
    (Js.or_else (Origin.ALLOWED_ORIGINS env) "*") = true →
  Validation.forceReprocess parsed = true
  ∨ r2 !! Validation.cacheKey parsed = None →
  fetch v request env r2
  = match from_origin v request env r2 parsed with
    | Ok answer => answer
    | Throw message => (Worker.Built (Utils.errorResponse message 500), r2)
    end.
Proof.
  intros Hr Hm Hp Ha Hmiss.
  rewrite (fetch_reaches_handle _ _ _ _ _ _ _ _ _ Hr).
  unfold Worker.handle. rewrite Hp. cbn [mbind Result_bind bindR].
  rewrite Hm.
  change (String.eqb "GET" "DELETE") with false.
  change (String.eqb "GET" "HEAD") with false.
  change (String.eqb "GET" "GET") with true.
  cbn [negb]. rewrite Ha. cbn [negb].
  unfold Cache.getFromCache.
  destruct Hmiss as [-> | ->]; [done|].
  by destruct (Validation.forceReprocess parsed).
Qed.

Lemma from_origin_stores v request env r2 parsed response maxSize data :
  fetchFromOrigin (Validation.sourceUrl parsed) env None None None = Ok response →
  Http.ok response = true →
  Validation.isImageContentType
    (Js.or_else (Http.headers_get (Http.r_headers response) "Content-Type") "")
  = true →
  parseFileSize (Js.or_else (Origin.MAX_FILE_SIZE env) "50MB") = Ok maxSize →
  Origin.fetchImageData response maxSize = Ok data →
  from_origin v request env r2 parsed
  = Ok (Worker.serve_fetched stamp v request env parsed
          (Js.or_else (Http.headers_get (Http.r_headers response) "Content-Type") "")
          data,
        Cache.storeInCache stamp r2 (Validation.cacheKey parsed) data
          (Js.or_else (Http.headers_get (Http.r_headers response) "Content-Type") "")
          (Validation.sourceUrl parsed) (Validation.domain parsed)).
Proof.
  intros Hf Hok Himg Hsize Hdata. unfold Worker.from_origin.
  rewrite Hf. cbn [mbind Result_bind bindR].
  rewrite Hok. cbn [negb]. rewrite Himg. cbn [negb].
  rewrite Hsize. cbn [mbind Result_bind bindR]. by rewrite Hdata.
Qed.

Lemma image_type_not_empty contentType :
  Validation.isImageContentType contentType = true →
  Js.or_else (Some contentType) "image/jpeg" = contentType.
Proof.
  unfold Validation.isImageContentType, Js.or_else.
  by destruct (String.eqb contentType "").
Qed.

(** X13. A GET that passes the allow-list, finds no entry and gets an
    image within the size limit from the origin is answered by the 1.1.0
    handler with 200, those bytes and the indicator [miss], and the bytes
    are stored under the cache key; the same request sent again is then
    answered from the bucket with 200, the same bytes, the same content
    type, the ETag of the stored object and the indicator [hit]. *)
Theorem miss_then_hit (request : Http.Request) (env : Origin.Env)
    (r2 : gmap string Cache.R2Object) (parsed : Validation.ParsedUrl)
    (response : Http.Received) (maxSize : Z) (data : Http.Bytes) :
  let contentType :=
    Js.or_else (Http.headers_get (Http.r_headers response) "Content-Type") "" in
  Spec.reaches_parser request →
  Http.method request = "GET" →
  Validation.parseUrl (Http.url request) = Ok parsed →
  Validation.isAllowedOrigin URL_hostname (Validation.sourceUrl parsed)
    (Js.or_else (Origin.ALLOWED_ORIGINS env) "*") = true →
  Validation.forceReprocess parsed = false →
  Validation.viewImage parsed = false →
  r2 !! Validation.cacheKey parsed = None →
  fetchFromOrigin (Validation.sourceUrl parsed) env None None None = Ok response →
  Http.ok response = true →
  Validation.isImageContentType contentType = true →
  parseFileSize (Js.or_else (Origin.MAX_FILE_SIZE env) "50MB") = Ok maxSize →
  Origin.fetchImageData response maxSize = Ok data →
  Http.headers_get (Http.req_headers request) "If-None-Match"
    ≠ Some (Cache.etag_of stamp data) →
  let first := fetch Worker.V1_1_0 request env r2 in
  (∃ r,
     fst first = Worker.Built r
     ∧ Http.status r = 200
     ∧ Http.body r = Http.BytesBody data
     ∧ Http.headers_get (Http.headers r) "Content-Type" = Some contentType
     ∧ Http.headers_get (Http.headers r) "X-ImgPro-Status" = Some "miss")
  ∧ snd first
    = Cache.storeInCache stamp r2 (Validation.cacheKey parsed) data contentType
        (Validation.sourceUrl parsed) (Validation.domain parsed)
  ∧ (∃ r,
       fetch Worker.V1_1_0 request env (snd first) = (Worker.Built r, snd first)
       ∧ Http.status r = 200
       ∧ Http.body r = Http.BytesBody data
       ∧ Http.headers_get (Http.headers r) "Content-Type" = Some contentType
       ∧ Http.headers_get (Http.headers r) "ETag"
         = Some (Cache.etag_of stamp data)
       ∧ Http.headers_get (Http.headers r) "X-ImgPro-Status" = Some "hit").
Proof.
  intros contentType Hr Hm Hp Ha Hforce Hview Hmiss Hf Hok Himg Hsize Hdata
    Hinm first.
  assert (first
          = (Worker.serve_fetched stamp Worker.V1_1_0 request env parsed
               contentType data,
             Cache.storeInCache stamp r2 (Validation.cacheKey parsed) data
               contentType (Validation.sourceUrl parsed)
               (Validation.domain parsed))) as Hfirst.
  { subst first.
    rewrite (fetch_goes_to_origin _ _ _ _ _ Hr Hm Hp Ha (or_intror Hmiss)).
    by rewrite (from_origin_stores _ _ _ _ _ _ _ _ Hf Hok Himg Hsize Hdata). }
  rewrite Hfirst. cbn [fst snd]. split_and!.
  - unfold Worker.serve_fetched. rewrite Hview. eexists.
    split; [reflexivity|]. by split_and!.
  - reflexivity.
  - rewrite (fetch_reaches_handle _ _ _ _ _ _ _ _ _ Hr).
    erewrite handle_hit; [|done..|].
    2:{ unfold Cache.storeInCache. apply lookup_insert_eq. }
    unfold Worker.serve_hit.
    rewrite conditional_none by done. rewrite Hview.
    eexists. split; [reflexivity|].
    split_and!; try reflexivity.
    change (Some (Js.or_else (Some contentType) "image/jpeg") = Some contentType).
    by rewrite (image_type_not_empty _ Himg).
Qed.
Lemma from_origin_answer v request env r2 r2' parsed :
  match from_origin v request env r2 parsed,
        from_origin v request env r2' parsed with
  | Ok (a, s), Ok (a', s') =>
      a = a'
      ∧ ((s = r2 ∧ s' = r2')
         ∨ ∃ data contentType,
             s = Cache.storeInCache stamp r2 (Validation.cacheKey parsed) data
                   contentType (Validation.sourceUrl parsed)
                   (Validation.domain parsed)
             ∧ s' = Cache.storeInCache stamp r2' (Validation.cacheKey parsed)
                      data contentType (Validation.sourceUrl parsed)
                      (Validation.domain parsed))
  | Throw m, Throw m' => m = m'
  | _, _ => False
  end.
Proof.
  unfold Worker.from_origin.
  destruct (fetchFromOrigin _ _ _ _ _) as [response|m]; [|done].
  cbn [mbind Result_bind bindR].
  destruct (Http.ok response); cbn [negb].
  - destruct (Validation.isImageContentType _); cbn [negb]; [|by auto].
    destruct (parseFileSize _) as [maxSize|m]; [|done].
    cbn [mbind Result_bind bindR].
    destruct (Origin.fetchImageData response maxSize) as [data|m]; [|by auto].
    split; [done|]. right. by eexists _, _.
  - destruct (Http.r_status response =? 404); by auto.
Qed.

(** What a run of [from_origin] leaves in the bucket: what was there, or
    what was there with the delivered image stored under the cache key. *)
Lemma from_origin_bucket v request env r2 parsed a s :
  from_origin v request env r2 parsed = Ok (a, s) →
  s = r2
  ∨ ∃ response maxSize data,
      fetchFromOrigin (Validation.sourceUrl parsed) env None None None
      = Ok response
      ∧ Http.ok response = true
      ∧ Validation.isImageContentType
          (Js.or_else (Http.headers_get (Http.r_headers response) "Content-Type")
             "") = true
      ∧ parseFileSize (Js.or_else (Origin.MAX_FILE_SIZE env) "50MB") = Ok maxSize
      ∧ Origin.fetchImageData response maxSize = Ok data.
Proof.
  unfold Worker.from_origin.
  destruct (fetchFromOrigin _ _ _ _ _) as [response|m] eqn:Hf; [|discriminate].
  cbn [mbind Result_bind bindR].
  destruct (Http.ok response) eqn:Hok; cbn [negb].
  - destruct (Validation.isImageContentType _) eqn:Himg; cbn [negb].
    + destruct (parseFileSize _) as [maxSize|m] eqn:Hsize; [|discriminate].
      cbn [mbind Result_bind bindR].
      destruct (Origin.fetchImageData response maxSize) as [data|m] eqn:Hdata.
      * intros _. right. by eexists response, maxSize, data.
      * intros [= <- <-]. by left.
    + intros [= <- <-]. by left.
  - destruct (Http.r_status response =? 404); intros [= <- <-]; by left.
Qed.

(** X14. For a GET with the [force] flag that passes the allow-list, the
    answer does not depend on what the bucket holds: a stored entry is
    neither read nor served. When the origin delivers (a response with a
    status in 200-299 and an image content type, whose body is read within
    the size limit), the entry of the cache key is overwritten with the
    delivered bytes and content type; when it does not, the bucket is left
    as it was. *)
Theorem force_ignores_bucket (v : Worker.Version) (request : Http.Request)
    (env : Origin.Env) (r2 r2' : gmap string Cache.R2Object)
    (parsed : Validation.ParsedUrl) :
  Spec.reaches_parser request →
  Http.method request = "GET" →
  Validation.parseUrl (Http.url request) = Ok parsed →
  Validation.isAllowedOrigin URL_hostname (Validation.sourceUrl parsed)
    (Js.or_else (Origin.ALLOWED_ORIGINS env) "*") = true →
  Validation.forceReprocess parsed = true →
  let delivers response maxSize data :=
    fetchFromOrigin (Validation.sourceUrl parsed) env None None None
    = Ok response
    ∧ Http.ok response = true
    ∧ Validation.isImageContentType
        (Js.or_else (Http.headers_get (Http.r_headers response) "Content-Type")
           "") = true
    ∧ parseFileSize (Js.or_else (Origin.MAX_FILE_SIZE env) "50MB") = Ok maxSize
    ∧ Origin.fetchImageData response maxSize = Ok data in
  fst (fetch v request env r2) = fst (fetch v request env r2')
  ∧ (∀ response maxSize data,
       delivers response maxSize data →
       snd (fetch v request env r2)
       = Cache.storeInCache stamp r2 (Validation.cacheKey parsed) data
           (Js.or_else
              (Http.headers_get (Http.r_headers response) "Content-Type") "")
           (Validation.sourceUrl parsed) (Validation.domain parsed)
       ∧ Cache.o_body
           <$> Cache.getFromCache (snd (fetch v request env r2))
                 (Validation.cacheKey parsed)
         = Some data)
  ∧ ((∀ response maxSize data, ¬ delivers response maxSize data) →
     snd (fetch v request env r2) = r2).
Proof.
  intros Hr Hm Hp Ha Hforce delivers.
  rewrite !(fetch_goes_to_origin _ _ _ _ _ Hr Hm Hp Ha (or_introl Hforce)).
  split_and!.
  - pose proof (from_origin_answer v request env r2 r2' parsed) as H.
    destruct (from_origin v request env r2 parsed) as [[a s]|m],
             (from_origin v request env r2' parsed) as [[a' s']|m'];
      try done; cbn [fst].
    + by destruct H as [-> _].
    + by subst.
  - intros response maxSize data (Hf & Hok & Himg & Hsize & Hdata).
    rewrite (from_origin_stores _ _ _ _ _ _ _ _ Hf Hok Himg Hsize Hdata).
    cbn [snd]. split; [reflexivity|].
    unfold Cache.storeInCache, Cache.getFromCache.
    by rewrite lookup_insert_eq.
  - intros Hnone.
    destruct (from_origin v request env r2 parsed) as [[a s]|m] eqn:Hfrom;
      [|done].
    cbn [snd].
    destruct (from_origin_bucket _ _ _ _ _ _ _ Hfrom)
      as [->|(response & maxSize & data & Hd)]; [done|].
    by destruct (Hnone response maxSize data).
Qed.

(** X15. A GET that passes the allow-list, finds a stored entry and carries
    an [If-None-Match] equal to its non-empty ETag is answered 304 without
    a body by both handlers, also when the [view] flag is set; the bucket
    is left as it was. *)
Theorem not_modified (v : Worker.Version) (request : Http.Request)
    (env : Origin.Env) (r2 : gmap string Cache.R2Object)
    (parsed : Validation.ParsedUrl) (cached : Cache.R2Object) :
  Spec.reaches_parser request →
  Http.method request = "GET" →
  Validation.parseUrl (Http.url request) = Ok parsed →
  Validation.isAllowedOrigin URL_hostname (Validation.sourceUrl parsed)
    (Js.or_else (Origin.ALLOWED_ORIGINS env) "*") = true →
  Validation.forceReprocess parsed = false →
  r2 !! Validation.cacheKey parsed = Some cached →
  Http.headers_get (Http.req_headers request) "If-None-Match"
    = Some (Cache.etag cached) →
  Cache.etag cached ≠ "" →
  fetch v request env r2
  = (Worker.Built
       (Http.mkResponse 304
          ([ ("ETag", Cache.etag cached);
             ("Cache-Control", "public, max-age=31536000, immutable") ]
           ++ Utils.getCORSHeaders)
          Http.NoBody),
     r2).
Proof.
  intros Hr Hm Hp Ha Hforce Hc Hinm Hetag.
  rewrite (fetch_reaches_handle _ _ _ _ _ _ _ _ _ Hr).
  rewrite (handle_hit _ _ _ _ _ _ _ _ _ _ _ Hm Hp Ha Hforce Hc).
  unfold Worker.serve_hit, Cache.handleConditionalRequest.
  rewrite Hinm. change (default EmptyString (Some ?x)) with x.
  cbn [Js.truthy]. apply String.eqb_neq in Hetag. rewrite Hetag.
  by rewrite String.eqb_refl.
Qed.

(** X16. When a GET goes to the origin, each failure has its own answer
    and stores nothing: an exception of the fetch gives 500 with its
    message, an upstream 404 gives 404, any other status outside 200-299
    gives 503, a content type that is no image type gives 415, an
    exception of [parseFileSize] gives 500, and whatever [fetchImageData]
    throws, the size guard or a failed read of the body, gives 413 with
    the message thrown. *)
Theorem origin_failures (v : Worker.Version) (request : Http.Request)
    (env : Origin.Env) (r2 : gmap string Cache.R2Object)
    (parsed : Validation.ParsedUrl) :
  Spec.reaches_parser request →
  Http.method request = "GET" →
  Validation.parseUrl (Http.url request) = Ok parsed →
  Validation.isAllowedOrigin URL_hostname (Validation.sourceUrl parsed)
    (Js.or_else (Origin.ALLOWED_ORIGINS env) "*") = true →
  Validation.forceReprocess parsed = true
  ∨ r2 !! Validation.cacheKey parsed = None →
  let error message status :=
    fetch v request env r2
    = (Worker.Built (Utils.errorResponse message status), r2) in
  (∀ message,
     fetchFromOrigin (Validation.sourceUrl parsed) env None None None
     = Throw message → error message 500)
  ∧ (∀ response,
       fetchFromOrigin (Validation.sourceUrl parsed) env None None None
       = Ok response →
       let contentType :=
         Js.or_else (Http.headers_get (Http.r_headers response) "Content-Type")
           "" in
       (Http.ok response = false → Http.r_status response = 404 →
        error ("Image not found: " +:+ Validation.sourceUrl parsed) 404)
       ∧ (Http.ok response = false → Http.r_status response ≠ 404 →
          error ("Origin error " +:+ pretty (Http.r_status response) +:+ ": "
                 +:+ Http.r_statusText response) 503)
       ∧ (Http.ok response = true →
          Validation.isImageContentType contentType = false →
          error ("Not an image: " +:+ contentType) 415)
       ∧ (Http.ok response = true →
          Validation.isImageContentType contentType = true →
          (∀ message,
             parseFileSize (Js.or_else (Origin.MAX_FILE_SIZE env) "50MB")
             = Throw message → error message 500)
          ∧ (∀ maxSize message,
               parseFileSize (Js.or_else (Origin.MAX_FILE_SIZE env) "50MB")
               = Ok maxSize →
               Origin.fetchImageData response maxSize = Throw message →
               error message 413))).
Proof.
  intros Hr Hm Hp Ha Hmiss error. subst error. cbv beta.
  rewrite (fetch_goes_to_origin _ _ _ _ _ Hr Hm Hp Ha Hmiss).
  unfold Worker.from_origin. split.
  - by intros message ->.
  - intros response ->. cbv zeta. cbn [mbind Result_bind bindR].
    split_and!.
    + intros -> ->. reflexivity.
    + intros -> Hs. apply Z.eqb_neq in Hs. cbn [negb]. by rewrite Hs.
    + intros -> Hct. cbn [negb]. by rewrite Hct.
    + intros -> Hct. cbn [negb]. rewrite Hct. cbn [negb].
      split.
      * by intros message ->.
      * intros maxSize message -> Hdata. cbn [mbind Result_bind bindR].
        by rewrite Hdata.
Qed.
End OriginPaths.

(** An empty bucket, an origin that delivers a JPEG of four bytes. *)
Lemma miss_then_hit_witness :
  snd (Scenario.worker Scenario.online Worker.V1_1_0
         (Demo.get "/example.com/a.jpg" []) (Demo.env None) ∅)
  = Cache.storeInCache Demo.stamp ∅ "example.com/a.jpg" Scenario.jpeg
      "image/jpeg" "https://example.com/a.jpg" "example.com".
Proof.
  refine (proj1 (proj2
            (miss_then_hit Validation.simple_hostname Scenario.no_link_local
               Scenario.online Demo.fifty_megabytes Demo.stamp
               (Demo.get "/example.com/a.jpg" []) (Demo.env None) ∅
               (Validation.mkParsedUrl "example.com" "/a.jpg"
                  "https://example.com/a.jpg" "example.com/a.jpg" false false)
               (Http.mkReceived 200 "OK"
                  [("Content-Type", "image/jpeg"); ("Content-Length", "4")]
                  "https://example.com/a.jpg" (Ok Scenario.jpeg))
               52428800 Scenario.jpeg _ _ _ _ _ _ _ _ _ _ _ _ _))).
  - repeat split; discriminate.
  - reflexivity.
  - vm_compute. reflexivity.
  - reflexivity.
  - reflexivity.
  - reflexivity.
  - reflexivity.
  - vm_compute. reflexivity.
  - reflexivity.
  - vm_compute. reflexivity.
  - reflexivity.
  - vm_compute. reflexivity.
  - discriminate.
Defined.

(** A forced GET on a bucket that holds an older image: the entry is
    replaced by what the origin sends. *)
Lemma force_ignores_bucket_witness :
  snd (Scenario.worker Scenario.online Worker.V1_1_0
         (Http.mkRequest "GET" "https://cdn.example.net/example.com/a.jpg?force=1"
            (Validation.mkURL "/example.com/a.jpg" [("force", "1")]) [])
         (Demo.env None) Demo.bucket)
  = Cache.storeInCache Demo.stamp Demo.bucket "example.com/a.jpg" Scenario.jpeg
      "image/jpeg" "https://example.com/a.jpg" "example.com".
Proof.
  refine (proj1
            (proj1 (proj2
               (force_ignores_bucket Validation.simple_hostname
                  Scenario.no_link_local Scenario.online Demo.fifty_megabytes
                  Demo.stamp Worker.V1_1_0
                  (Http.mkRequest "GET"
                     "https://cdn.example.net/example.com/a.jpg?force=1"
                     (Validation.mkURL "/example.com/a.jpg" [("force", "1")]) [])
                  (Demo.env None) Demo.bucket ∅
                  (Validation.mkParsedUrl "example.com" "/a.jpg"
                     "https://example.com/a.jpg" "example.com/a.jpg" true false)
                  _ _ _ _ _))
               (Http.mkReceived 200 "OK"
                  [("Content-Type", "image/jpeg"); ("Content-Length", "4")]
                  "https://example.com/a.jpg" (Ok Scenario.jpeg))
               52428800 Scenario.jpeg _)).
  - repeat split; discriminate.
  - reflexivity.
  - vm_compute. reflexivity.
  - reflexivity.
  - reflexivity.
  - split_and!; vm_compute; reflexivity.
Defined.

(** The stored image asked for again with its ETag, and with [view]. *)
Lemma not_modified_witness :
  Demo.worker Worker.V1_1_0
    (Http.mkRequest "GET" "https://cdn.example.net/example.com/a.jpg?view=1"
       (Validation.mkURL "/example.com/a.jpg" [("view", "1")])
       [("If-None-Match", "etag-1")])
    (Demo.env None) Demo.bucket
  = (Worker.Built
       (Http.mkResponse 304
          ([ ("ETag", "etag-1");
             ("Cache-Control", "public, max-age=31536000, immutable") ]
           ++ Utils.getCORSHeaders)
          Http.NoBody),
     Demo.bucket).
Proof.
  refine (not_modified Validation.simple_hostname Demo.validate_any
            Demo.offline Demo.fifty_megabytes Demo.stamp Worker.V1_1_0
            (Http.mkRequest "GET"
               "https://cdn.example.net/example.com/a.jpg?view=1"
               (Validation.mkURL "/example.com/a.jpg" [("view", "1")])
               [("If-None-Match", "etag-1")])
            (Demo.env None) Demo.bucket
            (Validation.mkParsedUrl "example.com" "/a.jpg"
               "https://example.com/a.jpg" "example.com/a.jpg" false true)
            Demo.photo _ _ _ _ _ _ _ _).
  - repeat split; discriminate.
  - reflexivity.
  - vm_compute. reflexivity.
  - reflexivity.
  - reflexivity.
  - vm_compute. reflexivity.
  - vm_compute. reflexivity.
  - discriminate.
Defined.

(** An origin that cannot be reached. *)
Lemma origin_failures_witness :
  Demo.worker Worker.V1_1_0 (Demo.get "/example.com/a.jpg" []) (Demo.env None) ∅
  = (Worker.Built (Utils.errorResponse "network unreachable" 500), ∅).
Proof.
  refine (proj1
            (origin_failures Validation.simple_hostname Demo.validate_any
               Demo.offline Demo.fifty_megabytes Demo.stamp Worker.V1_1_0
               (Demo.get "/example.com/a.jpg" []) (Demo.env None) ∅
               (Validation.mkParsedUrl "example.com" "/a.jpg"
                  "https://example.com/a.jpg" "example.com/a.jpg" false false)
               _ _ _ _ _) "network unreachable" _).
  - repeat split; discriminate.
  - reflexivity.
  - vm_compute. reflexivity.
  - reflexivity.
  - by right.
  - vm_compute. reflexivity.
Defined.

(** ** The usage tracker: accounting *)

Section TrackerAccounting.
Import SiteUsageTracker SiteUsageTracker.STORAGE_KEYS Accounting.

Lemma billed_app (st : DO) (b : Batch) (bs : list Batch) :
  billed st = bs ++ [b] →
  billed_requests st
  = List.fold_right (λ b n, b_requests b + n) 0 bs + b_requests b
  ∧ billed_hits st
    = List.fold_right (λ b n, b_cacheHits b + n) 0 bs + b_cacheHits b
  ∧ billed_misses st
    = List.fold_right (λ b n, b_cacheMisses b + n) 0 bs + b_cacheMisses b.
Proof.
  unfold billed_requests, billed_hits, billed_misses. intros ->.
  induction bs as [|x bs (IH1 & IH2 & IH3)]; simpl; [lia|].
  rewrite IH1, IH2, IH3. lia.
Qed.

Lemma billed_same (st st' : DO) :
  billed st' = billed st →
  billed_requests st' = billed_requests st
  ∧ billed_hits st' = billed_hits st
  ∧ billed_misses st' = billed_misses st.
Proof.
  unfold billed_requests, billed_hits, billed_misses. by intros ->.
Qed.

(** X17. Across a record-event or a flush with the billing database bound,
    whatever the outcome of the billing write and of the storage calls: for
    hits and for misses, what has been billed plus what memory holds grows
    by exactly what the record-events the operation handled carry; for
    requests it grows by one for each object body and by one for each
    [null] body that finds the object initialized. So requests grow by hits
    plus misses when no body is [null], and by more otherwise. *)
Theorem billed_plus_live_conserved (op : Op) (st : DO) :
  is_fetch_or_alarm op →
  let st' := step true op st in
  billed_hits st' + cacheHits (mem st')
  = billed_hits st + cacheHits (mem st) + op_hits st op
  ∧ billed_misses st' + cacheMisses (mem st')
    = billed_misses st + cacheMisses (mem st) + op_misses st op
  ∧ billed_requests st' + requests (mem st')
    = billed_requests st + requests (mem st) + op_requests st op
  ∧ (typed_op op → op_requests st op = op_hits st op + op_misses st op)
  ∧ op_hits st op + op_misses st op ≤ op_requests st op.
Proof.
  intros Hop st'. subst st'.
  assert (∀ evs init,
            hits_counted evs + misses_counted evs ≤ events_counted init evs)
    as Hle.
  { induction evs as [|ev evs IH]; intros init; [done|].
    cbn [events_counted hits_counted misses_counted List.fold_right].
    fold (hits_counted evs) (misses_counted evs).
    specialize (IH (initialized_after init ev)).
    pose proof (counted_bounds evs).
    unfold request_of, hit_of, miss_of.
    destruct (payload ev) as [| |m]; [lia| |destruct (cacheHit m); lia].
    destruct init; lia. }
  destruct op as [clock|ev|run]; [done| |];
    cbn [step op_hits op_misses op_requests typed_op].
  - destruct (fetch_counters ev st) as (Hr & Hh & Hm & _ & _ & Hb).
    destruct (billed_same _ _ Hb) as (-> & -> & ->).
    split_and!; [lia..| |].
    + intros Hev. by apply request_of_typed.
    + specialize (Hle [ev] (initialized (mem st))).
      cbn [events_counted hits_counted misses_counted List.fold_right] in Hle.
      lia.
  - destruct (Z.eqb_spec (requests (mem st)) 0) as [Hidle|Hactive].
    { assert (fst (alarm true run st)
              = reschedule run IdleRescheduleFailed st) as ->.
      { unfold alarm. cbn [negb]. by rewrite Hidle. }
      unfold reschedule.
      destruct (setAlarm_ok run);
        unfold billed_hits, billed_misses, billed_requests; cbn;
        split_and!; lia. }
    destruct (handle_events_counters (during_write run) st)
      as (Hr & Hh & Hm & _ & _ & _).
    assert (Forall typed (during_write run) →
            events_counted (initialized (mem st)) (during_write run)
            = hits_counted (during_write run)
              + misses_counted (during_write run)) as Htyped
      by apply events_counted_sum.
    specialize (Hle (during_write run) (initialized (mem st))).
    destruct (d1_ok run) eqn:Hd1.
    + destruct (alarm_success_state run st Hactive Hd1)
        as (Hr' & Hh' & Hm' & _ & _).
      pose proof (alarm_bills_memory run st Hactive Hd1) as Hb.
      destruct (billed_app _ _ _ Hb) as (Hbr & Hbh & Hbm).
      cbn [b_requests b_cacheHits b_cacheMisses] in Hbr, Hbh, Hbm.
      fold (billed_requests st) in Hbr. fold (billed_hits st) in Hbh.
      fold (billed_misses st) in Hbm.
      rewrite Hbr, Hbh, Hbm, Hr', Hh', Hm', Hr, Hh, Hm.
      split_and!; try done; lia.
    + destruct (alarm_failure_state run st Hactive Hd1)
        as (Hb & _ & Hr' & Hh' & Hm' & _).
      destruct (billed_same _ _ Hb) as (-> & -> & ->).
      rewrite Hr', Hh', Hm', Hr, Hh, Hm.
      split_and!; try done; lia.
Qed.

Lemma billed_plus_live_conserved_witness :
  billed_requests (step true (OpAlarm (Demo.run true)) Demo.counting)
  + requests (mem (step true (OpAlarm (Demo.run true)) Demo.counting))
  = billed_requests Demo.counting + requests (mem Demo.counting)
    + op_requests Demo.counting (OpAlarm (Demo.run true)).
Proof.
  refine (proj1 (proj2 (proj2
            (billed_plus_live_conserved (OpAlarm (Demo.run true))
               Demo.counting _)))). exact I.
Defined.

Lemma step_batches (billing : bool) (op : Op) (st : DO) :
  invariant st →
  Forall batch_ok (billed st) →
  Forall batch_ok (billed (step billing op st)).
Proof.
  intros [(Hr & Hh & Hm & _ & Hbal) _] Hbilled.
  destruct op as [clock|ev|run]; cbn [step].
  - unfold construct. cbn [pendingAlarm with_mem].
    by destruct (negb _ && billing).
  - destruct (fetch_counters ev st) as (_ & _ & _ & _ & _ & ->). done.
  - destruct billing.
    + destruct (Z.eqb_spec (requests (mem st)) 0) as [Hidle|Hactive].
      { unfold alarm, reschedule. cbn [negb]. rewrite Hidle. cbn [Z.eqb fst].
        by destruct (setAlarm_ok run). }
      destruct (d1_ok run) eqn:Hd1.
      * rewrite (alarm_bills_memory run st Hactive Hd1).
        apply Forall_app. split; [done|].
        apply Forall_cons. split; [|done].
        unfold batch_ok.
        cbn [b_requests b_cacheHits b_cacheMisses]. lia.
      * by destruct (alarm_failure_state run st Hactive Hd1) as (-> & _).
    + unfold alarm. cbn [negb].
      by destruct (deleteAll_ok run), (deleteAlarm_ok run).
Qed.

(** X18. As long as no record-event carries the body [null], every batch
    sent to the billing database carries at least one request,
    non-negative hits and misses, and [requests = hits + misses]: after any
    sequence of constructor runs, record-events and flushes, started in a
    state that satisfies the counter invariant and has billed only such
    batches (a fresh object is one), the invariant holds and only such
    batches have been billed. *)
Theorem batches_well_formed (billing : bool) (ops : list Op) (st : DO) :
  Forall typed_op ops →
  invariant st →
  Forall batch_ok (billed st) →
  invariant (run_ops billing ops st)
  ∧ Forall batch_ok (billed (run_ops billing ops st)).
Proof.
  unfold run_ops. intros Hops. revert st.
  induction Hops as [|op ops Hop _ IH]; intros st Hst Hbilled; [done|].
  cbn [List.fold_left]. apply IH.
  - by apply step_invariant.
  - by apply step_batches.
Qed.

Lemma batches_well_formed_witness :
  Forall batch_ok
    (billed
       (run_ops true
          [OpConstruct 0; OpFetch Demo.late_miss;
           OpFetch (mkEvent Unparsable true); OpAlarm (Demo.run true);
           OpAlarm (Demo.run true)]
          fresh)).
Proof.
  refine (proj2 (batches_well_formed true _ fresh _ fresh_invariant _)).
  - repeat constructor; discriminate.
  - apply Forall_nil. exact I.
Defined.

Lemma synced_fields (st : DO) :
  synced st →
  number_or_0 (storage st !! SITE_ID) = siteId (mem st)
  ∧ string_or_empty (storage st !! DOMAIN) = domain (mem st)
  ∧ number_or_0 (storage st !! REQUESTS) = requests (mem st)
  ∧ number_or_0 (storage st !! CACHE_HITS) = cacheHits (mem st)
  ∧ number_or_0 (storage st !! CACHE_MISSES) = cacheMisses (mem st)
  ∧ number_or_0 (storage st !! D1_FAILURES) = d1Failures (mem st)
  ∧ negb (siteId (mem st) =? 0) || negb (String.eqb (domain (mem st)) "")
    = initialized (mem st).
Proof.
  unfold synced. intros H. rewrite <- H. by split_and!.
Qed.

Lemma union_lookup (updates s : gmap string Value) (key : string) :
  (updates ∪ s) !! key
  = match updates !! key with
    | Some v => Some v
    | None => s !! key
    end.
Proof.
  destruct (updates !! key) eqn:E;
    [by apply lookup_union_Some_l|by apply lookup_union_r].
Qed.

Ltac storage_lookup :=
  repeat first
    [ rewrite lookup_insert_eq
    | rewrite lookup_insert_ne
        by (unfold SITE_ID, DOMAIN, D1_FAILURES, CACHE_MISSES, CACHE_HITS,
              REQUESTS; discriminate)
    | rewrite lookup_empty ].

(** X19. A record-event whose put is accepted is durable: if memory held
    what storage held before, and the object was initialized or the event
    names a site id or a domain, then storage holds the new memory, so the
    constructor run after an eviction brings back exactly the same
    counters and identity. The handler answers 200. *)
Theorem record_event_durable (billing : bool) (clock : Z)
    (metrics : UsageMetrics) (st : DO) :
  synced st →
  initialized (mem st) = true ∨ m_siteId metrics ≠ 0 ∨ m_domain metrics ≠ "" →
  let ev := mkEvent (Object metrics) true in
  snd (fetch ev st) = 200
  ∧ synced (fst (fetch ev st))
  ∧ mem (construct billing clock (fst (fetch ev st))) = mem (fst (fetch ev st))
  ∧ requests (mem (construct billing clock (fst (fetch ev st))))
    = requests (mem st) + 1.
Proof.
  intros Hsync Hid ev.
  destruct (synced_fields st Hsync) as (Hs & Hd & Hr & Hh & Hm & Hf & Hi).
  assert (synced (fst (fetch ev st))) as Hsync'.
  { unfold synced, fetch, ev. cbn [payload e_put_ok].
    destruct (initialized (mem st)) eqn:Hinit; cbn [negb fst].
    - unfold loadFromStorage.
      cbn [storage with_storage with_mem mem set_counters requests cacheHits
             cacheMisses siteId domain d1Failures initialized].
      rewrite !union_lookup. storage_lookup.
      cbn [number_or_0]. rewrite Hs, Hd, Hf, Hi.
      unfold set_counters. by rewrite Hinit.
    - unfold loadFromStorage.
      cbn [storage with_storage with_mem mem set_counters set_identity
             requests cacheHits cacheMisses siteId domain d1Failures
             initialized].
      rewrite !union_lookup. storage_lookup.
      cbn [number_or_0 string_or_empty]. rewrite Hf.
      assert (negb (m_siteId metrics =? 0)
              || negb (String.eqb (m_domain metrics) "") = true) as ->.
      { destruct Hid as [?|[Hn|Hn]]; [congruence| |].
        - apply Z.eqb_neq in Hn. by rewrite Hn.
        - apply String.eqb_neq in Hn. rewrite Hn. apply orb_true_r. }
      unfold set_counters, set_identity. reflexivity. }
  assert (mem (construct billing clock (fst (fetch ev st)))
          = mem (fst (fetch ev st))) as Hmem.
  { unfold construct. cbn [pendingAlarm with_mem].
    destruct (negb _ && billing); exact Hsync'. }
  split_and!; try done.
  - unfold fetch, ev. cbn [payload e_put_ok].
    by destruct (initialized (mem st)).
  - rewrite Hmem. by destruct (fetch_counters ev st) as (-> & _).
Qed.
(** X20. The window the code comments name: when the billing write
    succeeds and the put that follows is refused, memory is decremented
    but storage keeps the old counters; if the object stays in memory the
    next flush bills nothing more, but once the constructor has run again
    the old counters are back and the next successful flush bills the same
    amounts a second time. *)
Theorem refused_put_bills_twice (run next : Run) (clock : Z) (st : DO) :
  synced st →
  requests (mem st) ≠ 0 →
  during_write run = [] →
  d1_ok run = true →
  put_ok run = false →
  d1_ok next = true →
  let st' := fst (alarm true run st) in
  let back := construct true clock st' in
  let amounts now hour :=
    mkBatch (siteId (mem st)) (requests (mem st)) (cacheHits (mem st))
      (cacheMisses (mem st)) now hour in
  requests (mem st') = 0
  ∧ storage st' = storage st
  ∧ billed st'
    = billed st ++ [amounts (now_ms run / 1000) (hour_ms run / 3600000 * 3600)]
  ∧ billed (fst (alarm true next st')) = billed st'
  ∧ mem back = mem st
  ∧ billed (fst (alarm true next back))
    = billed st
        ++ [amounts (now_ms run / 1000) (hour_ms run / 3600000 * 3600);
            amounts (now_ms next / 1000) (hour_ms next / 3600000 * 3600)].
Proof.
  intros Hsync Hactive Hnone Hd1 Hput Hnext st' back amounts.
  destruct (alarm_success_state run st Hactive Hd1)
    as (Hr & _ & _ & _ & Hsto).
  rewrite Hnone, Hput in *. cbn [handle_events List.fold_left] in *.
  fold st' in Hr, Hsto.
  pose proof (alarm_bills_memory run st Hactive Hd1) as Hb. fold st' in Hb.
  assert (mem back = mem st) as Hback.
  { subst back. unfold construct. cbn [pendingAlarm with_mem].
    destruct (negb _ && true); cbn [mem with_alarm with_mem]; by rewrite Hsto. }
  assert (billed back = billed st') as Hbb.
  { subst back. unfold construct. cbn [pendingAlarm with_mem].
    by destruct (negb _ && true). }
  split_and!; try done.
  - lia.
  - unfold alarm. cbn [negb].
    assert ((requests (mem st') =? 0) = true) as -> by lia.
    unfold reschedule. by destruct (setAlarm_ok next).
  - rewrite alarm_bills_memory; [|by rewrite Hback|done].
    rewrite Hbb, Hb, Hback. subst amounts. by rewrite <- app_assoc.
Qed.

Lemma refused_put_bills_twice_witness :
  let run := mkRun 60000 60000 60250 [] true false true true true in
  let next := mkRun 120000 120000 120250 [] true true true true true in
  billed (fst (alarm true next
                 (construct true 90000 (fst (alarm true run Demo.counting)))))
  = [mkBatch 7 3 2 1 60 0; mkBatch 7 3 2 1 120 0].
Proof.
  intros run next.
  refine (proj2 (proj2 (proj2 (proj2 (proj2
            (refused_put_bills_twice run next 90000 Demo.counting
               _ _ _ _ _ _)))))).
  - vm_compute. reflexivity.
  - discriminate.
  - reflexivity.
  - reflexivity.
  - reflexivity.
  - reflexivity.
Defined.

(** X21. The constructor leaves a pending alarm where it is unless its
    time is 0, which [!existingAlarm] takes for no alarm; with no alarm
    pending, or one at time 0, it sets one 60 seconds ahead when the
    billing database is bound and changes nothing when it is unbound. It
    touches neither storage nor what was billed, and memory is what
    storage holds; run twice in a row it does what one run does, the first
    clock reading not being minus 60 seconds. *)
Theorem construct_keeps_alarm (billing : bool) (clock later : Z) (st : DO) :
  pendingAlarm (construct billing clock st)
  = match pendingAlarm st with
    | Some t =>
        if (t =? 0) && billing then Some (clock + 60000) else Some t
    | None => if billing then Some (clock + 60000) else None
    end
  ∧ storage (construct billing clock st) = storage st
  ∧ billed (construct billing clock st) = billed st
  ∧ mem (construct billing clock st) = loadFromStorage (storage st)
  ∧ (clock + 60000 ≠ 0 →
     construct billing later (construct billing clock st)
     = construct billing clock st).
Proof.
  split_and!.
  - unfold construct, alarm_truthy. cbn [pendingAlarm with_mem].
    destruct (pendingAlarm st) as [t|] eqn:Ealarm;
      [destruct (t =? 0)|]; destruct billing;
      cbn [negb andb pendingAlarm with_mem with_alarm]; by rewrite ?Ealarm.
  - unfold construct. by destruct (negb _ && billing).
  - unfold construct. by destruct (negb _ && billing).
  - unfold construct. by destruct (negb _ && billing).
  - intros Hclock%Z.eqb_neq.
    unfold construct, alarm_truthy. cbn [pendingAlarm with_mem].
    destruct (pendingAlarm st) as [t|] eqn:Ealarm;
      [destruct (t =? 0) eqn:Ezero|]; destruct billing;
      cbn [negb andb pendingAlarm with_mem with_alarm storage];
      rewrite ?Ealarm, ?Ezero, ?Hclock; reflexivity.
Qed.

Lemma construct_keeps_alarm_witness :
  construct true 90000 (construct true 80000 Demo.counting)
  = construct true 80000 Demo.counting.
Proof.
  refine (proj2 (proj2 (proj2 (proj2
            (construct_keeps_alarm true 80000 90000 Demo.counting)))) _).
  discriminate.
Defined.

(** X22. The record-event handler answers 200 exactly when the body is an
    object and the put was accepted, and 500 otherwise. A body that is no
    JSON changes neither memory nor storage. A [null] body leaves storage,
    hits and misses as they were but changes memory: it marks an
    uninitialized object initialized without an identity, and adds one to
    the requests of an initialized one. A refused put leaves storage as it
    was but the event counted in memory. *)
Theorem record_event_outcome (ev : Event) (st : DO) :
  (snd (fetch ev st) = 200
   ↔ (∃ metrics, payload ev = Object metrics) ∧ e_put_ok ev = true)
  ∧ (snd (fetch ev st) = 200 ∨ snd (fetch ev st) = 500)
  ∧ (payload ev = Unparsable →
     mem (fst (fetch ev st)) = mem st
     ∧ storage (fst (fetch ev st)) = storage st)
  ∧ (payload ev = Null →
     storage (fst (fetch ev st)) = storage st
     ∧ mem (fst (fetch ev st))
       = if initialized (mem st)
         then set_requests (requests (mem st) + 1) (mem st)
         else set_initialized (mem st))
  ∧ (∀ metrics, payload ev = Object metrics → e_put_ok ev = false →
     storage (fst (fetch ev st)) = storage st
     ∧ requests (mem (fst (fetch ev st))) = requests (mem st) + 1).
Proof.
  unfold fetch.
  destruct (payload ev) as [| |m]; [|destruct (initialized (mem st))|
    destruct (initialized (mem st)), (e_put_ok ev)];
    cbn [negb fst snd]; split_and!;
    first [ done
          | by auto
          | by (split; [|intros [[? ?] _]])
          | by (split; [|intros [_ ?]])
          | by (split; [intros _; split; [eexists|]|])
          | by (intros; split) ].
Qed.
End TrackerAccounting.

Lemma record_event_durable_witness :
  SiteUsageTracker.mem
    (SiteUsageTracker.construct true 90000
       (fst (SiteUsageTracker.fetch
               (SiteUsageTracker.mkEvent
                  (SiteUsageTracker.Object
                     (SiteUsageTracker.mkMetrics 7 "example.com" true)) true)
               Demo.counting)))
  = SiteUsageTracker.mem
      (fst (SiteUsageTracker.fetch
              (SiteUsageTracker.mkEvent
                 (SiteUsageTracker.Object
                    (SiteUsageTracker.mkMetrics 7 "example.com" true)) true)
              Demo.counting)).
Proof.
  refine (proj1 (proj2 (proj2
            (record_event_durable true 90000
               (SiteUsageTracker.mkMetrics 7 "example.com" true)
               Demo.counting _ _)))).
  - vm_compute. reflexivity.
  - by left.
Defined.

(** ** index.ts: what gets stored *)

Lemma startsWith_trans prefix s t :
  Js.startsWith t prefix = true →
  Js.startsWith s t = true → Js.startsWith s prefix = true.
Proof.
  revert s t. induction prefix as [|p prefix IH]; intros s t.
  - by destruct s.
  - destruct t as [|x t]; [done|]. destruct s as [|y s]; [done|].
    cbn [Js.startsWith].
    intros [Hpx Ht]%andb_true_iff [Hxy Hs]%andb_true_iff.
    apply Ascii.eqb_eq in Hpx as ->. apply Ascii.eqb_eq in Hxy as ->.
    rewrite Ascii.eqb_refl. cbn [andb]. by eapply IH.
Qed.

Lemma includes_trans_prefix s prefix t :
  Js.startsWith t prefix = true →
  Js.includes s t = true → Js.includes s prefix = true.
Proof.
  intros Hp. induction s as [|c s IH]; cbn [Js.includes].
  - rewrite !orb_false_r. by apply startsWith_trans.
  - intros [H|H]%orb_true_iff; apply orb_true_iff; [left|right; auto].
    by eapply startsWith_trans.
Qed.

Lemma isImageContentType_image contentType :
  Validation.isImageContentType contentType = true →
  contentType ≠ ""
  ∧ Js.includes (Js.toLowerCase contentType) "image/" = true.
Proof.
  unfold Validation.isImageContentType.
  destruct (String.eqb_spec contentType "") as [->|Hne]; [done|].
  intros H. split; [done|].
  apply existsb_exists in H as (type & Hin & Hinc).
  eapply includes_trans_prefix; [|exact Hinc].
  unfold Validation.imageTypes in Hin. simpl in Hin.
  repeat (destruct Hin as [<-|Hin]; [reflexivity|]). done.
Qed.

Section Stored.
Variable URL_hostname : string → option string.
Variable validateUrlForFetch : string → Origin.Validity.
Variable net_fetch : string → gmap string string → Origin.FetchOutcome.
Variable parseFileSize : string → Result Z.
Variable stamp : Cache.Stamp.

Local Abbreviation fetch :=
  (Worker.fetch URL_hostname validateUrlForFetch net_fetch parseFileSize stamp).
Local Abbreviation handle :=
  (Worker.handle URL_hostname validateUrlForFetch net_fetch parseFileSize stamp).
Local Abbreviation from_origin :=
  (Worker.from_origin validateUrlForFetch net_fetch parseFileSize stamp).

Lemma from_origin_writes v request env r2 parsed a r2' :
  from_origin v request env r2 parsed = Ok (a, r2') →
  r2' = r2
  ∨ ∃ response maxSize data,
      Origin.fetchFromOrigin validateUrlForFetch net_fetch
        (Validation.sourceUrl parsed) env None None None = Ok response
      ∧ Http.ok response = true
      ∧ Validation.isImageContentType
          (Js.or_else (Http.headers_get (Http.r_headers response) "Content-Type")
             "") = true
      ∧ parseFileSize (Js.or_else (Origin.MAX_FILE_SIZE env) "50MB") = Ok maxSize
      ∧ Origin.fetchImageData response maxSize = Ok data
      ∧ r2' = Cache.storeInCache stamp r2 (Validation.cacheKey parsed) data
                (Js.or_else
                   (Http.headers_get (Http.r_headers response) "Content-Type") "")
                (Validation.sourceUrl parsed) (Validation.domain parsed).
Proof.
  unfold Worker.from_origin.
  destruct (Origin.fetchFromOrigin _ _ _ _ _ _ _) as [response|m] eqn:Hf;
    [|discriminate].
  cbn [mbind Result_bind bindR].
  destruct (Http.ok response) eqn:Hok; cbn [negb].
  - destruct (Validation.isImageContentType _) eqn:Himg; cbn [negb].
    + destruct (parseFileSize _) as [maxSize|m] eqn:Hsize; [|discriminate].
      cbn [mbind Result_bind bindR].
      destruct (Origin.fetchImageData response maxSize) as [data|m] eqn:Hdata.
      * intros [= <- <-]. right. by eexists response, maxSize, data.
      * intros [= <- <-]. by left.
    + intros [= <- <-]. by left.
  - destruct (Http.r_status response =? 404); intros [= <- <-]; by left.
Qed.

(** X23. Whatever the request, the handler writes to the bucket in two
    ways only: a DELETE removes the entry of its cache key, and a GET that
    passes the allow-list stores under its cache key the body of the
    response that [fetchFromOrigin] returned for the source URL, with the
    content type of that response: a response with a status in 200-299 and
    a content type that [isImageContentType] accepts, so one that holds
    [image/], whose body was read in full and is no longer than the
    configured limit. Nothing else is ever stored, and no other key is
    touched. *)
Theorem only_images_stored (v : Worker.Version) (request : Http.Request)
    (env : Origin.Env) (r2 : gmap string Cache.R2Object) :
  snd (fetch v request env r2) = r2
  ∨ (∃ parsed,
       Validation.parseUrl (Http.url request) = Ok parsed
       ∧ Http.method request = "DELETE"
       ∧ snd (fetch v request env r2) = delete (Validation.cacheKey parsed) r2)
  ∨ (∃ parsed response maxSize data,
       Validation.parseUrl (Http.url request) = Ok parsed
       ∧ Http.method request = "GET"
       ∧ Validation.isAllowedOrigin URL_hostname (Validation.sourceUrl parsed)
           (Js.or_else (Origin.ALLOWED_ORIGINS env) "*") = true
       ∧ Origin.fetchFromOrigin validateUrlForFetch net_fetch
           (Validation.sourceUrl parsed) env None None None = Ok response
       ∧ Http.ok response = true
       ∧ Validation.isImageContentType
           (Js.or_else
              (Http.headers_get (Http.r_headers response) "Content-Type") "")
         = true
       ∧ Js.includes
           (Js.toLowerCase
              (Js.or_else
                 (Http.headers_get (Http.r_headers response) "Content-Type") ""))
           "image/" = true
       ∧ parseFileSize (Js.or_else (Origin.MAX_FILE_SIZE env) "50MB") = Ok maxSize
       ∧ Origin.fetchImageData response maxSize = Ok data
       ∧ Http.arrayBuffer response = Ok data
       ∧ Http.byteLength data ≤ maxSize
       ∧ snd (fetch v request env r2)
         = Cache.storeInCache stamp r2 (Validation.cacheKey parsed) data
             (Js.or_else
                (Http.headers_get (Http.r_headers response) "Content-Type") "")
             (Validation.sourceUrl parsed) (Validation.domain parsed)).
Proof.
  unfold Worker.fetch.
  destruct (String.eqb (Http.method request) "OPTIONS"); [by left|].
  destruct (_ || _); [by left|].
  destruct (String.eqb _ "/stats"); [by left|].
  unfold Worker.handle.
  destruct (Validation.parseUrl (Http.url request)) as [parsed|m] eqn:Hp;
    [|by left].
  cbn [mbind Result_bind bindR].
  destruct (String.eqb_spec (Http.method request) "DELETE") as [Hdel|_].
  { destruct (Cache.getFromCache r2 _); [|by left].
    right. left. by exists parsed. }
  destruct (String.eqb (Http.method request) "HEAD"); [by left|].
  destruct (String.eqb_spec (Http.method request) "GET") as [Hget|_];
    cbn [negb]; [|by left].
  destruct (Validation.isAllowedOrigin _ _ _) eqn:Hallowed; cbn [negb];
    [|by left].
  destruct (if Validation.forceReprocess parsed then None else _); [by left|].
  destruct (from_origin v request env r2 parsed) as [[a r2']|m] eqn:Hfrom;
    [|by left].
  cbn [snd].
  destruct (from_origin_writes _ _ _ _ _ _ _ Hfrom)
    as [->|(response & maxSize & data & Hf & Hok & Himg & Hsize & Hdata & ->)];
    [by left|].
  right. right.
  pose proof Hdata as (Hbody & Hlen & _)%fetchImageData_accepts.
  pose proof Himg as [_ Himage]%isImageContentType_image.
  exists parsed, response, maxSize, data.
  by split_and!.
Qed.
End Stored.

(** ** validation.ts: the source URL names the parsed path *)

Lemma decode_go_mono fuel fuel' s r :
  Js.decode_go fuel s = Some r → (fuel ≤ fuel')%nat →
  Js.decode_go fuel' s = Some r.
Proof.
  revert fuel' s r. induction fuel as [|fuel IH]; intros fuel' s r H Hle;
    [discriminate|].
  destruct fuel' as [|fuel']; [lia|].
  destruct s as [|c rest]; [exact H|].
  cbn [Js.decode_go] in *.
  destruct (Ascii.eqb c "%").
  - destruct (Js.read_escapes 1 (String c rest)) as [[[|b0 [|? ?]] r1]|];
      try discriminate.
    destruct (Js.utf8_length b0) as [[|k]|]; try discriminate.
    destruct (Js.read_escapes k r1) as [[bs r2]|]; try discriminate.
    destruct (Js.utf8_code_point (b0 :: bs)); try discriminate.
    destruct (Js.decode_go fuel r2) as [x|] eqn:E; [|discriminate].
    rewrite (IH fuel' r2 x E) by lia. exact H.
  - destruct (Js.decode_go fuel rest) as [x|] eqn:E; [|discriminate].
    rewrite (IH fuel' rest x E) by lia. exact H.
Qed.

Lemma decode_go_escape fuel h l rest a b :
  Js.hex_value h = Some a → Js.hex_value l = Some b →
  (16 * a + b <? 128) = true →
  Js.decode_go (S fuel) (String "%" (String h (String l rest)))
  = String (ascii_of_N (Z.to_N (16 * a + b))) <$> Js.decode_go fuel rest.
Proof.
  intros Ha Hb Hlt. cbn [Js.decode_go Js.read_escapes].
  change (Ascii.eqb "%" "%") with true. cbn iota.
  rewrite Ha, Hb. unfold Js.utf8_length. rewrite Hlt.
  cbn [Js.read_escapes Js.utf8_code_point]. rewrite Hlt.
  by destruct (Js.decode_go fuel rest).
Qed.

Lemma char_facts (c : ascii) :
  (Js.is_unreserved c = true → Ascii.eqb c "%" = false)
  ∧ Js.hex_value (Js.hex_digit (Js.code c / 16)) = Some (Z.of_N (Js.code c / 16))
  ∧ Js.hex_value (Js.hex_digit (Js.code c mod 16))
    = Some (Z.of_N (Js.code c mod 16))
  ∧ ascii_of_N (Z.to_N (16 * Z.of_N (Js.code c / 16)
                        + Z.of_N (Js.code c mod 16))) = c
  ∧ (16 * Z.of_N (Js.code c / 16) + Z.of_N (Js.code c mod 16) <? 128)
    = Policy.is_ascii c.
Proof. destruct c as [[] [] [] [] [] [] [] []]; vm_compute; done. Qed.

(** One character of a path, as the source URL spells it. *)
Lemma encoded_char_decodes (c : ascii) (rest : string) (fuel : nat) :
  Policy.is_ascii c = true →
  Js.decode_go (S fuel) (Js.encodeURIComponent (String c EmptyString) +:+ rest)
  = String c <$> Js.decode_go fuel rest.
Proof.
  intros Hc. destruct (char_facts c) as (Hpct & Hhi & Hlo & Hback & Hlt).
  cbn [Js.encodeURIComponent].
  destruct (Js.is_unreserved c) eqn:Hu.
  - change (String c "" +:+ rest) with (String c rest).
    by apply read_escapes_one_other, Hpct.
  - match goal with
    | |- context [String "%" (String ?h (String ?l "")) +:+ rest] =>
        change (String "%" (String h (String l "")) +:+ rest)
          with (String "%" (String h (String l rest)))
    end.
    rewrite (decode_go_escape _ _ _ _ _ _ Hhi Hlo) by (by rewrite Hlt).
    by rewrite Hback.
Qed.

Lemma encodeURIComponent_cons c x :
  Js.encodeURIComponent (String c x)
  = Js.encodeURIComponent (String c EmptyString) +:+ Js.encodeURIComponent x.
Proof. cbn [Js.encodeURIComponent]. by destruct (Js.is_unreserved c). Qed.

Lemma encoded_path_cons c s :
  Js.join "/" (List.map Js.encodeURIComponent (Js.split "/" (String c s)))
  = (if Ascii.eqb c "/" then "/"
     else Js.encodeURIComponent (String c EmptyString))
    +:+ Js.join "/" (List.map Js.encodeURIComponent (Js.split "/" s)).
Proof.
  cbn [Js.split]. pose proof (split_not_nil "/" s) as Hnil.
  destruct (Ascii.eqb c "/"); destruct (Js.split "/" s) as [|x xs]; try done.
  rewrite !map_cons, (encodeURIComponent_cons c x).
  destruct xs as [|y ys]; [done|].
  cbn [List.map Js.join]. by rewrite append_assoc.
Qed.

Lemma decode_encoded_path p :
  Js.string_forall Policy.is_ascii p = true →
  ∀ fuel rest r,
    Js.decode_go fuel rest = Some r →
    Js.decode_go (String.length p + fuel)
      (Js.join "/" (List.map Js.encodeURIComponent (Js.split "/" p)) +:+ rest)
    = Some (p +:+ r).
Proof.
  induction p as [|c p IH]; intros Hp fuel rest r Hr; [exact Hr|].
  cbn [Js.string_forall] in Hp. apply andb_true_iff in Hp as [Hc Hp].
  rewrite encoded_path_cons, append_assoc.
  cbn [String.length Nat.add].
  destruct (Ascii.eqb_spec c "/") as [->|_].
  - change ("/" +:+ ?x) with (String "/" x).
    rewrite read_escapes_one_other by done.
    by rewrite (IH Hp _ _ _ Hr).
  - rewrite encoded_char_decodes by done.
    by rewrite (IH Hp _ _ _ Hr).
Qed.

Lemma append_length (s t : string) :
  String.length (s +:+ t) = (String.length s + String.length t)%nat.
Proof. induction s as [|c s IH]; simpl; [done|]. by rewrite IH. Qed.

Lemma encoded_path_length p :
  (String.length p
   ≤ String.length
       (Js.join "/" (List.map Js.encodeURIComponent (Js.split "/" p))))%nat.
Proof.
  induction p as [|c p IH]; [simpl; lia|].
  rewrite encoded_path_cons, append_length. cbn [String.length].
  destruct (Ascii.eqb c "/"); [simpl; lia|].
  cbn [Js.encodeURIComponent]. destruct (Js.is_unreserved c); simpl; lia.
Qed.

Lemma decode_plain_prefix d :
  Js.string_forall (λ c, negb (Ascii.eqb c "%")) d = true →
  ∀ fuel rest r,
    Js.decode_go fuel rest = Some r →
    Js.decode_go (String.length d + fuel) (d +:+ rest) = Some (d +:+ r).
Proof.
  induction d as [|c d IH]; intros Hd fuel rest r Hr; [exact Hr|].
  cbn [Js.string_forall] in Hd. apply andb_true_iff in Hd as [Hc Hd].
  apply negb_true_iff in Hc.
  cbn [String.length Nat.add String.append].
  rewrite read_escapes_one_other by done.
  by rewrite (IH Hd _ _ _ Hr).
Qed.

(** The parser reads the pathname through its decoding with the leading
    slashes dropped, and the query through its parameters. *)
Lemma parseUrl_ext url url' d d' :
  Js.decodeURIComponent (Validation.pathname url) = Some d →
  Js.decodeURIComponent (Validation.pathname url') = Some d' →
  Js.strip_leading "/" d' = Js.strip_leading "/" d →
  Validation.searchParams url' = Validation.searchParams url →
  Validation.parseUrl url' = Validation.parseUrl url.
Proof.
  intros H1 H2 H3 H4. unfold Validation.parseUrl, Validation.searchParams_get.
  by rewrite H1, H2, H3, H4.
Qed.

Lemma parseUrl_pathname url p :
  Validation.parseUrl url = Ok p →
  ∃ d, Js.decodeURIComponent (Validation.pathname url) = Some d
       ∧ Js.strip_leading "/" d = Validation.domain p +:+ Validation.path p.
Proof.
  unfold Validation.parseUrl.
  destruct (Js.decodeURIComponent (Validation.pathname url)) as [d|];
    [|discriminate].
  pose proof (join_split "/" (Js.strip_leading "/" d)) as Hjoin.
  destruct (Js.split "/" (Js.strip_leading "/" d)) as [|x [|y ys]];
    [discriminate..|].
  cbn [length Nat.ltb Nat.leb List.hd List.tl].
  destruct (Validation.isValidDomain x); [|discriminate].
  cbn [negb]. intros [= <-]. exists d. split; [done|].
  cbn [Validation.domain Validation.path]. by rewrite <- Hjoin.
Qed.

(** X24. The source URL names the parsed path: for every successful parse
    whose path is ASCII, the part of the source URL after the domain
    percent-decodes to exactly that path, and a URL whose pathname is rebuilt
    from the result, a slash, the domain and that encoded path, with the
    same query, parses to the same result again. *)
Theorem parseUrl_canonical (url : Validation.URL) (p : Validation.ParsedUrl) :
  Validation.parseUrl url = Ok p →
  Js.string_forall Policy.is_ascii (Validation.path p) = true →
  let encodedPath :=
    Js.join "/" (List.map Js.encodeURIComponent
                   (Js.split "/" (Validation.path p))) in
  Validation.sourceUrl p = "https://" +:+ Validation.domain p +:+ encodedPath
  ∧ Js.decodeURIComponent encodedPath = Some (Validation.path p)
  ∧ Validation.parseUrl
      (Validation.mkURL ("/" +:+ Validation.domain p +:+ encodedPath)
         (Validation.searchParams url))
    = Ok p.
Proof.
  intros Hp Hascii encodedPath.
  pose proof Hp as (rest & Hd & Hpath & Hkey & Hsrc)%parseUrl_Ok.
  pose proof Hp as (d & Hdec & Hstrip)%parseUrl_pathname.
  assert (∀ prefix,
            Js.string_forall (λ c, negb (Ascii.eqb c "%")) prefix = true →
            Js.decodeURIComponent (prefix +:+ encodedPath)
            = Some (prefix +:+ Validation.path p)) as Hdecode.
  { intros prefix Hprefix. unfold Js.decodeURIComponent.
    assert (Js.decode_go
              (String.length prefix + (String.length (Validation.path p) + 1))
              (prefix +:+ encodedPath)
            = Some (prefix +:+ Validation.path p)) as H.
    { apply decode_plain_prefix; [done|].
      pose proof (decode_encoded_path _ Hascii 1 "" "" eq_refl) as H.
      assert (∀ s, s +:+ "" = s) as Hnil
        by (induction s as [|? ? IH]; simpl; [done|by rewrite IH]).
      by rewrite !Hnil in H. }
    eapply decode_go_mono; [exact H|].
    rewrite append_length.
    pose proof (encoded_path_length (Validation.path p)) as Hlen.
    fold encodedPath in Hlen. lia. }
  split_and!.
  - exact Hsrc.
  - exact (Hdecode "" eq_refl).
  - rewrite <- Hp.
    apply (parseUrl_ext _ _ d
             (("/" +:+ Validation.domain p) +:+ Validation.path p));
      [exact Hdec| | |done].
    + cbn [Validation.pathname].
      change ("/" +:+ Validation.domain p +:+ encodedPath)
        with (("/" +:+ Validation.domain p) +:+ encodedPath).
      apply Hdecode.
      change ("/" +:+ Validation.domain p)
        with (String "/" (Validation.domain p)).
      cbn [Js.string_forall].
      by rewrite (isValidDomain_without "%" _ eq_refl Hd).
    + rewrite Hstrip.
      pose proof (isValidDomain_without "/" _ eq_refl Hd) as Hslash.
      destruct (Validation.domain p) as [|d0 dom];
        [vm_compute in Hd; discriminate|].
      cbn [Js.string_forall] in Hslash.
      apply andb_true_iff in Hslash as [Hd0 _]. apply negb_true_iff in Hd0.
      change (Js.strip_leading "/"
                (("/" +:+ String d0 dom) +:+ Validation.path p))
        with (Js.strip_leading "/"
                (String d0 (dom +:+ Validation.path p))).
      by rewrite (strip_leading_other _ _ _ Hd0).
Qed.

Lemma parseUrl_canonical_witness :
  Js.decodeURIComponent "/a%3Fb%23c/d%20e.jpg" = Some "/a?b#c/d e.jpg"
  ∧ Validation.parseUrl
      (Validation.mkURL "/example.com/a%3Fb%23c/d%20e.jpg" [("force", "1")])
    = Ok (Validation.mkParsedUrl "example.com" "/a?b#c/d e.jpg"
            "https://example.com/a%3Fb%23c/d%20e.jpg"
            "example.com/a?b#c/d e.jpg" true false).
Proof.
  refine (proj2 (parseUrl_canonical
            (Validation.mkURL "//example.com/a%3fb%23c/d e.jpg"
               [("force", "1")])
            (Validation.mkParsedUrl "example.com" "/a?b#c/d e.jpg"
               "https://example.com/a%3Fb%23c/d%20e.jpg"
               "example.com/a?b#c/d e.jpg" true false) _ _));
    vm_compute; reflexivity.
Defined.

(** ** validation.ts: the host names the validator accepts *)

Lemma matches_deriv r s :
  Language.matches r s →
  (s = EmptyString → Regex.nullable r = true)
  ∧ (∀ c s', s = String c s' → Language.matches (Regex.deriv c r) s').
Proof.
  induction 1 as [|p c Hc|a b s t Ha [IHa0 IHa] Hb [IHb0 IHb]
                  |a b s Ha [IHa0 IHa]|a b s Hb [IHb0 IHb]
                  |a|a c s t Ha [_ IHa] Hs _
                  |a hi|a lo hi c s t Ha [_ IHa] Ht _]; simpl.
  - split; [done|discriminate].
  - split; [discriminate|]. intros ? ? [= <- <-]. rewrite Hc. constructor.
  - split.
    + intros Hst. destruct s; [|discriminate]. simpl in Hst.
      by rewrite IHa0, IHb0.
    + intros c s' Hst. destruct s as [|d s].
      * simpl in Hst. rewrite IHa0 by done.
        apply Language.matches_Alt_r. by apply IHb.
      * simpl in Hst. injection Hst as -> <-.
        destruct (Regex.nullable a);
          [apply Language.matches_Alt_l|]; constructor; auto.
  - split; [intros Hs; by rewrite IHa0|].
    intros c s' Hs. apply Language.matches_Alt_l. auto.
  - split; [intros Hs; rewrite IHb0 by done; apply orb_true_r|].
    intros c s' Hs. apply Language.matches_Alt_r. auto.
  - split; [done|discriminate].
  - split; [discriminate|]. intros ? ? [= <- <-]. constructor; auto.
  - split; [done|discriminate].
  - split; [discriminate|]. intros ? ? [= <- <-]. constructor; auto.
Qed.

Lemma matches_test r s : Language.matches r s → Regex.test r s = true.
Proof.
  revert r. induction s as [|c s IH]; intros r Hr; simpl.
  - by apply (matches_deriv _ _ Hr).
  - apply IH. by apply (matches_deriv _ _ Hr).
Qed.

Lemma matches_Rep_class p s : ∀ lo hi,
  Js.string_forall p s = true →
  (lo ≤ String.length s)%nat → (String.length s ≤ hi)%nat →
  Language.matches (Regex.Rep (Regex.Cls p) lo hi) s.
Proof.
  induction s as [|c s IH]; intros lo hi Hs Hlo Hhi; simpl in *.
  - assert (lo = 0)%nat as -> by lia. constructor.
  - apply andb_true_iff in Hs as [Hc Hs].
    destruct hi as [|hi]; [lia|].
    apply (Language.matches_Rep_cons _ lo hi c EmptyString s).
    + by constructor.
    + apply IH; [done|lia..].
Qed.

Lemma digit_group_matches s :
  Language.digit_group s = true →
  Language.matches (Regex.Rep Validation.digit 1 3) s.
Proof.
  unfold Language.digit_group.
  intros [[Hs Hlo%Nat.leb_le]%andb_true_iff Hhi%Nat.leb_le]%andb_true_iff.
  by apply matches_Rep_class.
Qed.

Lemma matches_dot : Language.matches Validation.dot ".".
Proof. by constructor. Qed.

(** X25. The validator takes every dotted quad of one to three digits for
    a domain: the value of a group is not checked, and neither is what the
    address stands for. *)
Theorem isValidDomain_dotted_quad (a b c d : string) :
  Language.digit_group a = true → Language.digit_group b = true →
  Language.digit_group c = true → Language.digit_group d = true →
  Validation.isValidDomain (a +:+ "." +:+ b +:+ "." +:+ c +:+ "." +:+ d) = true.
Proof.
  intros Ha Hb Hc Hd. unfold Validation.isValidDomain.
  rewrite (matches_test Validation.ipv4_re); [by rewrite orb_true_r|].
  unfold Validation.ipv4_re.
  repeat (first [ apply Language.matches_Seq
                | by apply digit_group_matches
                | exact matches_dot ]).
Qed.

Lemma isValidDomain_dotted_quad_witness :
  Validation.isValidDomain "169.254.169.254" = true
  ∧ Validation.isValidDomain "999.0.00.1" = true.
Proof.
  split.
  - by apply (isValidDomain_dotted_quad "169" "254" "169" "254").
  - by apply (isValidDomain_dotted_quad "999" "0" "00" "1").
Defined.

Lemma last_char_split c rest :
  ∃ front,
    String c rest = front +:+ String (Language.last_char c rest) EmptyString
    ∧ String.length front = String.length rest
    ∧ (∀ P, P c = true → Js.string_forall P rest = true →
            Js.string_forall P front = true).
Proof.
  revert c. induction rest as [|d rest IH]; intros c.
  - by exists EmptyString.
  - destruct (IH d) as (front & Heq & Hlen & HP).
    exists (String c front). simpl. rewrite <- Heq, Hlen. split_and!; try done.
    intros P Hc [Hd Hrest]%andb_true_iff. rewrite Hc. simpl. by apply HP.
Qed.

(** A label of two characters or more, as the last part of the pattern
    reads it. *)
Lemma label_matches_long c rest :
  Language.label (String c rest) = true → rest ≠ EmptyString →
  Language.matches
    (Regex.Seq Validation.alnum
       (Regex.Seq (Regex.Rep Validation.alnum_hyphen 0 61) Validation.alnum))
    (String c rest).
Proof.
  intros Hl Hrest. destruct rest as [|d rest]; [done|].
  cbn [Language.label] in Hl.
  apply andb_true_iff in Hl as [[[Hc Hall]%andb_true_iff Hlast]%andb_true_iff
                                 Hlen%Nat.leb_le].
  cbn [Language.last_char] in Hlast.
  destruct (last_char_split d rest) as (front & Heq & Hfront & HP).
  change (String c (String d rest))
    with (String c EmptyString +:+ String d rest).
  rewrite Heq. apply Language.matches_Seq; [by constructor|].
  apply Language.matches_Seq; [|by constructor].
  cbn [Js.string_forall] in Hall. apply andb_true_iff in Hall as [Hd Hall].
  apply matches_Rep_class; [by apply HP|lia|].
  cbn [String.length] in Hlen. lia.
Qed.

Lemma matches_Seq_Opt a b s :
  Language.matches (Regex.Seq a b) s →
  Language.matches (Regex.Seq a (Regex.Opt b)) s.
Proof.
  inversion 1; subst. constructor; [done|]. by apply Language.matches_Alt_r.
Qed.

Lemma string_app_assoc (s t u : string) : (s +:+ t) +:+ u = s +:+ t +:+ u.
Proof. induction s as [|c s IH]; simpl; [done|by rewrite IH]. Qed.

(** A label and the dot after it, as the repeated part of the pattern reads
    them. *)
Lemma label_dot_matches l :
  Language.label l = true →
  Language.matches
    (Regex.Seq Validation.alnum
       (Regex.Seq
          (Regex.Opt
             (Regex.Seq (Regex.Rep Validation.alnum_hyphen 0 61)
                Validation.alnum))
          Validation.dot))
    (l +:+ ".").
Proof.
  intros Hl. destruct l as [|c rest]; [done|].
  destruct rest as [|d rest].
  - cbn [Language.label] in Hl.
    apply andb_true_iff in Hl as [[[Hc _]%andb_true_iff _]%andb_true_iff _].
    change (String c EmptyString +:+ ".")
      with (String c EmptyString +:+ EmptyString +:+ ".").
    apply Language.matches_Seq; [by constructor|].
    apply Language.matches_Seq; [|exact matches_dot].
    apply Language.matches_Alt_l. constructor.
  - pose proof (label_matches_long c (String d rest) Hl ltac:(done)) as H.
    remember (String c (String d rest)) as l eqn:El. clear El.
    inversion H as [| |a b s t Ha Hb| | | | | |]; subst.
    rewrite string_app_assoc.
    apply Language.matches_Seq; [done|].
    apply Language.matches_Seq; [|exact matches_dot].
    by apply Language.matches_Alt_r.
Qed.

Lemma labels_match_star ls :
  Forall (λ l, Language.label l = true) ls →
  Language.matches
    (Regex.Star
       (Regex.Seq Validation.alnum
          (Regex.Seq
             (Regex.Opt
                (Regex.Seq (Regex.Rep Validation.alnum_hyphen 0 61)
                   Validation.alnum))
             Validation.dot)))
    (List.fold_right (λ l acc, (l +:+ ".") +:+ acc) EmptyString ls).
Proof.
  induction 1 as [|l ls Hl _ IH]; simpl; [constructor|].
  pose proof (label_dot_matches l Hl) as Hm.
  destruct l as [|c rest]; [done|].
  change (String c rest +:+ ".") with (String c (rest +:+ ".")) in *.
  by apply Language.matches_Star_cons.
Qed.

Lemma join_dots ls t :
  Js.join "." (ls ++ [t])
  = List.fold_right (λ l acc, (l +:+ ".") +:+ acc) EmptyString ls +:+ t.
Proof.
  induction ls as [|l ls IH]; [done|].
  change ((l :: ls) ++ [t]) with (l :: (ls ++ [t])).
  cbn [Js.join List.fold_right].
  destruct (ls ++ [t]) as [|x xs] eqn:E; [by destruct ls|].
  rewrite IH. by rewrite !string_app_assoc.
Qed.

(** X26. The validator accepts every host name of two labels or more: the
    labels joined by dots, each of one to sixty-three letters, digits and
    hyphens with no hyphen at either end, the last one of two characters at
    least. *)
Theorem isValidDomain_host_names (ls : list string) (tld : string) :
  ls ≠ [] →
  Forall (λ l, Language.label l = true) ls →
  Language.label tld = true → (2 ≤ String.length tld)%nat →
  Validation.isValidDomain (Js.join "." (ls ++ [tld])) = true.
Proof.
  intros Hne Hls Htld Hlen. unfold Validation.isValidDomain.
  destruct (_ || _); [done|].
  apply matches_test. rewrite join_dots. unfold Validation.domain_re.
  apply Language.matches_Seq.
  - destruct ls as [|l ls]; [done|].
    apply Forall_cons in Hls as [Hl Hls].
    cbn [List.fold_right]. apply Language.matches_Seq.
    + by apply label_dot_matches.
    + by apply labels_match_star.
  - destruct tld as [|c [|d rest]]; [done|simpl in Hlen; lia|].
    by apply label_matches_long.
Qed.

Lemma isValidDomain_host_names_witness :
  Validation.isValidDomain "cdn-1.Example.co.uk" = true.
Proof.
  apply (isValidDomain_host_names ["cdn-1"; "Example"; "co"] "uk");
    [done|repeat constructor|done|simpl; lia].
Defined.

Lemma only_spec x p c : Language.only x p = true → p c = true → c = x.
Proof.
  unfold Language.only. rewrite List.forallb_forall. intros H Hc.
  specialize (H (nat_of_ascii c)). rewrite ascii_nat_embedding in H.
  cbn zeta in H. rewrite Hc in H. apply Ascii.eqb_eq. apply H.
  apply List.in_seq. pose proof (nat_ascii_bounded c). lia.
Qed.

Lemma needs_not_nullable x r :
  Language.needs x r = true → Regex.nullable r = false.
Proof.
  induction r as [| |p|a IHa b IHb|a IHa b IHb|a IHa|a IHa lo hi]; simpl;
    try done.
  - intros [H|H]%orb_true_iff; [rewrite (IHa H)|rewrite (IHb H)];
      [done|apply andb_false_r].
  - intros [Ha Hb]%andb_true_iff. by rewrite (IHa Ha), (IHb Hb).
  - intros [Hlo Ha]%andb_true_iff. apply negb_true_iff in Hlo.
    by rewrite Hlo, (IHa Ha).
Qed.

Lemma needs_deriv x c r :
  Ascii.eqb c x = false →
  Language.needs x r = true → Language.needs x (Regex.deriv c r) = true.
Proof.
  intros Hc.
  induction r as [| |p|a IHa b IHb|a IHa b IHb|a IHa|a IHa lo hi]; simpl;
    try done.
  - intros Hp. destruct (p c) eqn:E; [|done].
    apply (only_spec _ _ _ Hp) in E. subst. by rewrite Ascii.eqb_refl in Hc.
  - intros [H|H]%orb_true_iff.
    + rewrite (needs_not_nullable _ _ H). simpl. by rewrite (IHa H).
    + destruct (Regex.nullable a); simpl; rewrite H, ?(IHb H);
        by rewrite ?orb_true_r.
  - intros [Ha Hb]%andb_true_iff. by rewrite (IHa Ha), (IHb Hb).
  - intros [Hlo Ha]%andb_true_iff. destruct hi; simpl; [done|].
    by rewrite (IHa Ha).
Qed.

Lemma needs_test x r s :
  Language.needs x r = true →
  Js.string_forall (λ c, negb (Ascii.eqb c x)) s = true →
  Regex.test r s = false.
Proof.
  revert r. induction s as [|c s IH]; intros r Hr Hs; simpl.
  - by eapply needs_not_nullable.
  - simpl in Hs. apply andb_true_iff in Hs as [Hc%negb_true_iff Hs].
    apply IH; [|done]. by apply needs_deriv.
Qed.

(** X27. Of the strings without a dot the validator accepts [localhost]
    and nothing else: a single-label host name is refused. *)
Theorem isValidDomain_single_label (d : string) :
  Js.includes d "." = false →
  Validation.isValidDomain d = String.eqb d "localhost".
Proof.
  intros Hdot%includes_char_false. unfold Validation.isValidDomain.
  rewrite (needs_test "." Validation.ipv4_re) by (done || by vm_compute).
  rewrite (needs_test "." Validation.domain_re) by (done || by vm_compute).
  by destruct (String.eqb d "localhost").
Qed.

Lemma isValidDomain_single_label_witness :
  Validation.isValidDomain "metadata" = false.
Proof. by apply (isValidDomain_single_label "metadata"). Defined.
